(** * pokedex.db.load: CSV to database and back

    A shallow embedding of [pokedex/db/load.py] (Python 2) and the
    properties of its loader, its dumper, its value codec and its table
    selection.

    Conventions of the embedding.
    - A Python [str] (a byte string, as [csv.reader] yields them) is a
      [string]; a Python [unicode] is a list of code points.
    - A Python dictionary with string keys is a [gmap string _].
    - Calls on the SQLAlchemy session and prints on stdout are recorded,
      in order, in a trace of events; an exception ends the run and keeps
      the trace issued so far. *)

From Stdlib Require Import ZArith Lia List Ascii String DecimalString Sorted Permutation.
From stdpp Require Import base option list gmap strings.

#[local] Set Warnings "-clear-no-such-hyp".

Local Open Scope string_scope.
Local Open Scope Z_scope.

(** ** Python values *)

Module Py.

(** The values a row holds: [None], a [bool], an [int] and a [unicode]
    text given by its code points. *)
Inductive pyval : Type :=
  | VNone
  | VBool (b : bool)
  | VInt (n : Z)
  | VUnicode (u : list Z).

(** Truth value testing, as [if v] does it. *)
Definition is_truthy (v : pyval) : bool :=
  match v with
  | VNone => false
  | VBool b => b
  | VInt n => negb (n =? 0)
  | VUnicode u => match u with [] => false | _ => true end
  end.

Definition list_Z_eqb (a b : list Z) : bool := bool_decide (a = b).

(** [a == b]: [bool] is a subclass of [int], so [True == 1]; a text is
    equal to a text only, [None] to [None] only. *)
Definition py_eq (a b : pyval) : bool :=
  match a, b with
  | VNone, VNone => true
  | VBool x, VBool y => Bool.eqb x y
  | VBool x, VInt n => Z.b2z x =? n
  | VInt n, VBool y => n =? Z.b2z y
  | VInt n, VInt m => n =? m
  | VUnicode u, VUnicode w => list_Z_eqb u w
  | _, _ => false
  end.

(** [v in d] for a dictionary [d] given by the list of its keys. *)
Definition py_in (v : pyval) (keys : list pyval) : bool :=
  existsb (py_eq v) keys.

(** *** Byte strings *)

Definition Z_of_byte (a : ascii) : Z := Z.of_N (N_of_ascii a).
Definition byte_of_Z (z : Z) : ascii := ascii_of_N (Z.to_N z).

Fixpoint bytes_of_string (s : string) : list Z :=
  match s with
  | EmptyString => []
  | String a r => Z_of_byte a :: bytes_of_string r
  end.

Fixpoint string_of_bytes (l : list Z) : string :=
  match l with
  | [] => EmptyString
  | b :: r => String (byte_of_Z b) (string_of_bytes r)
  end.

(** *** The UTF-8 codec of [unicode.encode('utf-8')] and
    [str.decode('utf-8')] *)

Definition valid_code_point (c : Z) : Prop := 0 <= c < 0x110000.

Definition utf8_encode_char (c : Z) : list Z :=
  if c <? 0x80 then [c]
  else if c <? 0x800 then [0xC0 + c / 64; 0x80 + c mod 64]
  else if c <? 0x10000 then
    [0xE0 + c / 4096; 0x80 + (c / 64) mod 64; 0x80 + c mod 64]
  else
    [0xF0 + c / 262144; 0x80 + (c / 4096) mod 64;
     0x80 + (c / 64) mod 64; 0x80 + c mod 64].

Definition is_high_surrogate (ch : Z) : bool := (0xD800 <=? ch) && (ch <=? 0xDBFF).
Definition is_low_surrogate (ch : Z) : bool := (0xDC00 <=? ch) && (ch <=? 0xDFFF).

(** The code point a surrogate pair stands for:
    [((ch - 0xD800) << 10 | (ch2 - 0xDC00)) + 0x10000]. *)
Definition join_pair (ch ch2 : Z) : Z :=
  Z.lor (Z.shiftl (ch - 0xD800) 10) (ch2 - 0xDC00) + 0x10000.

(** The encoder of Python 2.7 goes through the code points; a high
    surrogate directly followed by a low surrogate is encoded as the one
    code point of the pair, in four bytes; a surrogate on its own is
    encoded in three bytes like any code point below U+10000. *)
Fixpoint utf8_encode_points (u : list Z) : list Z :=
  match u with
  | [] => []
  | ch :: r =>
    match r with
    | ch2 :: r' =>
      if is_high_surrogate ch && is_low_surrogate ch2
      then utf8_encode_char (join_pair ch ch2) ++ utf8_encode_points r'
      else utf8_encode_char ch ++ utf8_encode_points r
    | [] => utf8_encode_char ch
    end
  end.

Definition utf8_encode (u : list Z) : string :=
  string_of_bytes (utf8_encode_points u).

Definition is_cont (b : Z) : bool := (0x80 <=? b) && (b <? 0xC0).

(** Strict decoding: a stray continuation byte, a truncated sequence, an
    overlong form and a code point above U+10FFFF are errors; the three
    bytes of a surrogate are accepted, as Python 2.7 does.  A sequence of
    four bytes is one code point (an interpreter with 4-byte unicode). *)
Fixpoint utf8_decode_bytes (bs : list Z) : option (list Z) :=
  match bs with
  | [] => Some []
  | b0 :: r0 =>
    if b0 <? 0x80 then cons b0 <$> utf8_decode_bytes r0
    else if b0 <? 0xC2 then None
    else if b0 <? 0xE0 then
      match r0 with
      | b1 :: r1 =>
        if is_cont b1
        then cons ((b0 - 0xC0) * 64 + (b1 - 0x80)) <$> utf8_decode_bytes r1
        else None
      | _ => None
      end
    else if b0 <? 0xF0 then
      match r0 with
      | b1 :: b2 :: r2 =>
        let c := (b0 - 0xE0) * 4096 + (b1 - 0x80) * 64 + (b2 - 0x80) in
        if is_cont b1 && is_cont b2 && (0x800 <=? c)
        then cons c <$> utf8_decode_bytes r2
        else None
      | _ => None
      end
    else if b0 <? 0xF5 then
      match r0 with
      | b1 :: b2 :: b3 :: r3 =>
        let c := (b0 - 0xF0) * 262144 + (b1 - 0x80) * 4096
                 + (b2 - 0x80) * 64 + (b3 - 0x80) in
        if is_cont b1 && is_cont b2 && is_cont b3
           && (0x10000 <=? c) && (c <? 0x110000)
        then cons c <$> utf8_decode_bytes r3
        else None
      | _ => None
      end
    else None
  end.

Definition utf8_decode (s : string) : option (list Z) :=
  utf8_decode_bytes (bytes_of_string s).

(** A byte string the ASCII codec decodes, as the implicit conversion of
    [str] to [unicode] does it. *)
Definition is_ascii_string (s : string) : bool :=
  forallb (fun b => b <? 128) (bytes_of_string s).

(** [unicode(v)]: the text of a value; an [int] prints in decimal. *)
Definition unicode (v : pyval) : list Z :=
  match v with
  | VNone => bytes_of_string "None"
  | VBool true => bytes_of_string "True"
  | VBool false => bytes_of_string "False"
  | VInt n => bytes_of_string (NilZero.string_of_int (Z.to_int n))
  | VUnicode u => u
  end.

End Py.

Import Py.

(** ** The schema

    [metadata.tables] and the table and column objects of SQLAlchemy, as
    far as [load.py] reads them. *)

(** [isinstance(column.type, sqlalchemy.types.Boolean)] is all the code
    asks of a column type. *)
Inductive column_type : Type :=
  | Boolean
  | OtherType.

Record Column : Type := {
  col_name : string;
  nullable : bool;
  col_type : column_type;
  foreign_keys : list string   (* the table each foreign key targets *)
}.

Record Table : Type := {
  name : string;
  c : list Column;
  primary_key : list string
}.

Definition is_Boolean (t : column_type) : bool :=
  match t with Boolean => true | OtherType => false end.

(** [fk.references(table_obj)] *)
Definition references (fk : string) (table_obj : Table) : bool :=
  String.eqb fk (name table_obj).

(** [table_obj.c[column_name]] *)
Definition lookup_column (table_obj : Table) (column_name : string)
  : option Column :=
  find (fun col => String.eqb (col_name col) column_name) (c table_obj).

(** ** Exceptions and results *)

Inductive exn : Type :=
  | IOError
  | StopIteration
  | KeyError (key : string)
  | NameError (ident : string)
  | ValueError (msg : string)
  | AttributeError (attr : string)
  | ReError
  | UnicodeDecodeError.

Inductive result (A : Type) : Type :=
  | Ok (a : A)
  | Raise (e : exn).
Arguments Ok {A} a.
Arguments Raise {A} e.

(** [[f(x) for x in l]] for an [f] that may raise. *)
Fixpoint map_result {A B : Type} (f : A -> result B) (l : list A)
  : result (list B) :=
  match l with
  | [] => Ok []
  | x :: rest =>
    match f x with
    | Raise e => Raise e
    | Ok y =>
      match map_result f rest with
      | Raise e => Raise e
      | Ok ys => Ok (y :: ys)
      end
    end
  end.

(** ** The value codec *)

(** Load direction, the body of the loop over [zip(column_names, csvs)]
    in [load]. *)
Definition decode_value (column : Column) (value : string) : result pyval :=
  if nullable column && String.eqb value "" then
    (* Empty string in a nullable column really means NULL *)
    Ok VNone
  else if is_Boolean (col_type column) then
    if String.eqb value "0" then Ok (VBool false) else Ok (VBool true)
  else
    match utf8_decode value with
    | Some u => Ok (VUnicode u)
    | None => Raise UnicodeDecodeError
    end.

(** Dump direction, the body of the loop over [columns] in [dump]. *)
Definition encode_value (val : pyval) : string :=
  if py_eq val VNone then ""
  else if py_eq val (VBool true) then "1"
  else if py_eq val (VBool false) then "0"
  else utf8_encode (unicode val).

(** The values a column of the database can hold: [None] in a nullable
    column, a [bool] in a Boolean column, a text elsewhere. *)
Definition column_holds (column : Column) (v : pyval) : Prop :=
  match v with
  | VNone => nullable column = true
  | VBool _ => col_type column = Boolean
  | VUnicode u => col_type column = OtherType /\ Forall valid_code_point u
  | VInt _ => False
  end.

(** A text with each surrogate pair replaced by the code point the pair
    stands for. *)
Fixpoint join_surrogates (u : list Z) : list Z :=
  match u with
  | [] => []
  | ch :: r =>
    match r with
    | ch2 :: r' =>
      if is_high_surrogate ch && is_low_surrogate ch2
      then join_pair ch ch2 :: join_surrogates r'
      else ch :: join_surrogates r
    | [] => [ch]
    end
  end.

(** A text without a high surrogate directly followed by a low one. *)
Fixpoint no_surrogate_pair (u : list Z) : bool :=
  match u with
  | [] => true
  | ch :: r =>
    match r with
    | ch2 :: _ =>
      negb (is_high_surrogate ch && is_low_surrogate ch2)
      && no_surrogate_pair r
    | [] => true
    end
  end.

(** A value whose text, if it is one, has no surrogate pair. *)
Definition pair_free (v : pyval) : bool :=
  match v with
  | VUnicode u => no_surrogate_pair u
  | _ => true
  end.

(** The round trip of the spec: [decode(encode(v)) == v]. *)
Definition round_trips (column : Column) (v : pyval) : Prop :=
  decode_value column (encode_value v) = Ok v.


(** ** Table selection by wildcards *)

Module Wildcard.

Definition is_alnum (ch : ascii) : bool :=
  let n := Z_of_byte ch in
  ((48 <=? n) && (n <=? 57)) || ((65 <=? n) && (n <=? 90))
  || ((97 <=? n) && (n <=? 122)).

(** [re.escape(char)] of Python 2.7, for a string of one character: an
    alphanumeric character is kept, the NUL character becomes [\000], any
    other character gets a backslash. *)
Definition re_escape (ch : ascii) : string :=
  if is_alnum ch then String ch ""
  else if Ascii.eqb ch "000"%char then String "\"%char "000"
  else String "\"%char (String ch "").

Definition _wildcard_char_to_regex (char : ascii) : string :=
  if Ascii.eqb char "?"%char then ".?"
  else if Ascii.eqb char "*"%char then ".*"
  else re_escape char.

(** [ch in s] *)
Fixpoint mem_char (ch : ascii) (s : string) : bool :=
  match s with
  | EmptyString => false
  | String a r => Ascii.eqb a ch || mem_char ch r
  end.

(** The second component of [os.path.split(p)] (posixpath): what follows
    the last slash, all of [p] when it has none. *)
Fixpoint path_tail (p : string) : string :=
  match p with
  | EmptyString => EmptyString
  | String a r =>
    if mem_char "/"%char r then path_tail r
    else if Ascii.eqb a "/"%char then r else p
  end.

(** [p[:p.rfind('.')]], [None] when [p] has no dot. *)
Fixpoint before_last_dot (p : string) : option string :=
  match p with
  | EmptyString => None
  | String a r =>
    match before_last_dot r with
    | Some b => Some (String a b)
    | None => if Ascii.eqb a "."%char then Some EmptyString else None
    end
  end.

Fixpoint all_dots (s : string) : bool :=
  match s with
  | EmptyString => true
  | String a r => Ascii.eqb a "."%char && all_dots r
  end.

(** The first component of [os.path.splitext(p)] for a [p] without slash
    (as [path_tail] returns it): [p] up to its last dot, unless nothing
    but dots comes before that dot (leading dots are no extension). *)
Definition splitext_root (p : string) : string :=
  match before_last_dot p with
  | Some root => if all_dots root then p else root
  | None => p
  end.

(** The glob a selector stands for: if it looks like a filename, make it
    not one. *)
Definition glob_base (glob : string) : string :=
  if mem_char "."%char glob || mem_char "/"%char glob
  then splitext_root (path_tail glob)
  else glob.

(** [u''.join(parts)] on byte strings: each part is decoded as ASCII on
    its way into the [unicode] result, which is written here by its
    bytes. *)
Definition unicode_join (parts : list string) : result string :=
  if forallb is_ascii_string parts then Ok (String.concat "" parts)
  else Raise UnicodeDecodeError.

Definition _wildcard_glob_to_regex (glob : string) : result string :=
  unicode_join (map _wildcard_char_to_regex
                    (list_ascii_of_string (glob_base glob))).

(** The regex STRING of [_wildcards_to_regex], before [re.compile]. *)
Definition _wildcards_to_regex (strings : list string) : result string :=
  match map_result _wildcard_glob_to_regex strings with
  | Raise e => Raise e
  | Ok regex_parts => Ok ("^(?:" +:+ String.concat "|" regex_parts +:+ ")$")
  end.

(** *** The [re] module on the regexes built above

    [re.compile] is modelled on the fragment of the syntax that
    [_wildcards_to_regex] writes: [^(?:b1|...|bn)$] where a branch is a
    sequence of [.?], [.*], a plain alphanumeric character and an escaped
    character. *)
Inductive item : Type :=
  | Lit (ch : ascii)
  | AnyOpt
  | AnyStar.

Definition regex : Type := list (list item).

Fixpoint parse_branches (s : string) (cur : list item) (acc : regex)
  : option regex :=
  match s with
  | EmptyString => None
  | String a r =>
    if Ascii.eqb a ")"%char then
      match r with
      | String "$"%char EmptyString => Some (rev (rev cur :: acc))
      | _ => None
      end
    else if Ascii.eqb a "|"%char then parse_branches r [] (rev cur :: acc)
    else if Ascii.eqb a "."%char then
      match r with
      | String q r' =>
        if Ascii.eqb q "?"%char then parse_branches r' (AnyOpt :: cur) acc
        else if Ascii.eqb q "*"%char then parse_branches r' (AnyStar :: cur) acc
        else None
      | EmptyString => None
      end
    else if Ascii.eqb a "\"%char then
      match r with
      | String e r' =>
        if Ascii.eqb e "0"%char then
          match r' with
          | String "0"%char (String "0"%char r'') =>
            parse_branches r'' (Lit "000"%char :: cur) acc
          | _ => None
          end
        else if is_alnum e then None
        else parse_branches r' (Lit e :: cur) acc
      | EmptyString => None
      end
    else if is_alnum a then parse_branches r (Lit a :: cur) acc
    else None
  end.

Definition re_compile (s : string) : option regex :=
  match s with
  | String "^"%char (String "("%char (String "?"%char (String ":"%char r))) =>
    parse_branches r [] []
  | _ => None
  end.

(** [.] matches any character but a newline. *)
Definition dot_matches (ch : ascii) : bool := negb (Ascii.eqb ch "010"%char).

(** [$] matches at the end of the string and just before a newline that
    ends the string. *)
Definition at_dollar (s : string) : bool :=
  match s with
  | EmptyString => true
  | String a EmptyString => Ascii.eqb a "010"%char
  | _ => false
  end.

Fixpoint match_items (items : list item) (s : string) : bool :=
  match items with
  | [] => at_dollar s
  | Lit ch :: rest =>
    match s with
    | String a s' => Ascii.eqb a ch && match_items rest s'
    | EmptyString => false
    end
  | AnyOpt :: rest =>
    match s with
    | String a s' => (dot_matches a && match_items rest s') || match_items rest s
    | EmptyString => match_items rest s
    end
  | AnyStar :: rest =>
    (fix star (s : string) : bool :=
       match s with
       | String a s' => (dot_matches a && star s') || match_items rest s
       | EmptyString => match_items rest s
       end) s
  end.

(** [regex.match(name)] is a match object or [None]; [filter] keeps the
    names with a match. *)
Definition re_match (re : regex) (name : string) : bool :=
  existsb (fun branch => match_items branch name) re.

(** [filter(regex.match, metadata.tables.keys())] after
    [regex = _wildcards_to_regex(tables)]; [ReError] stands for a regex
    outside the fragment. *)
Definition filter_names (tables : list string) (keys : list string)
  : result (list string) :=
  match _wildcards_to_regex tables with
  | Raise e => Raise e
  | Ok regex_string =>
    match re_compile regex_string with
    | Some re => Ok (List.filter (re_match re) keys)
    | None => Raise ReError
    end
  end.

(** *** Matching a glob, as the spec words it

    [*] is any run of characters, [?] is at most one character, any
    other character is itself. *)
Inductive glob_matches : string -> string -> Prop :=
  | gm_end : glob_matches EmptyString EmptyString
  | gm_star_none p s :
      glob_matches p s -> glob_matches (String "*"%char p) s
  | gm_star_more p a s :
      glob_matches (String "*"%char p) s -> glob_matches (String "*"%char p) (String a s)
  | gm_opt_none p s :
      glob_matches p s -> glob_matches (String "?"%char p) s
  | gm_opt_one p a s :
      glob_matches p s -> glob_matches (String "?"%char p) (String a s)
  | gm_lit ch p s :
      ch <> "*"%char -> ch <> "?"%char ->
      glob_matches p s -> glob_matches (String ch p) (String ch s).

(** The branch a glob is compiled to. *)
Definition item_of_char (char : ascii) : item :=
  if Ascii.eqb char "?"%char then AnyOpt
  else if Ascii.eqb char "*"%char then AnyStar
  else Lit char.

Fixpoint items_of_glob (glob : string) : list item :=
  match glob with
  | EmptyString => []
  | String char rest => item_of_char char :: items_of_glob rest
  end.

(** A name without line break, as the names of tables are. *)
Definition no_newline (s : string) : Prop := mem_char "010"%char s = false.

(** The selectors whose globs are ASCII, byte for byte. *)
Definition ascii_globs (tables : list string) : bool :=
  forallb (fun glob => is_ascii_string (glob_base glob)) tables.

End Wildcard.

(** ** The world of [load] and [dump] *)

(** A row, the dictionary [row_data]. *)
Abbreviation row := (gmap string pyval).

(** A CSV file as [csv.reader] yields it and [csv.writer] takes it: a
    list of lines, each a list of fields. *)
Abbreviation csvfile := (list (list string)).

(** What the code asks of the outside, in order of the calls. *)
Inductive event : Type :=
  | EPrintStart (text : string)
      (* print "%s...%s" % (truncated_thing, ' ' * num_spaces), *)
  | EPrintDone (msg : string)              (* print msg *)
  | EDrop (table : string)                 (* table.drop(checkfirst=True) *)
  | ECreate (table : string)               (* table.create() *)
  | EExecuteMany (table : string) (rows : list row)
      (* session.connection().execute(insert_stmt, new_rows) *)
  | EExecuteOne (table : string) (row_data : row)
      (* session.connection().execute(insert_stmt.values( **row_data)) *)
  | ECommit.                               (* session.commit() *)

Record state : Type := {
  new_rows : list row;                     (* the batch being filled *)
  seen_ids : list pyval;                   (* keys of the dictionary seen_ids *)
  deferred_rows : list (row * list pyval);
  trace : list event;
  files : gmap string csvfile              (* the files, by path *)
}.

Definition initial_state (fs : gmap string csvfile) : state :=
  {| new_rows := []; seen_ids := []; deferred_rows := [];
     trace := []; files := fs |}.

(** A computation changes the state and returns a value or raises; the
    state changes made before an exception stay. *)
Definition M (A : Type) : Type := state -> result A * state.

#[global] Instance M_ret : MRet M := fun A a st => (Ok a, st).
#[global] Instance M_bind : MBind M := fun A B f m st =>
  match m st with
  | (Ok a, st') => f a st'
  | (Raise e, st') => (Raise e, st')
  end.

Definition raise {A : Type} (e : exn) : M A := fun st => (Raise e, st).
Definition lift {A : Type} (r : result A) : M A := fun st => (r, st).
Definition get : M state := fun st => (Ok st, st).
Definition emit (e : event) : M unit := fun st =>
  (Ok tt, {| new_rows := new_rows st; seen_ids := seen_ids st;
             deferred_rows := deferred_rows st;
             trace := trace st ++ [e]; files := files st |}).

(** The state after some more events. *)
Definition with_events (st : state) (evs : list event) : state :=
  {| new_rows := new_rows st; seen_ids := seen_ids st;
     deferred_rows := deferred_rows st;
     trace := trace st ++ evs; files := files st |}.

(** [for x in l: body(x)] *)
Fixpoint for_each {A : Type} (body : A -> M unit) (l : list A) : M unit :=
  match l with
  | [] => mret tt
  | x :: rest => body x ;; for_each body rest
  end.

(** Every run of [m] from a state with [P] ends, with a value or an
    exception, in a state with [Q]. *)
Definition hoare {A : Type} (P : state -> Prop) (m : M A)
  (Q : state -> Prop) : Prop :=
  forall st, P st -> Q (m st).2.

(** Every run of [m] from a state with [P] that returns ends in a state
    with [Q]. *)
Definition hoare_ok {A : Type} (P : state -> Prop) (m : M A)
  (Q : state -> Prop) : Prop :=
  forall st a st', P st -> m st = (Ok a, st') -> Q st'.

(** ** Verbose prints *)

Fixpoint spaces (n : nat) : string :=
  match n with O => "" | S k => String " "%char (spaces k) end.

Definition print_start_text (thing : string) : string :=
  (* Truncate to 66 characters, leaving 10 characters for a success or
     failure message; space-pad to keep the cursor in a known column *)
  let truncated_thing := substring 0 66 thing in
  let num_spaces := (66 - String.length truncated_thing)%nat in
  truncated_thing +:+ "..." +:+ spaces num_spaces.

(** [_get_verbose_prints(verbose)]: the pair [print_start, print_done],
    two no-op functions when [verbose] is false. *)
Definition _get_verbose_prints (verbose : bool)
  : (string -> M unit) * (string -> M unit) :=
  if verbose then
    (fun thing => emit (EPrintStart (print_start_text thing)),
     fun msg => emit (EPrintDone msg))
  else
    (fun _ => mret tt, fun _ => mret tt).

(** ** The tables of the schema and their selection *)

Section Metadata.

(** [metadata.tables], a dictionary from name to table, by the list of
    its values in the order of [keys()]. *)
Variable metadata_tables : list Table.

Definition metadata_keys : list string := map name metadata_tables.

(** [metadata.tables[name]] *)
Definition metadata_getitem (table_name : string) : result Table :=
  match find (fun t => String.eqb (name t) table_name) metadata_tables with
  | Some t => Ok t
  | None => Raise (KeyError table_name)
  end.

(** The names selected by [tables]: all of them for an empty list. *)
Definition select_names (tables : list string) : result (list string) :=
  match tables with
  | [] => Ok metadata_keys
  | _ => Wildcard.filter_names tables metadata_keys
  end.

(** [if not directory: directory = pkg_resources.resource_filename(...)] *)
Definition directory_or_default (default_directory : string)
  (directory : option string) : string :=
  match directory with
  | None => default_directory
  | Some d => if String.eqb d "" then default_directory else d
  end.

Definition csv_path (directory table_name : string) : string :=
  directory +:+ "/" +:+ table_name +:+ ".csv".

End Metadata.

(** ** [load] *)

Module Loader.

(** The threshold of [if len(new_rows) >= 1000]. *)
Definition batch_size : nat := 1000.

(** [unicode(column)] on a byte string decodes it as ASCII. *)
Definition unicode_of_str (s : string) : result string :=
  if is_ascii_string s then Ok s else Raise UnicodeDecodeError.

(** [row_data[key]] *)
Definition getitem (row_data : row) (key : string) : result pyval :=
  match row_data !! key with
  | Some v => Ok v
  | None => Raise (KeyError key)
  end.

(** The columns with a foreign key that points at the table itself. *)
Definition self_ref_columns_of (table_obj : Table) : list Column :=
  List.filter
    (fun column => existsb (fun fk => references fk table_obj)
                           (foreign_keys column))
    (c table_obj).

(** The loop over [zip(column_names, csvs)] that fills [row_data]. *)
Fixpoint fill_row (table_obj : Table) (pairs : list (string * string))
  (row_data : row) : result row :=
  match pairs with
  | [] => Ok row_data
  | (column_name, value) :: rest =>
    match lookup_column table_obj column_name with
    | None => Raise (KeyError column_name)
    | Some column =>
      match decode_value column value with
      | Raise e => Raise e
      | Ok v => fill_row table_obj rest (<[column_name := v]> row_data)
      end
    end
  end.

(** [row_data = {}] and the loop: the record of one line. *)
Definition build_row (table_obj : Table) (column_names csvs : list string)
  : result row :=
  fill_row table_obj (zip column_names csvs) ∅.

(** [foreign_ids], with the NULL ids removed by [if _]. *)
Definition foreign_ids_of (self_ref_columns : list Column) (row_data : row)
  : result (list pyval) :=
  match map_result (fun column => getitem row_data (col_name column))
                   self_ref_columns with
  | Raise e => Raise e
  | Ok foreign_ids => Ok (List.filter is_truthy foreign_ids)
  end.

Definition all_seen (seen : list pyval) (foreign_ids : list pyval) : bool :=
  forallb (fun v => py_in v seen) foreign_ids.

Definition insert_and_commit (table_name : string) : M unit := fun st =>
  (Ok tt, {| new_rows := [];
             seen_ids := seen_ids st;
             deferred_rows := deferred_rows st;
             trace := trace st ++ [EExecuteMany table_name (new_rows st);
                                   ECommit];
             files := files st |}).

(** The keys of [seen_ids] after [seen_ids[key] = 1]. *)
Definition add_seen (key : pyval) (seen : list pyval) : list pyval :=
  if py_in key seen then seen else (seen ++ [key])%list.

(** [seen_ids[row_data['id']] = 1] *)
Definition mark_seen (row_data : row) : M unit := fun st =>
  match getitem row_data "id" with
  | Raise e => (Raise e, st)
  | Ok key =>
    (Ok tt, {| new_rows := new_rows st;
               seen_ids := add_seen key (seen_ids st);
               deferred_rows := deferred_rows st;
               trace := trace st; files := files st |})
  end.

(** [deferred_rows.append((row_data, foreign_ids))] *)
Definition defer (row_data : row) (foreign_ids : list pyval) : M unit :=
  fun st =>
  (Ok tt, {| new_rows := new_rows st; seen_ids := seen_ids st;
             deferred_rows := deferred_rows st ++ [(row_data, foreign_ids)];
             trace := trace st; files := files st |}).

(** [new_rows.append(row_data)] *)
Definition append_row (row_data : row) : M unit := fun st =>
  (Ok tt, {| new_rows := new_rows st ++ [row_data]; seen_ids := seen_ids st;
             deferred_rows := deferred_rows st;
             trace := trace st; files := files st |}).

(** The three ways of a row of a self-referential table; [true] when the
    row goes on to be inserted, [false] for [continue]. *)
Definition resolve (table_name : string) (self_ref_columns : list Column)
  (row_data : row) : M bool :=
  foreign_ids ← lift (foreign_ids_of self_ref_columns row_data);
  st ← get;
  match foreign_ids with
  | [] =>
    (* NULL key.  Remember this row and add as usual. *)
    mark_seen row_data ;; mret true
  | _ =>
    if all_seen (seen_ids st) foreign_ids then
      (* Non-NULL key we've already seen.  Remember it and commit so we
         know the old row exists when we add the new one *)
      insert_and_commit table_name ;;
      mark_seen row_data ;; mret true
    else
      (* Non-NULL future id.  Save this and insert it later! *)
      defer row_data foreign_ids ;; mret false
  end.

(** [new_rows.append(row_data)] and the commit every 1000 rows. *)
Definition enqueue (table_name : string) (row_data : row) : M unit :=
  append_row row_data ;;
  st ← get;
  if (batch_size <=? length (new_rows st))%nat
  then insert_and_commit table_name
  else mret tt.

(** What the loop does with the [row_data] of a line: it may stash the
    row and add it later if it refers to a later row in this table, or
    insert it. *)
Definition handle_row (table_name : string) (self_ref_columns : list Column)
  (row_data : row) : M unit :=
  go_on ← match self_ref_columns with
          | [] => mret true
          | _ => resolve table_name self_ref_columns row_data
          end;
  if go_on : bool then enqueue table_name row_data else mret tt.

(** The body of [for csvs in reader]. *)
Definition process_row (table_obj : Table) (column_names : list string)
  (self_ref_columns : list Column) (csvs : list string) : M unit :=
  row_data ← lift (build_row table_obj column_names csvs);
  handle_row (name table_obj) self_ref_columns row_data.

(** The name [row] is bound neither in [load] nor in the module (the
    loop variable is [row_data]): evaluating it raises [NameError]. *)
Definition eval_name_row : M string := raise (NameError "row").

(** The body of [for row_data, foreign_ids in deferred_rows]. *)
Definition replay (table_name : string) (deferred : row * list pyval)
  : M unit :=
  let '(row_data, foreign_ids) := deferred in
  st ← get;
  (if negb (all_seen (seen_ids st) foreign_ids) then
     (* the argument of ValueError is evaluated first: str(row) *)
     row_text ← eval_name_row;
     raise (ValueError ("Too many levels of self-reference!  Row was: "
                        +:+ row_text))
   else mret tt) ;;
  emit (EExecuteOne table_name row_data) ;;
  mark_seen row_data.

(** The fresh [deferred_rows], [seen_ids] and [new_rows] of a table. *)
Definition reset_table_state : M unit := fun st =>
  (Ok tt, {| new_rows := []; seen_ids := []; deferred_rows := [];
             trace := trace st; files := files st |}).

(** The body of [for table_obj in table_objs]. *)
Definition load_table (print_start print_done : string -> M unit)
  (directory : string) (table_obj : Table) : M unit :=
  let table_name := name table_obj in
  print_start table_name ;;
  st ← get;
  match files st !! csv_path directory table_name with
  | None =>
    (* File doesn't exist; don't load anything! *)
    print_done "missing?"
  | Some csvfile =>
    match csvfile with
    | [] => raise StopIteration              (* reader.next() *)
    | header :: lines =>
      column_names ← lift (map_result unicode_of_str header);
      reset_table_state ;;
      for_each (process_row table_obj column_names
                            (self_ref_columns_of table_obj)) lines ;;
      insert_and_commit table_name ;;
      (* Attempt to add any spare rows we've collected *)
      st ← get;
      for_each (replay table_name) (deferred_rows st) ;;
      emit ECommit ;;
      print_done "ok"
    end
  end.

Section Load.

Variable metadata_tables : list Table.

(** [sqlalchemy.sql.util.sort_tables] *)
Variable sort_tables : list Table -> list Table.

(** [pkg_resources.resource_filename('pokedex', 'data/csv')] *)
Variable default_directory : string.

Definition load (tables : list string) (directory : option string)
  (drop_tables verbose : bool) : M unit :=
  (* First take care of verbosity *)
  let '(print_start, print_done) := _get_verbose_prints verbose in
  let directory := directory_or_default default_directory directory in
  table_names ← lift (select_names metadata_tables tables);
  table_objs ← lift (map_result (metadata_getitem metadata_tables)
                                table_names);
  let table_objs := sort_tables table_objs in
  (* Drop all tables if requested *)
  (if drop_tables then
     print_start "Dropping tables" ;;
     for_each (fun table => emit (EDrop (name table))) (rev table_objs) ;;
     print_done "ok"
   else mret tt) ;;
  for_each (fun table => emit (ECreate (name table))) table_objs ;;
  (* Okay, run through the tables and actually load the data now *)
  for_each (load_table print_start print_done directory) table_objs.

End Load.

End Loader.

(** ** [dump] *)

Module Dumper.

(** [list.sort()] and the ORDER BY of a query: the sorted arrangement of
    a list under a total order, built by insertion. *)
Fixpoint insert_by {A : Type} (le : A -> A -> bool) (x : A) (l : list A)
  : list A :=
  match l with
  | [] => [x]
  | y :: rest => if le x y then x :: l else y :: insert_by le x rest
  end.

Fixpoint sort_by {A : Type} (le : A -> A -> bool) (l : list A) : list A :=
  match l with
  | [] => []
  | x :: rest => insert_by le x (sort_by le rest)
  end.

(** [getattr(row, col)] *)
Definition getattr (r : row) (col : string) : result pyval :=
  match r !! col with
  | Some val => Ok val
  | None => Raise (AttributeError col)
  end.

(** The list [csvs] of a row. *)
Definition encode_row (columns : list string) (r : row)
  : result (list string) :=
  map_result (fun col => match getattr r col with
                         | Ok val => Ok (encode_value val)
                         | Raise e => Raise e
                         end) columns.

(** [open(path, 'wb')]: the file is created or emptied. *)
Definition open_write (path : string) : M unit := fun st =>
  (Ok tt, {| new_rows := new_rows st; seen_ids := seen_ids st;
             deferred_rows := deferred_rows st; trace := trace st;
             files := <[path := []]> (files st) |}).

(** [writer.writerow(fields)] on the writer of [path]. *)
Definition writerow (path : string) (fields : list string) : M unit :=
  fun st =>
  (Ok tt, {| new_rows := new_rows st; seen_ids := seen_ids st;
             deferred_rows := deferred_rows st; trace := trace st;
             files := <[path := (default [] (files st !! path) ++ [fields])%list]>
                        (files st) |}).

Section Dump.

Variable metadata_tables : list Table.
Variable default_directory : string.

(** The rows the database holds for a table, and the order of its
    ORDER BY on the given key columns. *)
Variable table_rows : string -> list row.
Variable key_le : list string -> row -> row -> bool.

(** [session.query(table).order_by( *primary_key).all()] *)
Definition query_ordered (table : Table) : list row :=
  sort_by (key_le (primary_key table)) (table_rows (name table)).

(** The body of [for table_name in table_names]. *)
Definition dump_table (print_start print_done : string -> M unit)
  (directory : string) (table_name : string) : M unit :=
  print_start table_name ;;
  table ← lift (metadata_getitem metadata_tables table_name);
  let path := csv_path directory table_name in
  open_write path ;;
  let columns := map col_name (c table) in
  writerow path columns ;;
  for_each (fun r =>
              (* Convert Pythony values to something more universal *)
              csvs ← lift (encode_row columns r);
              writerow path csvs)
           (query_ordered table) ;;
  print_done "ok".

Definition dump (tables : list string) (directory : option string)
  (verbose : bool) : M unit :=
  (* First take care of verbosity *)
  let '(print_start, print_done) := _get_verbose_prints verbose in
  let directory := directory_or_default default_directory directory in
  table_names ← lift (select_names metadata_tables tables);
  let table_names := sort_by String.leb table_names in
  for_each (dump_table print_start print_done directory) table_names.

(** *** What the dump writes, as the spec words it *)

(** One line of a row: each value through the dump direction of the
    codec, in the order of the columns. *)
Definition encoded_line (columns : list string) (r : row) : list string :=
  map (fun col => encode_value (default VNone (r !! col))) columns.

(** The file of a table: the header line of the column names, then one
    line per row in the order of the primary key. *)
Definition table_file (table : Table) : csvfile :=
  let columns := map col_name (c table) in
  columns :: map (encoded_line columns) (query_ordered table).

(** The files after each table of the list, in turn, was written. *)
Definition dumped_files (directory : string) (tables : list Table)
  (fs : gmap string csvfile) : gmap string csvfile :=
  foldl (fun fs table => <[csv_path directory (name table)
                           := table_file table]> fs) fs tables.

(** A row of the database has a value for every column of its table. *)
Definition rows_well_formed : Prop :=
  forall table r column,
    In table metadata_tables -> In r (table_rows (name table)) ->
    In column (c table) -> is_Some (r !! col_name column).


End Dump.

(** What the dump prints for a table it goes through, from its start
    marker to its status, and for the tables of a list in turn. *)
Definition table_prints (verbose : bool) (table_name : string) : list event :=
  if verbose
  then [EPrintStart (print_start_text table_name); EPrintDone "ok"]
  else [].

Definition dump_prints (verbose : bool) (table_names : list string)
  : list event :=
  concat (map (table_prints verbose) table_names).

(** A database of the scenario: the rows of [nodes], not in key order,
    compared by the number in the key column. *)
Definition int_row (id : Z) (parent : pyval) : row :=
  {[ "id" := VInt id; "parent" := parent ]}.

Definition scenario_rows (table_name : string) : list row :=
  if String.eqb table_name "nodes"
  then [int_row 2 (VInt 1); int_row 1 VNone; int_row 3 (VInt 1)]
  else [].

Definition int_key_le (key : list string) (r1 r2 : row) : bool :=
  match key with
  | [] => true
  | column :: _ =>
    match r1 !! column, r2 !! column with
    | Some (VInt a), Some (VInt b) => a <=? b
    | Some (VInt _), _ => true
    | _, Some (VInt _) => false
    | _, _ => true
    end
  end.

End Dumper.

(** ** Reading a trace *)

Module Trace.

(** The sizes of the bulk inserts, in order. *)
Definition flush_sizes (tr : list event) : list nat :=
  omap (fun e => match e with
                 | EExecuteMany _ rows => Some (length rows)
                 | _ => None
                 end) tr.

(** The rows of the bulk inserts, in order. *)
Definition flushed_rows (tr : list event) : list row :=
  mjoin (omap (fun e => match e with
                        | EExecuteMany _ rows => Some rows
                        | _ => None
                        end) tr).

(** All the rows sent to [execute], whether in bulk or one by one. *)
Definition inserted_rows (tr : list event) : list row :=
  mjoin (omap (fun e => match e with
                        | EExecuteMany _ rows => Some rows
                        | EExecuteOne _ row_data => Some [row_data]
                        | _ => None
                        end) tr).

Definition dropped (tr : list event) : list string :=
  omap (fun e => match e with EDrop t => Some t | _ => None end) tr.

Definition created (tr : list event) : list string :=
  omap (fun e => match e with ECreate t => Some t | _ => None end) tr.

Definition printed (tr : list event) : list event :=
  List.filter (fun e => match e with
                        | EPrintStart _ | EPrintDone _ => true
                        | _ => false
                        end) tr.

(** The rows a commit has made durable: those executed before the last
    [session.commit()]. *)
Fixpoint committed_from (tr : list event) (pending committed : list row)
  : list row :=
  match tr with
  | [] => committed
  | EExecuteMany _ rows :: rest =>
    committed_from rest (pending ++ rows)%list committed
  | EExecuteOne _ row_data :: rest =>
    committed_from rest (pending ++ [row_data])%list committed
  | ECommit :: rest => committed_from rest [] (committed ++ pending)%list
  | _ :: rest => committed_from rest pending committed
  end.

Definition committed_rows (tr : list event) : list row :=
  committed_from tr [] [].

End Trace.

(** ** The resolver as the spec words it *)

Module ResolverSpec.

Import Loader.

(** The spec builds the dependency set from the non-null values. *)
Definition is_non_null (v : pyval) : bool :=
  match v with VNone => false | _ => true end.

Definition non_null_ids_of (self_ref_columns : list Column) (row_data : row)
  : result (list pyval) :=
  match map_result (fun column => getitem row_data (col_name column))
                   self_ref_columns with
  | Raise e => Raise e
  | Ok values => Ok (List.filter is_non_null values)
  end.

(** First action: the key is marked seen and the record joins the
    current batch, which is flushed as a whole when that fills it. *)
Definition enqueued_in_batch (table_name : string) (batch : list row)
  (st st' : state) : Prop :=
  if (batch_size <=? length batch)%nat
  then new_rows st' = []
       /\ trace st' = (trace st ++ [EExecuteMany table_name batch; ECommit])%list
  else new_rows st' = batch /\ trace st' = trace st.

Definition marked_and_enqueued (table_name : string) (key : pyval)
  (row_data : row) (st st' : state) : Prop :=
  seen_ids st' = add_seen key (seen_ids st)
  /\ deferred_rows st' = deferred_rows st
  /\ enqueued_in_batch table_name (new_rows st ++ [row_data])%list st st'.

(** Second action: the current batch is flushed and committed first, then
    the key is marked seen and the record starts a new batch. *)
Definition flushed_then_enqueued (table_name : string) (key : pyval)
  (row_data : row) (st st' : state) : Prop :=
  seen_ids st' = add_seen key (seen_ids st)
  /\ deferred_rows st' = deferred_rows st
  /\ trace st'
     = (trace st ++ [EExecuteMany table_name (new_rows st); ECommit])%list
  /\ new_rows st' = [row_data].

(** Third action: the record is held back with its key set. *)
Definition held_back (ids : list pyval) (row_data : row) (st st' : state)
  : Prop :=
  deferred_rows st' = (deferred_rows st ++ [(row_data, ids)])%list
  /\ seen_ids st' = seen_ids st
  /\ new_rows st' = new_rows st
  /\ trace st' = trace st.

End ResolverSpec.

(** ** Tables and files of the scenarios *)

Module Scenario.

Definition id_column : Column :=
  {| col_name := "id"; nullable := false; col_type := OtherType;
     foreign_keys := [] |}.

(** A nullable parent column that points at the table itself. *)
Definition parent_column : Column :=
  {| col_name := "parent"; nullable := true; col_type := OtherType;
     foreign_keys := ["nodes"] |}.

Definition nodes : Table :=
  {| name := "nodes"; c := [id_column; parent_column];
     primary_key := ["id"] |}.

(** The same table with a parent column that is not nullable. *)
Definition strict_parent_column : Column :=
  {| col_name := "parent"; nullable := false; col_type := OtherType;
     foreign_keys := ["nodes"] |}.

Definition strict_nodes : Table :=
  {| name := "nodes"; c := [id_column; strict_parent_column];
     primary_key := ["id"] |}.

Definition flag_column : Column :=
  {| col_name := "flag"; nullable := false; col_type := Boolean;
     foreign_keys := [] |}.

Definition label_column : Column :=
  {| col_name := "label"; nullable := true; col_type := OtherType;
     foreign_keys := [] |}.

(** A table without self-reference. *)
Definition items : Table :=
  {| name := "items"; c := [id_column; label_column; flag_column];
     primary_key := ["id"] |}.

(** The rows [{id:1, parent:null}, {id:2, parent:1}, {id:3, parent:5}]. *)
Definition nodes_csv : csvfile :=
  [["id"; "parent"]; ["1"; ""]; ["2"; "1"]; ["3"; "5"]].

Definition nodes_files : gmap string csvfile :=
  {[ "data/nodes.csv" := nodes_csv ]}.

(** The rows [{id:2, parent:1}, {id:1, parent:null}], in file order. *)
Definition forward_csv : csvfile :=
  [["id"; "parent"]; ["2"; "1"]; ["1"; ""]].

Definition forward_files : gmap string csvfile :=
  {[ "data/nodes.csv" := forward_csv ]}.

Definition text (s : string) : pyval := VUnicode (bytes_of_string s).

Definition node_row (id : string) (parent : pyval) : row :=
  {[ "id" := text id; "parent" := parent ]}.

(** A schema of two tables. *)
Definition schema : list Table := [nodes; items].

(** A file of 2500 lines for the table without self-reference. *)
Definition items_header : list string := ["id"; "label"; "flag"].

Definition items_lines : csvfile := repeat ["7"; "x"; "1"] 2500.

Definition items_row : row :=
  {[ "id" := text "7"; "label" := text "x"; "flag" := VBool true ]}.

Definition items_files : gmap string csvfile :=
  {[ "data/items.csv" := items_header :: items_lines ]}.

End Scenario.

(** ** The batches of a plain load, counted *)

Module BatchSpec.

Import Loader.

(** With [buffered] records in the buffer, [n] more records arrive one by
    one and the buffer is flushed whenever it reaches the threshold: the
    sizes of the flushes and what stays in the buffer. *)
Fixpoint batches (buffered n : nat) : list nat * nat :=
  match n with
  | O => ([], buffered)
  | S n' =>
    if (batch_size <=? S buffered)%nat
    then let '(sizes, remaining) := batches 0 n' in
         (S buffered :: sizes, remaining)
    else batches (S buffered) n'
  end.

(** The final flush takes what is left. *)
Definition flushes_of_load (n : nat) : list nat :=
  let '(sizes, remaining) := batches 0 n in (sizes ++ [remaining])%list.

(** No bulk insert of the trace was larger than the threshold. *)
Definition flushes_bounded (st : state) : Prop :=
  Forall (fun n => (n <= batch_size)%nat) (Trace.flush_sizes (trace st)).

(** Moreover the buffer is below the threshold. *)
Definition bounded (st : state) : Prop :=
  (length (new_rows st) < batch_size)%nat /\ flushes_bounded st.

End BatchSpec.

(** ** The events of the drop and create phase of [load] *)

Module OrderSpec.

(** What [load] asks before it reads the first file, for the sorted
    tables [order]. *)
Definition schema_events (drop_tables verbose : bool) (order : list Table)
  : list event :=
  ((if drop_tables then
      (if verbose then [EPrintStart (print_start_text "Dropping tables")]
       else [])
      ++ map (fun table => EDrop (name table)) (rev order)
      ++ (if verbose then [EPrintDone "ok"] else [])
    else [])
   ++ map (fun table => ECreate (name table)) order)%list.

End OrderSpec.

From stdpp Require Import sorting.

Local Open Scope string_scope.
Local Open Scope Z_scope.

(** ** What a run adds to the trace and to the files *)

Module Effects.

(** The trace of [st] is [tr0] followed by events that all satisfy
    [allowed]. *)
Definition grows_by (allowed : event -> Prop) (tr0 : list event)
  (st : state) : Prop :=
  exists evs, trace st = (tr0 ++ evs)%list /\ Forall allowed evs.

(** The events a [load] of the tables [names] may issue: a print in
    verbose mode only, a drop only when dropping was asked for, and no
    drop, create or insert on a table outside [names]. *)
Definition load_event (names : list string) (drop_tables verbose : bool)
  (e : event) : Prop :=
  match e with
  | EPrintStart _ | EPrintDone _ => verbose = true
  | EDrop t => drop_tables = true /\ In t names
  | ECreate t | EExecuteMany t _ | EExecuteOne t _ => In t names
  | ECommit => True
  end.

(** The events a [dump] may issue: prints, in verbose mode only. *)
Definition dump_event (verbose : bool) (e : event) : Prop :=
  match e with
  | EPrintStart _ | EPrintDone _ => verbose = true
  | _ => False
  end.

End Effects.

(** ** Rows waiting for a commit *)

Module Durable.

(** The rows executed since the last [session.commit()]. *)
Fixpoint pending_from (tr : list event) (pending : list row) : list row :=
  match tr with
  | [] => pending
  | EExecuteMany _ rows :: rest => pending_from rest (pending ++ rows)%list
  | EExecuteOne _ row_data :: rest =>
    pending_from rest (pending ++ [row_data])%list
  | ECommit :: rest => pending_from rest []
  | _ :: rest => pending_from rest pending
  end.

Definition pending_rows (tr : list event) : list row := pending_from tr [].

End Durable.

(** ** The replay pass, as a function of the keys seen *)

Module ReplaySpec.

Import Loader.

(** The keys seen after the deferred records were replayed in order, each
    against the keys seen before it, the keys of the records replayed
    before it included; [None] when one of them cannot be replayed. *)
Fixpoint replay_seen (seen : list pyval) (deferred : list (row * list pyval))
  : option (list pyval) :=
  match deferred with
  | [] => Some seen
  | (row_data, ids) :: rest =>
    if all_seen seen ids then
      match row_data !! "id" with
      | Some key => replay_seen (add_seen key seen) rest
      | None => None
      end
    else None
  end.

(** The single inserts of a list of deferred records. *)
Definition replay_events (table_name : string)
  (deferred : list (row * list pyval)) : list event :=
  map (fun d => EExecuteOne table_name d.1) deferred.

End ReplaySpec.

(** ** References and the order of the inserts *)

Module RefSpec.

Import Loader.

(** The record [r] has the key [key]. *)
Definition has_key (key : pyval) (r : row) : Prop :=
  exists k, r !! "id" = Some k /\ py_eq key k = true.

(** Every self-reference of [r] points at a record of [before]. *)
Definition refs_among (self_ref_columns : list Column) (before : list row)
  (r : row) : Prop :=
  forall ids v,
    foreign_ids_of self_ref_columns r = Ok ids -> In v ids ->
    exists r', In r' before /\ has_key v r'.

(** Every insert statement of the events, bulk or single, holds only
    records whose self-references point at records of [before] or of an
    earlier statement. *)
Fixpoint statements_ordered (self_ref_columns : list Column)
  (before : list row) (evs : list event) : Prop :=
  match evs with
  | [] => True
  | EExecuteMany _ rows :: rest =>
    Forall (refs_among self_ref_columns before) rows
    /\ statements_ordered self_ref_columns (before ++ rows)%list rest
  | EExecuteOne _ row_data :: rest =>
    refs_among self_ref_columns before row_data
    /\ statements_ordered self_ref_columns (before ++ [row_data])%list rest
  | _ :: rest => statements_ordered self_ref_columns before rest
  end.

(** The trace since [tr0] is ordered. *)
Definition ordered_since (self_ref_columns : list Column)
  (tr0 : list event) (st : state) : Prop :=
  exists evs,
    trace st = (tr0 ++ evs)%list
    /\ statements_ordered self_ref_columns [] evs.

(** The invariant of the load of one table: the trace since [tr0] is
    ordered, the buffered records refer to inserted records only, every
    key seen is the key of an inserted or buffered record, and a deferred
    record is kept with the list of its references. *)
Definition resolver_invariant (self_ref_columns : list Column)
  (tr0 : list event) (st : state) : Prop :=
  exists evs,
    trace st = (tr0 ++ evs)%list
    /\ statements_ordered self_ref_columns [] evs
    /\ Forall (refs_among self_ref_columns (Trace.inserted_rows evs))
              (new_rows st)
    /\ (forall k, In k (seen_ids st) ->
          exists r, In r (Trace.inserted_rows evs ++ new_rows st)%list
                    /\ r !! "id" = Some k)
    /\ Forall (fun d => foreign_ids_of self_ref_columns d.1 = Ok d.2)
              (deferred_rows st).

End RefSpec.

(** ** The records in flight *)

Module Pool.

(** The records a load holds or has sent: those executed, those in the
    buffer and those deferred. *)
Definition pool (st : state) : list row :=
  (Trace.inserted_rows (trace st) ++ new_rows st
   ++ map fst (deferred_rows st))%list.

End Pool.

(** * Properties *)

(** ** Lemmas on the codec *)

Section Utf8.

Lemma Z_of_byte_of_Z z : 0 <= z < 256 -> Z_of_byte (byte_of_Z z) = z.
Proof.
  intros Hz. unfold Z_of_byte, byte_of_Z.
  rewrite N_ascii_embedding; [lia|]. lia.
Qed.

Lemma bytes_of_string_of_bytes l :
  Forall (fun b => 0 <= b < 256) l -> bytes_of_string (string_of_bytes l) = l.
Proof.
  induction 1 as [|b l Hb _ IH]; simpl; [done|].
  by rewrite Z_of_byte_of_Z, IH.
Qed.

Lemma utf8_encode_char_bytes c :
  valid_code_point c -> Forall (fun b => 0 <= b < 256) (utf8_encode_char c).
Proof.
  unfold valid_code_point, utf8_encode_char. intros Hc.
  repeat case_match; repeat constructor;
    repeat match goal with H : (_ <? _) = _ |- _ => first [apply Z.ltb_lt in H | apply Z.ltb_ge in H] end;
    Z.div_mod_to_equations; lia.
Qed.

Ltac ltb_solve :=
  repeat match goal with
  | |- context [?a <? ?b] =>
      let H := fresh in
      destruct (Z.ltb_spec a b) as [H|H];
      [try (exfalso; Z.div_mod_to_equations; lia)
      |try (exfalso; Z.div_mod_to_equations; lia)]
  | |- context [?a <=? ?b] =>
      let H := fresh in
      destruct (Z.leb_spec a b) as [H|H];
      [try (exfalso; Z.div_mod_to_equations; lia)
      |try (exfalso; Z.div_mod_to_equations; lia)]
  end.

Lemma utf8_decode_encode_char c rest :
  valid_code_point c ->
  utf8_decode_bytes (utf8_encode_char c ++ rest)
  = cons c <$> utf8_decode_bytes rest.
Proof.
  unfold valid_code_point, utf8_encode_char. intros Hc.
  destruct (Z.ltb_spec c 0x80) as [H1|H1].
  { simpl. destruct (Z.ltb_spec c 0x80); [done|lia]. }
  destruct (Z.ltb_spec c 0x800) as [H2|H2].
  { cbn [app utf8_decode_bytes]. unfold is_cont. ltb_solve. simpl.
    f_equal. f_equal. Z.div_mod_to_equations; lia. }
  destruct (Z.ltb_spec c 0x10000) as [H3|H3].
  { cbn [app utf8_decode_bytes]. unfold is_cont. cbv zeta. ltb_solve. simpl.
    f_equal. f_equal. Z.div_mod_to_equations; lia. }
  cbn [app utf8_decode_bytes]. unfold is_cont. cbv zeta. ltb_solve. simpl.
  f_equal. f_equal. Z.div_mod_to_equations; lia.
Qed.

Lemma utf8_decode_encode_chars u :
  Forall valid_code_point u ->
  utf8_decode_bytes (concat (map utf8_encode_char u)) = Some u
  /\ Forall (fun b => 0 <= b < 256) (concat (map utf8_encode_char u)).
Proof.
  intros Hu. split.
  - induction Hu as [|c u Hc _ IH]; simpl; [done|].
    by rewrite utf8_decode_encode_char, IH.
  - induction Hu as [|c u Hc _ IH]; simpl; [constructor|].
    apply Forall_app. split; [by apply utf8_encode_char_bytes | done].
Qed.

(** *** Surrogate pairs *)

Lemma pairs_ind (P : list Z -> Prop) :
  P [] -> (forall ch, P [ch]) ->
  (forall ch ch2 r,
     is_high_surrogate ch && is_low_surrogate ch2 = true ->
     P r -> P (ch :: ch2 :: r)) ->
  (forall ch ch2 r,
     is_high_surrogate ch && is_low_surrogate ch2 = false ->
     P (ch2 :: r) -> P (ch :: ch2 :: r)) ->
  forall u, P u.
Proof.
  intros Hnil Hone Hpair Hnone u.
  assert (Hlen : forall n u, (length u <= n)%nat -> P u); [|by eapply Hlen].
  clear u. induction n as [|n IH]; intros [|ch [|ch2 r]] Hn; simpl in Hn;
    try done; try lia.
  destruct (is_high_surrogate ch && is_low_surrogate ch2) eqn:Hp.
  - apply Hpair; [done|]. apply IH. lia.
  - apply Hnone; [done|]. apply IH. simpl. lia.
Qed.

Lemma land_shiftl_low a b :
  0 <= b < 1024 -> Z.land (Z.shiftl a 10) b = 0.
Proof.
  intros Hb. apply Z.bits_inj'. intros n Hn.
  rewrite Z.land_spec, Z.bits_0.
  destruct (Z.lt_ge_cases n 10) as [Hlt|Hge].
  - by rewrite Z.shiftl_spec_low.
  - destruct (Z.eq_dec b 0) as [->|Hb0]; [by rewrite Z.bits_0, andb_false_r|].
    rewrite (Z.bits_above_log2 b n), andb_false_r; [done|lia|].
    apply Z.log2_lt_pow2; [lia|].
    apply Z.lt_le_trans with (2 ^ 10); [lia|].
    apply Z.pow_le_mono_r; lia.
Qed.

Lemma join_pair_arith ch ch2 :
  is_high_surrogate ch && is_low_surrogate ch2 = true ->
  join_pair ch ch2 = (ch - 0xD800) * 1024 + (ch2 - 0xDC00) + 0x10000
  /\ 0xD800 <= ch <= 0xDBFF /\ 0xDC00 <= ch2 <= 0xDFFF.
Proof.
  unfold is_high_surrogate, is_low_surrogate, join_pair.
  intros [[H1 H2]%andb_true_iff [H3 H4]%andb_true_iff]%andb_true_iff.
  apply Z.leb_le in H1, H2, H3, H4. split; [|lia].
  rewrite <- Z.lxor_lor, <- Z.add_nocarry_lxor
    by (apply land_shiftl_low; lia).
  rewrite Z.shiftl_mul_pow2 by lia. lia.
Qed.

Lemma join_pair_valid ch ch2 :
  is_high_surrogate ch && is_low_surrogate ch2 = true ->
  0x10000 <= join_pair ch ch2 < 0x110000.
Proof. intros Hp. destruct (join_pair_arith ch ch2 Hp) as (-> & ? & ?). lia. Qed.

Lemma utf8_encode_points_join u :
  utf8_encode_points u = concat (map utf8_encode_char (join_surrogates u)).
Proof.
  induction u as [|ch|ch ch2 r Hp IH|ch ch2 r Hp IH] using pairs_ind.
  - done.
  - simpl. by rewrite app_nil_r.
  - cbn [utf8_encode_points join_surrogates]. rewrite Hp. simpl. by rewrite IH.
  - cbn [utf8_encode_points join_surrogates] in *. rewrite Hp.
    cbn [map concat]. by rewrite IH.
Qed.

Lemma join_surrogates_valid u :
  Forall valid_code_point u -> Forall valid_code_point (join_surrogates u).
Proof.
  induction u as [|ch|ch ch2 r Hp IH|ch ch2 r Hp IH] using pairs_ind;
    intros Hu.
  - constructor.
  - done.
  - cbn [join_surrogates]. rewrite Hp.
    inversion Hu as [|? ? _ Hu']. inversion Hu' as [|? ? _ Hr]. subst.
    constructor; [|by apply IH].
    pose proof (join_pair_valid ch ch2 Hp). unfold valid_code_point. lia.
  - cbn [join_surrogates] in *. rewrite Hp.
    inversion Hu as [|? ? Hch Hu']. subst. constructor; [done|by apply IH].
Qed.

Lemma join_surrogates_id u :
  no_surrogate_pair u = true -> join_surrogates u = u.
Proof.
  induction u as [|ch|ch ch2 r Hp IH|ch ch2 r Hp IH] using pairs_ind.
  - done.
  - done.
  - cbn [no_surrogate_pair]. by rewrite Hp.
  - cbn [no_surrogate_pair join_surrogates] in *. rewrite Hp. cbn [negb andb].
    intros Hr. by rewrite (IH Hr).
Qed.

Lemma join_surrogates_pair u :
  no_surrogate_pair u = false -> join_surrogates u <> u.
Proof.
  induction u as [|ch|ch ch2 r Hp IH|ch ch2 r Hp IH] using pairs_ind.
  - done.
  - done.
  - intros _. cbn [join_surrogates]. rewrite Hp. intros [= Hch _].
    pose proof (join_pair_valid ch ch2 Hp).
    destruct (join_pair_arith ch ch2 Hp) as (_ & ? & _). lia.
  - cbn [no_surrogate_pair join_surrogates] in *. rewrite Hp. cbn [negb andb].
    intros Hr [= Heq]. by apply IH.
Qed.

Lemma join_surrogates_nil_iff u : join_surrogates u = [] <-> u = [].
Proof.
  split; [|by intros ->].
  destruct u as [|ch [|ch2 r]]; [done|done|]. cbn [join_surrogates].
  by destruct (is_high_surrogate ch && is_low_surrogate ch2).
Qed.

(** What is read back from the bytes of a text is the text with its
    surrogate pairs joined. *)
Lemma utf8_decode_encode u :
  Forall valid_code_point u ->
  utf8_decode (utf8_encode u) = Some (join_surrogates u).
Proof.
  intros Hu. unfold utf8_decode, utf8_encode.
  rewrite utf8_encode_points_join.
  destruct (utf8_decode_encode_chars (join_surrogates u)) as [Hdec Hbytes];
    [by apply join_surrogates_valid|].
  by rewrite bytes_of_string_of_bytes.
Qed.

Lemma utf8_encode_char_not_nil c : utf8_encode_char c <> [].
Proof. unfold utf8_encode_char. by repeat case_match. Qed.

Lemma utf8_encode_nil_iff u : utf8_encode u = "" <-> u = [].
Proof.
  split; [|by intros ->].
  unfold utf8_encode. rewrite utf8_encode_points_join.
  destruct (join_surrogates u) as [|c u'] eqn:Hj.
  - intros _. by apply join_surrogates_nil_iff.
  - cbn [map concat]. pose proof (utf8_encode_char_not_nil c) as Hc.
    destruct (utf8_encode_char c) as [|b bs]; [done|]. simpl. discriminate.
Qed.

End Utf8.

Section Codec.

Lemma bytes_of_string_valid s : Forall valid_code_point (bytes_of_string s).
Proof.
  induction s as [|a s IH]; simpl; constructor; [|done].
  unfold valid_code_point, Z_of_byte.
  pose proof (N_ascii_bounded a). lia.
Qed.

Lemma string_eqb_false_cons a s : String.eqb (String a s) "" = false.
Proof. done. Qed.

Lemma utf8_encode_eqb_empty u : u <> [] -> String.eqb (utf8_encode u) "" = false.
Proof.
  intros Hu. apply String.eqb_neq. by rewrite utf8_encode_nil_iff.
Qed.

Lemma decode_encode_text column u :
  col_type column = OtherType -> Forall valid_code_point u ->
  decode_value column (encode_value (VUnicode u))
  = Ok (if nullable column && bool_decide (u = []) then VNone
        else VUnicode (join_surrogates u)).
Proof.
  intros Ht Hu. unfold decode_value, encode_value. simpl.
  destruct u as [|c0 u].
  - change (utf8_encode []) with "". simpl.
    destruct (nullable column); simpl; [done|]. by rewrite Ht.
  - rewrite utf8_encode_eqb_empty by done.
    rewrite bool_decide_eq_false_2 by done.
    rewrite !andb_false_r, Ht. simpl.
    by rewrite utf8_decode_encode.
Qed.

Lemma bytes_no_surrogate_pair s : no_surrogate_pair (bytes_of_string s) = true.
Proof.
  induction s as [|a s IH]; [done|]. cbn [bytes_of_string no_surrogate_pair].
  destruct (bytes_of_string s) as [|b bs] eqn:Hs; [done|]. rewrite IH.
  assert (is_high_surrogate (Z_of_byte a) = false) as ->; [|done].
  unfold is_high_surrogate, Z_of_byte. pose proof (N_ascii_bounded a).
  apply andb_false_iff. left. apply Z.leb_gt. lia.
Qed.

Lemma string_of_int_not_empty n :
  bytes_of_string (NilZero.string_of_int (Z.to_int n)) <> [].
Proof.
  destruct (Z.to_int n) as [d|d]; simpl; [|done]. by destruct d.
Qed.

Lemma decode_encode_int column n :
  col_type column = OtherType ->
  decode_value column (encode_value (VInt n)) = Ok (VUnicode (unicode (VInt n))).
Proof.
  intros Ht. unfold encode_value. cbn [py_eq Z.b2z].
  assert (Hgen : decode_value column (utf8_encode (unicode (VInt n)))
                 = Ok (VUnicode (unicode (VInt n)))).
  { unfold decode_value.
    rewrite utf8_encode_eqb_empty by apply string_of_int_not_empty.
    rewrite andb_false_r, Ht. cbn [is_Boolean].
    rewrite utf8_decode_encode by apply bytes_of_string_valid.
    cbn [unicode]. by rewrite join_surrogates_id by apply bytes_no_surrogate_pair. }
  destruct (Z.eqb_spec n 1) as [->|H1]; [exact Hgen|].
  destruct (Z.eqb_spec n 0) as [->|H0]; [exact Hgen|].
  exact Hgen.
Qed.

Lemma decode_boolean column value :
  col_type column = Boolean ->
  nullable column = false \/ value <> "" ->
  decode_value column value = Ok (VBool (negb (String.eqb value "0"))).
Proof.
  intros Ht Hv. unfold decode_value.
  assert (nullable column && String.eqb value "" = false) as ->.
  { destruct Hv as [->|Hv]; [done|].
    apply andb_false_iff. right. by apply String.eqb_neq. }
  rewrite Ht. cbn [is_Boolean]. by destruct (String.eqb value "0").
Qed.

(** C4 (as amended): a null of a nullable column is written as the empty
    text and the empty text of a nullable column is read as null; false is
    written ["0"] and true ["1"], and a Boolean column reads ["0"] as
    false and any other text as true (the empty text of a nullable column
    apart); for every value a column holds (null if nullable, a boolean in
    a Boolean column, a text elsewhere) reading what was written gives the
    value back, non-ASCII text included, except for the empty text of a
    nullable column, which is read back as null, and for a text with a
    surrogate pair; any text that is not empty is read back with each
    surrogate pair joined into the code point it stands for, which is the
    text itself exactly when it has no such pair; an integer is read back
    as its decimal text. *)
Theorem codec_round_trip column :
  (encode_value VNone = ""
   /\ (nullable column = true -> decode_value column "" = Ok VNone))
  /\ (encode_value (VBool false) = "0" /\ encode_value (VBool true) = "1")
  /\ (col_type column = Boolean ->
      forall value, nullable column = false \/ value <> "" ->
        decode_value column value = Ok (VBool (negb (String.eqb value "0"))))
  /\ (forall v, column_holds column v ->
        nullable column = false \/ v <> VUnicode [] ->
        pair_free v = true ->
        round_trips column v)
  /\ (forall u, column_holds column (VUnicode u) -> u <> [] ->
        decode_value column (encode_value (VUnicode u))
        = Ok (VUnicode (join_surrogates u))
        /\ (join_surrogates u = u <-> no_surrogate_pair u = true))
  /\ (nullable column = true -> col_type column = OtherType ->
      decode_value column (encode_value (VUnicode [])) = Ok VNone)
  /\ (col_type column = OtherType ->
      forall n, decode_value column (encode_value (VInt n))
                = Ok (VUnicode (unicode (VInt n)))).
Proof.
  split; [|split; [|split; [|split; [|split; [|split]]]]].
  - split; [done|]. intros Hnull. unfold decode_value. by rewrite Hnull.
  - done.
  - intros Ht value Hv. by apply decode_boolean.
  - intros v Hholds Hv Hfree. unfold round_trips. destruct v as [|b|n|u].
    + simpl in Hholds. unfold decode_value, encode_value. simpl.
      by rewrite Hholds.
    + simpl in Hholds.
      rewrite decode_boolean; [by destruct b|done|right; by destruct b].
    + done.
    + destruct Hholds as [Ht Hu]. rewrite decode_encode_text by done.
      cbn [pair_free] in Hfree. rewrite (join_surrogates_id u Hfree).
      destruct Hv as [->|Hv]; [done|].
      rewrite bool_decide_eq_false_2 by congruence. by rewrite andb_false_r.
  - intros u [Ht Hu] Hne. split.
    + rewrite decode_encode_text by done.
      rewrite bool_decide_eq_false_2 by done. by rewrite andb_false_r.
    + split; [|apply join_surrogates_id].
      intros Hid. destruct (no_surrogate_pair u) eqn:Hp; [done|].
      by apply join_surrogates_pair in Hp.
  - intros Hnull Ht. rewrite decode_encode_text by (done || constructor).
    by rewrite Hnull.
  - intros Ht n. by apply decode_encode_int.
Qed.

Lemma codec_round_trip_witness :
  column_holds Scenario.label_column (VUnicode [233; 8364; 128512])
  /\ (nullable Scenario.label_column = false
      \/ VUnicode [233; 8364; 128512] <> VUnicode [])
  /\ pair_free (VUnicode [233; 8364; 128512]) = true
  /\ round_trips Scenario.label_column (VUnicode [233; 8364; 128512]).
Proof.
  assert (H1 : column_holds Scenario.label_column
                 (VUnicode [233; 8364; 128512])).
  { split; [reflexivity|]. repeat constructor; unfold valid_code_point; lia. }
  assert (H2 : nullable Scenario.label_column = false
               \/ VUnicode [233; 8364; 128512] <> VUnicode [])
    by (right; discriminate).
  split; [exact H1|]. split; [exact H2|]. split; [reflexivity|].
  destruct (codec_round_trip Scenario.label_column) as (_ & _ & _ & H & _).
  exact (H (VUnicode [233; 8364; 128512]) H1 H2 eq_refl).
Defined.

(** A surrogate pair is not read back: the pair U+D800 U+DC00 is written
    as the four bytes of U+10000. *)
Example surrogate_pair_is_joined :
  column_holds Scenario.label_column (VUnicode [0xD800; 0xDC00])
  /\ encode_value (VUnicode [0xD800; 0xDC00])
     = string_of_bytes [0xF0; 0x90; 0x80; 0x80]
  /\ decode_value Scenario.label_column (encode_value (VUnicode [0xD800; 0xDC00]))
     = Ok (VUnicode [0x10000])
  /\ ~ round_trips Scenario.label_column (VUnicode [0xD800; 0xDC00]).
Proof.
  split; [split; [reflexivity|]|].
  { repeat constructor; unfold valid_code_point; lia. }
  split; [reflexivity|]. split; [reflexivity|].
  unfold round_trips. by vm_compute.
Qed.

(** C4 fails as stated: the empty text of a nullable column is written as
    the empty text, like null, and is read back as null. *)
Lemma codec_round_trip_counterexample :
  column_holds Scenario.label_column (VUnicode [])
  /\ decode_value Scenario.label_column (encode_value (VUnicode []))
     = Ok VNone
  /\ ~ round_trips Scenario.label_column (VUnicode []).
Proof.
  split; [by split; [|constructor]|]. split; [reflexivity|].
  unfold round_trips. by vm_compute.
Qed.

End Codec.

(** ** The monad of the embedding *)

Ltac unfold_m :=
  unfold mbind, M_bind, mret, M_ret, lift, get, raise, emit in *.

Section Monad.

Lemma bind_ok {A B : Type} (m : M A) (f : A -> M B) st a st' :
  m st = (Ok a, st') -> (m ≫= f) st = f a st'.
Proof. intros H. unfold_m. by rewrite H. Qed.

Lemma bind_raise {A B : Type} (m : M A) (f : A -> M B) st e st' :
  m st = (Raise e, st') -> (m ≫= f) st = (Raise e, st').
Proof. intros H. unfold_m. by rewrite H. Qed.

Lemma for_each_app {A : Type} (body : A -> M unit) l1 l2 st :
  for_each body (l1 ++ l2) st
  = (for_each body l1 ;; for_each body l2) st.
Proof.
  revert st. induction l1 as [|x l1 IH]; intros st; simpl.
  - done.
  - unfold_m. destruct (body x st) as [[[]|e] st1]; [apply IH|done].
Qed.

Lemma map_result_ok_length {A B : Type} (f : A -> result B) l ys :
  map_result f l = Ok ys -> length ys = length l.
Proof.
  revert ys. induction l as [|x l IH]; intros ys; simpl.
  - by intros [= <-].
  - destruct (f x); [|done]. destruct (map_result f l); [|done].
    intros [= <-]. simpl. by rewrite (IH _ eq_refl).
Qed.

Lemma hoare_bind {A B : Type} P Q R (m : M A) (f : A -> M B) :
  hoare P m Q -> (forall a, hoare Q (f a) R) -> (forall st, Q st -> R st) ->
  hoare P (m ≫= f) R.
Proof.
  intros Hm Hf HQR st HP. unfold_m. specialize (Hm st HP).
  destruct (m st) as [[a|e] st1]; simpl in *; [by apply Hf|by apply HQR].
Qed.

Lemma hoare_bind_same {A B : Type} P (m : M A) (f : A -> M B) :
  hoare P m P -> (forall a, hoare P (f a) P) -> hoare P (m ≫= f) P.
Proof. intros Hm Hf. by apply (hoare_bind P P P). Qed.

Lemma hoare_ret {A : Type} P (a : A) : hoare P (mret a) P.
Proof. by intros st HP. Qed.

Lemma hoare_lift {A : Type} P (r : result A) : hoare P (lift r) P.
Proof. by intros st HP. Qed.

Lemma hoare_raise {A : Type} P e : hoare P (raise e : M A) P.
Proof. by intros st HP. Qed.

Lemma hoare_get P : hoare P get P.
Proof. by intros st HP. Qed.

Lemma hoare_for_each {A : Type} P (body : A -> M unit) l :
  (forall x, hoare P (body x) P) -> hoare P (for_each body l) P.
Proof.
  intros Hbody. induction l as [|x l IH]; simpl.
  - apply hoare_ret.
  - apply hoare_bind_same; [apply Hbody|by intros _].
Qed.

Lemma hoare_weaken {A : Type} (P P' Q Q' : state -> Prop) (m : M A) :
  hoare P m Q -> (forall st, P' st -> P st) -> (forall st, Q st -> Q' st) ->
  hoare P' m Q'.
Proof. intros Hm HP HQ st H. apply HQ, Hm, HP, H. Qed.

Lemma hoare_ok_bind {A B : Type} P Q R (m : M A) (f : A -> M B) :
  hoare_ok P m Q -> (forall a, hoare_ok Q (f a) R) -> hoare_ok P (m ≫= f) R.
Proof.
  intros Hm Hf st b st' HP. unfold_m.
  destruct (m st) as [[a|e] st1] eqn:Hrun; [|done].
  intros Hfa. eapply Hf; [|exact Hfa]. eapply Hm; [exact HP|exact Hrun].
Qed.

Lemma hoare_ok_ret {A : Type} P (a : A) : hoare_ok P (mret a) P.
Proof. intros st a' st' HP [= _ <-]. done. Qed.

Lemma hoare_ok_lift {A : Type} P (r : result A) : hoare_ok P (lift r) P.
Proof. intros st a' st' HP [= _ <-]. done. Qed.

Lemma hoare_ok_get P : hoare_ok P get P.
Proof. intros st a' st' HP [= _ <-]. done. Qed.

Lemma hoare_ok_for_each {A : Type} P (body : A -> M unit) l :
  (forall x, hoare_ok P (body x) P) -> hoare_ok P (for_each body l) P.
Proof.
  intros Hbody. induction l as [|x l IH]; simpl.
  - apply hoare_ok_ret.
  - eapply hoare_ok_bind; [apply Hbody|by intros _].
Qed.

Lemma hoare_ok_of_hoare {A : Type} P Q (m : M A) :
  hoare P m Q -> hoare_ok P m Q.
Proof. intros Hm st a st' HP Hrun. specialize (Hm st HP). by rewrite Hrun in Hm. Qed.

Lemma hoare_ok_weaken {A : Type} (P P' Q Q' : state -> Prop) (m : M A) :
  hoare_ok P m Q -> (forall st, P' st -> P st) -> (forall st, Q st -> Q' st) ->
  hoare_ok P' m Q'.
Proof. intros Hm HP HQ st a st' H Hrun. eapply HQ, Hm; [apply HP, H|exact Hrun]. Qed.

Lemma map_result_repeat {A B : Type} (f : A -> result B) x y n :
  f x = Ok y -> map_result f (repeat x n) = Ok (repeat y n).
Proof.
  intros Hx. induction n as [|n IH]; simpl; [done|]. by rewrite Hx, IH.
Qed.

Lemma with_events_nil st : with_events st [] = st.
Proof. destruct st. unfold with_events. simpl. by rewrite app_nil_r. Qed.

Lemma with_events_app st evs1 evs2 :
  with_events (with_events st evs1) evs2 = with_events st (evs1 ++ evs2).
Proof. unfold with_events. simpl. by rewrite app_assoc. Qed.

Lemma emit_run e st : emit e st = (Ok tt, with_events st [e]).
Proof. reflexivity. Qed.

Lemma print_start_run verbose thing st :
  (_get_verbose_prints verbose).1 thing st
  = (Ok tt, with_events st (if verbose
                            then [EPrintStart (print_start_text thing)]
                            else [])).
Proof. destruct verbose; simpl; [done|]. by rewrite with_events_nil. Qed.

Lemma print_done_run verbose msg st :
  (_get_verbose_prints verbose).2 msg st
  = (Ok tt, with_events st (if verbose then [EPrintDone msg] else [])).
Proof. destruct verbose; simpl; [done|]. by rewrite with_events_nil. Qed.

Lemma bind_get {B : Type} (f : state -> M B) st : (get ≫= f) st = f st st.
Proof. reflexivity. Qed.

Lemma bind_lift_ok {A B : Type} (a : A) (f : A -> M B) st :
  (lift (Ok a) ≫= f) st = f a st.
Proof. reflexivity. Qed.

End Monad.

(** ** The self-reference resolver *)

Section Resolver.

Import Loader ResolverSpec.

Lemma foreign_ids_of_filter self_ref_columns (row_data : row) ids :
  foreign_ids_of self_ref_columns row_data = Ok ids ->
  exists values,
    map_result (fun column => getitem row_data (col_name column))
               self_ref_columns = Ok values
    /\ ids = List.filter is_truthy values.
Proof.
  unfold foreign_ids_of. destruct (map_result _ _) as [values|]; [|done].
  intros [= <-]. by exists values.
Qed.

Lemma filter_is_truthy_nil values :
  Forall (fun v => is_truthy v = false) values ->
  List.filter is_truthy values = [].
Proof.
  induction 1 as [|v values Hv _ IH]; simpl; [done|]. by rewrite Hv.
Qed.

Lemma map_result_getitem_falsy self_ref_columns (row_data : row) :
  (forall column, In column self_ref_columns ->
     exists v, row_data !! col_name column = Some v /\ is_truthy v = false) ->
  exists values,
    map_result (fun column => getitem row_data (col_name column))
               self_ref_columns = Ok values
    /\ Forall (fun v => is_truthy v = false) values.
Proof.
  induction self_ref_columns as [|column cols IH]; intros H; simpl.
  - by exists [].
  - destruct (H column) as (v & Hv & Hf); [by left|].
    destruct IH as (values & -> & Hall); [intros ? ?; apply H; by right|].
    unfold getitem. rewrite Hv. exists (v :: values). by split; [|constructor].
Qed.

Lemma batch_size_gt_1 : (batch_size <=? 1)%nat = false.
Proof. reflexivity. Qed.

Local Arguments Nat.leb : simpl never.

Lemma handle_row_run table_name self_ref_columns (row_data : row) ids key st :
  self_ref_columns <> [] ->
  foreign_ids_of self_ref_columns row_data = Ok ids ->
  row_data !! "id" = Some key ->
  exists st', handle_row table_name self_ref_columns row_data st = (Ok tt, st')
  /\ if bool_decide (ids = []) then
       marked_and_enqueued table_name key row_data st st'
     else if all_seen (seen_ids st) ids then
       flushed_then_enqueued table_name key row_data st st'
     else held_back ids row_data st st'.
Proof.
  intros Hne Hids Hkey.
  unfold handle_row, resolve, enqueue, mark_seen, getitem, append_row,
    insert_and_commit, defer.
  destruct self_ref_columns as [|col0 cols]; [done|].
  unfold_m. rewrite Hids, Hkey.
  destruct ids as [|v ids]; cbn [bool_decide decide_rel].
  - rewrite bool_decide_eq_true_2 by done. cbn.
    unfold marked_and_enqueued, enqueued_in_batch.
    destruct (batch_size <=? length (new_rows st ++ [row_data]))%nat eqn:Hfull;
      eexists; (split; [reflexivity|]); cbn; by rewrite ?Hfull.
  - rewrite bool_decide_eq_false_2 by done.
    destruct (all_seen (seen_ids st) (v :: ids)); cbn.
    + rewrite batch_size_gt_1. eexists. split; [reflexivity|].
      by unfold flushed_then_enqueued.
    + eexists. split; [reflexivity|]. by unfold held_back.
Qed.

(** C1 (as amended): for a record of a self-referential table that carries
    its [id] and its self-referential columns, the resolver takes exactly
    one of three actions, chosen by the list of the truthy values (not
    null, not false, not zero, not the empty text) of those columns.  If
    the list is empty the key is marked seen and the record joins the
    current batch; if every value of it is in [seen_ids] the current batch
    is flushed and committed first, then the key is marked seen and the
    record starts a new batch; otherwise the record is appended to the
    deferred list with that list of values, its key is not marked seen and
    it is not enqueued. *)
Theorem resolver_three_actions table_name self_ref_columns
  (row_data : row) ids key st :
  self_ref_columns <> [] ->
  foreign_ids_of self_ref_columns row_data = Ok ids ->
  row_data !! "id" = Some key ->
  exists st', handle_row table_name self_ref_columns row_data st = (Ok tt, st')
  /\ if bool_decide (ids = []) then
       marked_and_enqueued table_name key row_data st st'
     else if all_seen (seen_ids st) ids then
       flushed_then_enqueued table_name key row_data st st'
     else held_back ids row_data st st'.
Proof. apply handle_row_run. Qed.

Lemma resolver_three_actions_witness :
  [Scenario.parent_column] <> []
  /\ foreign_ids_of [Scenario.parent_column]
       (Scenario.node_row "3" (Scenario.text "5")) = Ok [Scenario.text "5"]
  /\ Scenario.node_row "3" (Scenario.text "5") !! "id"
     = Some (Scenario.text "3")
  /\ exists st',
       handle_row "nodes" [Scenario.parent_column]
         (Scenario.node_row "3" (Scenario.text "5")) (initial_state ∅)
       = (Ok tt, st')
       /\ held_back [Scenario.text "5"]
            (Scenario.node_row "3" (Scenario.text "5")) (initial_state ∅) st'.
Proof.
  split; [discriminate|]. split; [reflexivity|]. split; [reflexivity|].
  apply (resolver_three_actions "nodes" [Scenario.parent_column]
           (Scenario.node_row "3" (Scenario.text "5")) [Scenario.text "5"]
           (Scenario.text "3") (initial_state ∅));
    [discriminate|reflexivity|reflexivity].
Defined.

(** C1 fails as stated: the line [3,] of a table whose parent column is
    not nullable gives a record whose parent is the empty text.  The set
    of its non-null self-referential values is not empty and its value
    has not been seen, yet the record is not held back: its key is marked
    seen and it is enqueued. *)
Lemma resolver_non_null_counterexample :
  build_row Scenario.strict_nodes ["id"; "parent"] ["3"; ""]
  = Ok (Scenario.node_row "3" (VUnicode []))
  /\ non_null_ids_of [Scenario.strict_parent_column]
       (Scenario.node_row "3" (VUnicode [])) = Ok [VUnicode []]
  /\ all_seen (seen_ids (initial_state ∅)) [VUnicode []] = false
  /\ ~ (exists st',
          handle_row "nodes" [Scenario.strict_parent_column]
            (Scenario.node_row "3" (VUnicode [])) (initial_state ∅)
          = (Ok tt, st')
          /\ held_back [VUnicode []] (Scenario.node_row "3" (VUnicode []))
               (initial_state ∅) st')
  /\ exists st',
       handle_row "nodes" [Scenario.strict_parent_column]
         (Scenario.node_row "3" (VUnicode [])) (initial_state ∅)
       = (Ok tt, st')
       /\ seen_ids st' = [Scenario.text "3"]
       /\ new_rows st' = [Scenario.node_row "3" (VUnicode [])]
       /\ deferred_rows st' = [].
Proof.
  split; [reflexivity|]. split; [reflexivity|]. split; [reflexivity|].
  split.
  - intros (st' & Hrun & Hheld & _).
    vm_compute in Hrun. injection Hrun as <-. discriminate Hheld.
  - eexists. split; [vm_compute; reflexivity|]. by repeat split.
Qed.

(** C10: the dependency list keeps the truthy values of the
    self-referential columns only, so [None], [False], [0] and the empty
    text are all left out; a record whose self-referential columns hold
    nothing but such values has an empty list, and whatever has been seen
    so far its key is marked seen and it is enqueued at once, never
    deferred. *)
Theorem falsy_self_reference_is_no_reference table_name self_ref_columns
  (row_data : row) key st :
  self_ref_columns <> [] ->
  (forall column, In column self_ref_columns ->
     exists v, row_data !! col_name column = Some v /\ is_truthy v = false) ->
  row_data !! "id" = Some key ->
  (is_truthy VNone = false /\ is_truthy (VBool false) = false
   /\ is_truthy (VInt 0) = false /\ is_truthy (VUnicode []) = false)
  /\ (exists values,
        map_result (fun column => getitem row_data (col_name column))
                   self_ref_columns = Ok values
        /\ foreign_ids_of self_ref_columns row_data
           = Ok (List.filter is_truthy values))
  /\ foreign_ids_of self_ref_columns row_data = Ok []
  /\ exists st',
       handle_row table_name self_ref_columns row_data st = (Ok tt, st')
       /\ marked_and_enqueued table_name key row_data st st'
       /\ deferred_rows st' = deferred_rows st.
Proof.
  intros Hne Hfalsy Hkey.
  destruct (map_result_getitem_falsy _ _ Hfalsy) as (values & Hvalues & Hall).
  assert (Hids : foreign_ids_of self_ref_columns row_data = Ok []).
  { unfold foreign_ids_of. by rewrite Hvalues, filter_is_truthy_nil. }
  split; [done|]. split.
  { exists values. split; [done|]. unfold foreign_ids_of. by rewrite Hvalues. }
  split; [done|].
  destruct (handle_row_run table_name _ _ _ _ st Hne Hids Hkey)
    as (st' & Hrun & Hact).
  exists st'. split; [done|]. split; [done|]. by destruct Hact as (_ & ? & _).
Qed.

Lemma falsy_self_reference_is_no_reference_witness :
  [Scenario.strict_parent_column] <> []
  /\ (forall column, In column [Scenario.strict_parent_column] ->
        exists v, Scenario.node_row "3" (VInt 0) !! col_name column = Some v
                  /\ is_truthy v = false)
  /\ Scenario.node_row "3" (VInt 0) !! "id" = Some (Scenario.text "3")
  /\ exists st',
       handle_row "nodes" [Scenario.strict_parent_column]
         (Scenario.node_row "3" (VInt 0)) (initial_state ∅) = (Ok tt, st')
       /\ marked_and_enqueued "nodes" (Scenario.text "3")
            (Scenario.node_row "3" (VInt 0)) (initial_state ∅) st'
       /\ deferred_rows st' = deferred_rows (initial_state ∅).
Proof.
  assert (Hfalsy : forall column, In column [Scenario.strict_parent_column] ->
            exists v, Scenario.node_row "3" (VInt 0) !! col_name column = Some v
                      /\ is_truthy v = false).
  { intros column [<-|[]]. exists (VInt 0). split; reflexivity. }
  split; [discriminate|]. split; [exact Hfalsy|]. split; [reflexivity|].
  apply (falsy_self_reference_is_no_reference "nodes"
           [Scenario.strict_parent_column] (Scenario.node_row "3" (VInt 0))
           (Scenario.text "3") (initial_state ∅));
    [discriminate|exact Hfalsy|reflexivity].
Defined.

(** The text [0] of a column that is not Boolean is read as a text that is
    not empty, hence truthy: such a reference is kept in the list. *)
Example zero_text_is_kept :
  decode_value Scenario.parent_column "0" = Ok (Scenario.text "0")
  /\ is_truthy (Scenario.text "0") = true
  /\ foreign_ids_of [Scenario.parent_column]
       (Scenario.node_row "3" (Scenario.text "0")) = Ok [Scenario.text "0"].
Proof. by repeat split. Qed.

End Resolver.

(** ** The batched writer *)

Section Batches.

Import Loader BatchSpec.

Local Arguments Nat.leb : simpl never.

Lemma flush_sizes_app tr1 tr2 :
  Trace.flush_sizes (tr1 ++ tr2)
  = (Trace.flush_sizes tr1 ++ Trace.flush_sizes tr2)%list.
Proof. unfold Trace.flush_sizes. apply omap_app. Qed.

Lemma flushed_rows_app tr1 tr2 :
  Trace.flushed_rows (tr1 ++ tr2)
  = (Trace.flushed_rows tr1 ++ Trace.flushed_rows tr2)%list.
Proof. unfold Trace.flushed_rows. by rewrite omap_app, join_app. Qed.

Lemma insert_and_commit_run table_name st :
  exists st', insert_and_commit table_name st = (Ok tt, st')
  /\ new_rows st' = []
  /\ trace st'
     = (trace st ++ [EExecuteMany table_name (new_rows st); ECommit])%list
  /\ seen_ids st' = seen_ids st /\ deferred_rows st' = deferred_rows st
  /\ files st' = files st.
Proof. eexists. split; [reflexivity|]. by repeat split. Qed.

Lemma bounded_insert_and_commit table_name st :
  bounded st -> bounded (insert_and_commit table_name st).2.
Proof.
  intros [Hlen Hall]. split; simpl; [unfold batch_size; lia|].
  unfold flushes_bounded in *. simpl.
  rewrite flush_sizes_app. apply Forall_app. split; [done|].
  apply Forall_cons. split; [|by apply Forall_nil].
  unfold batch_size in *. lia.
Qed.

Lemma bounded_mark_seen (row_data : row) st :
  bounded st -> bounded (mark_seen row_data st).2.
Proof.
  intros H. unfold mark_seen. by destruct (getitem row_data "id").
Qed.

Lemma bounded_enqueue table_name (row_data : row) st :
  bounded st -> bounded (enqueue table_name row_data st).2.
Proof.
  intros [Hlen Hall]. unfold enqueue, append_row. unfold_m. cbn.
  destruct (batch_size <=? length (new_rows st ++ [row_data]))%nat eqn:Hfull.
  - split; simpl; [unfold batch_size; lia|].
    unfold flushes_bounded in *. simpl.
    rewrite flush_sizes_app. apply Forall_app. split; [done|].
    apply Forall_cons. split; [|by apply Forall_nil].
    rewrite length_app in *. simpl in *. unfold batch_size in *. lia.
  - apply Nat.leb_gt in Hfull. by split.
Qed.

Lemma bounded_handle_row table_name self_ref_columns (row_data : row) st :
  bounded st -> bounded (handle_row table_name self_ref_columns row_data st).2.
Proof.
  intros Hb. unfold handle_row.
  destruct self_ref_columns as [|col0 cols].
  { unfold_m. by apply bounded_enqueue. }
  unfold resolve. unfold_m.
  destruct (foreign_ids_of (col0 :: cols) row_data) as [ids|e]; [|done].
  destruct ids as [|v ids].
  - pose proof (bounded_mark_seen row_data st Hb) as Hm.
    destruct (mark_seen row_data st) as [[[]|e] st1]; [|done].
    by apply bounded_enqueue.
  - destruct (all_seen (seen_ids st) (v :: ids)).
    + pose proof (bounded_insert_and_commit table_name st Hb) as Hf.
      destruct (insert_and_commit table_name st) as [[[]|e] st1]; [|done].
      pose proof (bounded_mark_seen row_data st1 Hf) as Hm.
      destruct (mark_seen row_data st1) as [[[]|e] st2]; [|done].
      by apply bounded_enqueue.
    + done.
Qed.

Lemma bounded_process_row table_obj column_names self_ref_columns csvs st :
  bounded st ->
  bounded (process_row table_obj column_names self_ref_columns csvs st).2.
Proof.
  intros Hb. unfold process_row. unfold_m.
  destruct (build_row table_obj column_names csvs); [|done].
  by apply bounded_handle_row.
Qed.

Lemma bounded_for_each {A : Type} (body : A -> M unit) l st :
  (forall x st, bounded st -> bounded (body x st).2) ->
  bounded st -> bounded (for_each body l st).2.
Proof.
  intros Hbody. revert st. induction l as [|x l IH]; intros st Hb; [done|].
  simpl. unfold_m. pose proof (Hbody x st Hb) as Hx.
  destruct (body x st) as [[[]|e] st1]; [by apply IH|done].
Qed.

Lemma flushes_bounded_emit e st :
  match e with EExecuteMany _ _ => False | _ => True end ->
  flushes_bounded st -> flushes_bounded (emit e st).2.
Proof.
  intros He H. unfold flushes_bounded. simpl. rewrite flush_sizes_app.
  apply Forall_app. split; [done|]. by destruct e.
Qed.

Lemma flushes_bounded_print verbose thing st :
  flushes_bounded st ->
  flushes_bounded ((_get_verbose_prints verbose).1 thing st).2
  /\ flushes_bounded ((_get_verbose_prints verbose).2 thing st).2.
Proof.
  intros H. destruct verbose; simpl; [|done].
  split; by apply flushes_bounded_emit.
Qed.

Lemma flushes_bounded_replay table_name deferred st :
  flushes_bounded st -> flushes_bounded (replay table_name deferred st).2.
Proof.
  intros H. destruct deferred as [row_data ids]. unfold replay, eval_name_row.
  unfold_m. destruct (all_seen (seen_ids st) ids); simpl; [|done].
  unfold mark_seen. destruct (getitem row_data "id"); simpl.
  - unfold flushes_bounded in *. simpl. rewrite flush_sizes_app.
    apply Forall_app. by split.
  - unfold flushes_bounded in *. simpl. rewrite flush_sizes_app.
    apply Forall_app. by split.
Qed.

Lemma flushes_bounded_for_each {A : Type} (body : A -> M unit) l st :
  (forall x st, flushes_bounded st -> flushes_bounded (body x st).2) ->
  flushes_bounded st -> flushes_bounded (for_each body l st).2.
Proof.
  intros Hbody. revert st. induction l as [|x l IH]; intros st Hb; [done|].
  simpl. unfold_m. pose proof (Hbody x st Hb) as Hx.
  destruct (body x st) as [[[]|e] st1]; [by apply IH|done].
Qed.

Lemma flushes_bounded_load_table verbose directory table_obj :
  hoare flushes_bounded
    (load_table (_get_verbose_prints verbose).1 (_get_verbose_prints verbose).2
                directory table_obj)
    flushes_bounded.
Proof.
  unfold load_table.
  apply hoare_bind_same; [intros st; apply flushes_bounded_print|intros _].
  apply hoare_bind_same; [apply hoare_get|intros st0].
  destruct (files st0 !! csv_path directory (name table_obj)) as [csvfile|];
    [|intros st; apply flushes_bounded_print].
  destruct csvfile as [|header lines]; [apply hoare_raise|].
  apply hoare_bind_same; [apply hoare_lift|intros column_names].
  apply (hoare_bind _ bounded).
  { intros st Hst. split; [simpl; unfold batch_size; lia|done]. }
  2: { by intros st [_ ?]. }
  intros _. apply (hoare_bind _ bounded).
  { apply hoare_for_each. intros csvs st. apply bounded_process_row. }
  2: { by intros st [_ ?]. }
  intros _. apply (hoare_bind _ flushes_bounded).
  { intros st Hst. by apply bounded_insert_and_commit. }
  2: { done. }
  intros _. apply hoare_bind_same; [apply hoare_get|intros st1].
  apply hoare_bind_same.
  { apply hoare_for_each. intros d st. apply flushes_bounded_replay. }
  intros _. apply hoare_bind_same.
  { intros st. by apply flushes_bounded_emit. }
  intros _ st. apply flushes_bounded_print.
Qed.

Lemma flushes_bounded_load metadata_tables sort_tables default_directory
  tables directory drop_tables verbose :
  hoare flushes_bounded
    (load metadata_tables sort_tables default_directory tables directory
          drop_tables verbose)
    flushes_bounded.
Proof.
  unfold load.
  pose proof (fun thing st => flushes_bounded_print verbose thing st) as Hpr.
  pose proof (flushes_bounded_load_table verbose) as Hlt.
  destruct (_get_verbose_prints verbose) as [print_start print_done].
  simpl in *.
  apply hoare_bind_same; [apply hoare_lift|intros table_names].
  apply hoare_bind_same; [apply hoare_lift|intros table_objs].
  apply hoare_bind_same.
  { destruct drop_tables; [|apply hoare_ret].
    apply hoare_bind_same; [intros st; apply Hpr|intros _].
    apply hoare_bind_same; [|intros _; intros st; apply Hpr].
    apply hoare_for_each. intros table st.
    by apply flushes_bounded_emit. }
  intros _. apply hoare_bind_same.
  { apply hoare_for_each. intros table st. by apply flushes_bounded_emit. }
  intros _. apply hoare_for_each. intros table. apply Hlt.
Qed.

(** Rows of a table without self-reference go straight to the buffer. *)
Lemma process_row_plain_run table_obj column_names csvs (row_data : row) st :
  build_row table_obj column_names csvs = Ok row_data ->
  process_row table_obj column_names [] csvs st
  = (Ok tt,
     if (batch_size <=? S (length (new_rows st)))%nat then
       {| new_rows := []; seen_ids := seen_ids st;
          deferred_rows := deferred_rows st;
          trace := trace st ++ [EExecuteMany (name table_obj)
                                  (new_rows st ++ [row_data]); ECommit];
          files := files st |}
     else
       {| new_rows := new_rows st ++ [row_data]; seen_ids := seen_ids st;
          deferred_rows := deferred_rows st;
          trace := trace st; files := files st |}).
Proof.
  intros Hrow. unfold process_row, handle_row, enqueue, append_row,
    insert_and_commit. unfold_m. rewrite Hrow. cbn [fst snd new_rows].
  rewrite length_app, Nat.add_1_r. cbn [length].
  by destruct (batch_size <=? S (length (new_rows st)))%nat.
Qed.

Lemma for_each_plain_rows table_obj column_names lines rows st :
  map_result (build_row table_obj column_names) lines = Ok rows ->
  exists st',
    for_each (process_row table_obj column_names []) lines st = (Ok tt, st')
    /\ Trace.flush_sizes (trace st')
       = (Trace.flush_sizes (trace st)
          ++ (batches (length (new_rows st)) (length lines)).1)%list
    /\ length (new_rows st')
       = (batches (length (new_rows st)) (length lines)).2
    /\ (Trace.flushed_rows (trace st') ++ new_rows st')%list
       = (Trace.flushed_rows (trace st) ++ new_rows st ++ rows)%list
    /\ files st' = files st /\ deferred_rows st' = deferred_rows st
    /\ seen_ids st' = seen_ids st.
Proof.
  revert rows st. induction lines as [|csvs lines IH]; intros rows st.
  - intros [= <-]. exists st. simpl. by rewrite !app_nil_r.
  - cbn [map_result].
    destruct (build_row table_obj column_names csvs) as [row_data|] eqn:Hrow;
      [|done].
    destruct (map_result _ lines) as [rows'|] eqn:Hrows; [|done].
    intros [= <-]. cbn [for_each length batches].
    erewrite bind_ok by (by apply process_row_plain_run).
    destruct (batch_size <=? S (length (new_rows st)))%nat eqn:Hfull.
    + match goal with |- context [for_each _ lines ?s] =>
        destruct (IH rows' s eq_refl)
          as (st' & Hrun & Hsizes & Hlen & Hrows' & Hfiles & Hdef & Hseen)
      end.
      exists st'. split; [exact Hrun|]. cbn [new_rows trace length] in *.
      destruct (batches 0 (length lines)) as [sizes remaining].
      cbn [fst snd] in *. split; [|split; [done|split; [|done]]].
      * rewrite Hsizes, flush_sizes_app. cbn. rewrite length_app, Nat.add_1_r.
        by rewrite <- app_assoc.
      * rewrite Hrows', flushed_rows_app. cbn.
        by rewrite !app_nil_r, <- !app_assoc.
    + match goal with |- context [for_each _ lines ?s] =>
        destruct (IH rows' s eq_refl)
          as (st' & Hrun & Hsizes & Hlen & Hrows' & Hfiles & Hdef & Hseen)
      end.
      exists st'. split; [exact Hrun|]. cbn [new_rows trace length] in *.
      rewrite length_app, Nat.add_1_r in Hsizes, Hlen.
      split; [done|]. split; [done|]. split; [|done].
      rewrite Hrows'. by rewrite <- !app_assoc.
Qed.

Lemma flushes_of_2500 : flushes_of_load 2500 = [1000; 1000; 500]%nat.
Proof. vm_compute. reflexivity. Qed.

End Batches.

(** ** Loading one table *)

Section LoadTable.

Import Loader BatchSpec.

(** C8: when the file [{directory}/{table_name}.csv] of a selected table
    does not exist, the load of the table raises nothing and inserts
    nothing, so the table stays empty; in verbose mode the start marker
    and the status [missing?] are printed, otherwise nothing is; and the
    loop goes on with the next table. *)
Theorem missing_file_is_skipped verbose directory table_obj rest st :
  files st !! csv_path directory (name table_obj) = None ->
  let print_start := (_get_verbose_prints verbose).1 in
  let print_done := (_get_verbose_prints verbose).2 in
  let st' := with_events st
               (if verbose
                then [EPrintStart (print_start_text (name table_obj));
                      EPrintDone "missing?"]
                else []) in
  load_table print_start print_done directory table_obj st = (Ok tt, st')
  /\ Trace.inserted_rows (trace st') = Trace.inserted_rows (trace st)
  /\ Trace.created (trace st') = Trace.created (trace st)
  /\ for_each (load_table print_start print_done directory)
       (table_obj :: rest) st
     = for_each (load_table print_start print_done directory) rest st'.
Proof.
  intros Hmissing print_start print_done st'.
  assert (Hrun : load_table print_start print_done directory table_obj st
                 = (Ok tt, st')).
  { unfold load_table. subst print_start print_done.
    erewrite bind_ok by apply print_start_run.
    rewrite bind_get. cbn [files with_events]. rewrite Hmissing.
    rewrite print_done_run, with_events_app. subst st'. by destruct verbose. }
  split; [exact Hrun|]. split; [|split].
  - subst st'. unfold Trace.inserted_rows. cbn [trace with_events].
    rewrite omap_app. destruct verbose; simpl; by rewrite app_nil_r.
  - subst st'. unfold Trace.created. cbn [trace with_events].
    rewrite omap_app. destruct verbose; simpl; by rewrite app_nil_r.
  - cbn [for_each]. by erewrite bind_ok by exact Hrun.
Qed.

Lemma missing_file_is_skipped_witness :
  files (initial_state Scenario.nodes_files)
    !! csv_path "data" (name Scenario.items) = None
  /\ load_table (_get_verbose_prints true).1 (_get_verbose_prints true).2
       "data" Scenario.items (initial_state Scenario.nodes_files)
     = (Ok tt,
        with_events (initial_state Scenario.nodes_files)
          [EPrintStart (print_start_text "items"); EPrintDone "missing?"]).
Proof.
  split; [reflexivity|].
  apply (missing_file_is_skipped true "data" Scenario.items []
           (initial_state Scenario.nodes_files)).
  reflexivity.
Defined.

Lemma flush_sizes_prints verbose e :
  match e with EExecuteMany _ _ => False | _ => True end ->
  Trace.flush_sizes (if verbose : bool then [e] else []) = [].
Proof. intros He. destruct verbose; [|done]. by destruct e. Qed.

Lemma flushed_rows_prints verbose e :
  match e with EExecuteMany _ _ => False | _ => True end ->
  Trace.flushed_rows (if verbose : bool then [e] else []) = [].
Proof. intros He. destruct verbose; [|done]. by destruct e. Qed.

(** The load of a table without self-reference whose lines all decode. *)
Lemma load_table_plain verbose directory table_obj header column_names
  lines rows st :
  self_ref_columns_of table_obj = [] ->
  files st !! csv_path directory (name table_obj) = Some (header :: lines) ->
  map_result unicode_of_str header = Ok column_names ->
  map_result (build_row table_obj column_names) lines = Ok rows ->
  exists st',
    load_table (_get_verbose_prints verbose).1 (_get_verbose_prints verbose).2
               directory table_obj st = (Ok tt, st')
    /\ Trace.flush_sizes (trace st')
       = (Trace.flush_sizes (trace st) ++ flushes_of_load (length lines))%list
    /\ Trace.flushed_rows (trace st')
       = (Trace.flushed_rows (trace st) ++ rows)%list
    /\ new_rows st' = [].
Proof.
  intros Hself Hfile Hheader Hrows. unfold load_table.
  erewrite bind_ok by apply print_start_run.
  rewrite bind_get. cbn [files with_events]. rewrite Hfile, Hheader.
  rewrite bind_lift_ok, Hself.
  erewrite bind_ok by reflexivity.
  match goal with |- context [mbind _ _ ?s] =>
    destruct (for_each_plain_rows table_obj column_names lines rows s Hrows)
      as (st1 & Hrun & Hsizes & Hlen & Hall & Hfiles & Hdef & Hseen)
  end.
  erewrite bind_ok by exact Hrun.
  erewrite bind_ok by reflexivity.
  rewrite bind_get. cbn [deferred_rows]. rewrite Hdef. cbn [deferred_rows for_each].
  erewrite bind_ok by reflexivity.
  erewrite bind_ok by apply emit_run.
  rewrite print_done_run.
  eexists. split; [reflexivity|].
  cbn [trace with_events new_rows length] in *.
  unfold flushes_of_load.
  destruct (batches 0 (length lines)) as [sizes remaining].
  cbn [fst snd] in *.
  rewrite !flush_sizes_app, !flushed_rows_app, Hsizes.
  rewrite !flush_sizes_prints, !flushed_rows_prints by done.
  rewrite flush_sizes_app in Hsizes. rewrite flushed_rows_app in Hall.
  rewrite flush_sizes_prints in Hsizes by done.
  rewrite flushed_rows_prints in Hall by done.
  cbn. rewrite !app_nil_r in *. rewrite Hlen.
  split; [|split; [|done]].
  - rewrite flush_sizes_app, flush_sizes_prints by done.
    by rewrite app_nil_r, <- app_assoc.
  - by rewrite Hall.
Qed.

Lemma replay_new_rows table_name deferred st :
  new_rows (replay table_name deferred st).2 = new_rows st.
Proof.
  destruct deferred as [row_data ids]. unfold replay, eval_name_row.
  unfold_m. destruct (all_seen (seen_ids st) ids); simpl; [|done].
  unfold mark_seen. by destruct (getitem row_data "id").
Qed.

Lemma for_each_replay_new_rows table_name l st :
  new_rows (for_each (replay table_name) l st).2 = new_rows st.
Proof.
  revert st. induction l as [|d l IH]; intros st; [done|].
  simpl. unfold_m. pose proof (replay_new_rows table_name d st) as Hd.
  destruct (replay table_name d st) as [[[]|e] st1]; simpl in *; [|done].
  by rewrite IH.
Qed.

(** A load of a table that returns leaves the buffer empty. *)
Lemma load_table_drains verbose directory table_obj :
  hoare_ok (fun st => new_rows st = [])
    (load_table (_get_verbose_prints verbose).1 (_get_verbose_prints verbose).2
                directory table_obj)
    (fun st => new_rows st = []).
Proof.
  intros st [] st' Hst Hrun. unfold load_table in Hrun.
  erewrite bind_ok in Hrun by apply print_start_run.
  rewrite bind_get in Hrun. cbn [files with_events] in Hrun.
  destruct (files st !! csv_path directory (name table_obj)) as [csvfile|].
  2: { rewrite print_done_run in Hrun. by injection Hrun as <-. }
  destruct csvfile as [|header lines]; [done|].
  destruct (map_result unicode_of_str header) as [column_names|]; [|done].
  rewrite bind_lift_ok in Hrun.
  erewrite bind_ok in Hrun by reflexivity.
  match type of Hrun with mbind _ (for_each ?body lines) ?s = _ =>
    destruct (for_each body lines s) as [[[]|e] st1] eqn:Hloop
  end.
  2: { erewrite bind_raise in Hrun by exact Hloop. done. }
  erewrite bind_ok in Hrun by exact Hloop.
  erewrite bind_ok in Hrun by reflexivity.
  rewrite bind_get in Hrun.
  match type of Hrun with mbind _ (for_each ?body ?l) ?s = _ =>
    pose proof (for_each_replay_new_rows (name table_obj) l s) as Hnew;
    destruct (for_each body l s) as [[[]|e] st2] eqn:Hreplay
  end.
  2: { erewrite bind_raise in Hrun by exact Hreplay. done. }
  erewrite bind_ok in Hrun by exact Hreplay.
  erewrite bind_ok in Hrun by apply emit_run.
  rewrite print_done_run in Hrun. injection Hrun as <-.
  simpl in *. done.
Qed.

(** The rows [{id:2, parent:1}, {id:1, parent:null}] in file order: the
    record of id 2 is deferred, id 1 is inserted and committed by the
    final flush, then id 2 is inserted on its own and committed. *)
Example forward_reference_scenario_run :
  let run := load [Scenario.nodes] (fun table_objs => table_objs) "data"
               ["nodes"] (Some "data") false false
               (initial_state Scenario.forward_files) in
  run.1 = Ok tt
  /\ trace run.2
     = [ECreate "nodes";
        EExecuteMany "nodes" [Scenario.node_row "1" VNone]; ECommit;
        EExecuteOne "nodes" (Scenario.node_row "2" (Scenario.text "1"));
        ECommit].
Proof. split; vm_compute; reflexivity. Qed.

(** C3: no bulk insert of a load holds more than 1000 records and the
    buffer is below 1000 between two records; a flush is one bulk insert
    of all the buffered records, then a commit, and it empties the
    buffer; a load of a table that returns leaves the buffer empty; and
    2500 rows of a table without self-reference are inserted by exactly
    three bulk inserts of 1000, 1000 and 500 rows, in the order of the
    file. *)
Theorem batch_buffer_bounded_and_drained :
  (forall metadata_tables sort_tables default_directory tables directory
          drop_tables verbose fs,
     flushes_bounded
       (load metadata_tables sort_tables default_directory tables directory
             drop_tables verbose (initial_state fs)).2)
  /\ (forall table_obj column_names self_ref_columns csvs st,
        bounded st ->
        bounded (process_row table_obj column_names self_ref_columns
                             csvs st).2)
  /\ (forall table_name st,
        exists st',
          insert_and_commit table_name st = (Ok tt, st')
          /\ new_rows st' = []
          /\ trace st'
             = (trace st
                ++ [EExecuteMany table_name (new_rows st); ECommit])%list)
  /\ (forall verbose directory table_obj st st',
        new_rows st = [] ->
        load_table (_get_verbose_prints verbose).1
                   (_get_verbose_prints verbose).2 directory table_obj st
        = (Ok tt, st') ->
        new_rows st' = [])
  /\ (forall verbose directory table_obj header column_names lines rows st,
        self_ref_columns_of table_obj = [] ->
        files st !! csv_path directory (name table_obj)
        = Some (header :: lines) ->
        map_result unicode_of_str header = Ok column_names ->
        map_result (build_row table_obj column_names) lines = Ok rows ->
        length lines = 2500%nat ->
        exists st',
          load_table (_get_verbose_prints verbose).1
                     (_get_verbose_prints verbose).2 directory table_obj st
          = (Ok tt, st')
          /\ Trace.flush_sizes (trace st')
             = (Trace.flush_sizes (trace st) ++ [1000; 1000; 500]%nat)%list
          /\ Trace.flushed_rows (trace st')
             = (Trace.flushed_rows (trace st) ++ rows)%list
          /\ new_rows st' = []).
Proof.
  split; [|split; [|split; [|split]]].
  - intros. apply flushes_bounded_load. by apply Forall_nil.
  - intros. by apply bounded_process_row.
  - intros table_name st.
    destruct (insert_and_commit_run table_name st) as (st' & ? & ? & ? & _).
    by exists st'.
  - intros verbose directory table_obj st st' Hnew Hrun.
    by apply (load_table_drains verbose directory table_obj st tt st').
  - intros verbose directory table_obj header column_names lines rows st
      Hself Hfile Hheader Hrows Hlen.
    destruct (load_table_plain verbose directory table_obj header column_names
                lines rows st Hself Hfile Hheader Hrows)
      as (st' & Hrun & Hsizes & Hall & Hnew).
    exists st'. rewrite Hlen, flushes_of_2500 in Hsizes. done.
Qed.

Lemma batch_buffer_bounded_and_drained_witness :
  self_ref_columns_of Scenario.items = []
  /\ files (initial_state Scenario.items_files)
       !! csv_path "data" (name Scenario.items)
     = Some (Scenario.items_header :: Scenario.items_lines)
  /\ map_result unicode_of_str Scenario.items_header
     = Ok Scenario.items_header
  /\ map_result (build_row Scenario.items Scenario.items_header)
       Scenario.items_lines = Ok (repeat Scenario.items_row 2500)
  /\ length Scenario.items_lines = 2500%nat
  /\ exists st',
       load_table (_get_verbose_prints false).1 (_get_verbose_prints false).2
         "data" Scenario.items (initial_state Scenario.items_files)
       = (Ok tt, st')
       /\ Trace.flush_sizes (trace st') = [1000; 1000; 500]%nat
       /\ Trace.flushed_rows (trace st') = repeat Scenario.items_row 2500
       /\ new_rows st' = [].
Proof.
  assert (H1 : self_ref_columns_of Scenario.items = []) by reflexivity.
  assert (H2 : files (initial_state Scenario.items_files)
                 !! csv_path "data" (name Scenario.items)
               = Some (Scenario.items_header :: Scenario.items_lines))
    by reflexivity.
  assert (H3 : map_result unicode_of_str Scenario.items_header
               = Ok Scenario.items_header) by reflexivity.
  assert (H4 : map_result (build_row Scenario.items Scenario.items_header)
                 Scenario.items_lines = Ok (repeat Scenario.items_row 2500))
    by (apply map_result_repeat; vm_compute; reflexivity).
  assert (H5 : length Scenario.items_lines = 2500%nat)
    by apply repeat_length.
  split; [exact H1|]. split; [exact H2|]. split; [exact H3|].
  split; [exact H4|]. split; [exact H5|].
  destruct batch_buffer_bounded_and_drained as (_ & _ & _ & _ & Hplain).
  exact (Hplain false "data" Scenario.items Scenario.items_header
           Scenario.items_header Scenario.items_lines
           (repeat Scenario.items_row 2500)
           (initial_state Scenario.items_files) H1 H2 H3 H4 H5).
Defined.

(** The replay of a deferred record: when all its values have been seen
    it is inserted on its own and its key is marked seen. *)
Lemma replay_resolved table_name (row_data : row) ids key st :
  all_seen (seen_ids st) ids = true ->
  row_data !! "id" = Some key ->
  exists st',
    replay table_name (row_data, ids) st = (Ok tt, st')
    /\ trace st' = (trace st ++ [EExecuteOne table_name row_data])%list
    /\ seen_ids st' = add_seen key (seen_ids st).
Proof.
  intros Hseen Hkey. unfold replay, mark_seen, getitem. unfold_m.
  rewrite Hseen, Hkey. simpl. eexists. by split; [reflexivity|].
Qed.

(** When some value has not been seen the replay stops on the unbound
    name [row], before [ValueError] is built, and the state is left as it
    was. *)
Lemma replay_unresolved table_name (row_data : row) ids st :
  all_seen (seen_ids st) ids = false ->
  replay table_name (row_data, ids) st = (Raise (NameError "row"), st).
Proof.
  intros Hseen. unfold replay, eval_name_row. unfold_m. by rewrite Hseen.
Qed.

(** C2, the run on the rows [{id:1, parent:null}, {id:2, parent:1},
    {id:3, parent:5}]: ids 1 and 2 are inserted and committed, the record
    of id 3 is deferred and never inserted, and the load ends with
    [NameError] on the name [row], not with a [ValueError] that shows the
    record. *)
Theorem self_reference_scenario_run :
  let run := load [Scenario.nodes] (fun table_objs => table_objs) "data"
               ["nodes"] (Some "data") false false
               (initial_state Scenario.nodes_files) in
  run.1 = Raise (NameError "row")
  /\ (forall msg, run.1 <> Raise (ValueError msg))
  /\ Trace.committed_rows (trace run.2)
     = [Scenario.node_row "1" VNone;
        Scenario.node_row "2" (Scenario.text "1")]
  /\ Trace.inserted_rows (trace run.2)
     = [Scenario.node_row "1" VNone;
        Scenario.node_row "2" (Scenario.text "1")]
  /\ deferred_rows run.2
     = [(Scenario.node_row "3" (Scenario.text "5"), [Scenario.text "5"])]
  /\ seen_ids run.2 = [Scenario.text "1"; Scenario.text "2"].
Proof.
  assert (Hrun : (load [Scenario.nodes] (fun table_objs => table_objs) "data"
                    ["nodes"] (Some "data") false false
                    (initial_state Scenario.nodes_files)).1
                 = Raise (NameError "row")) by (vm_compute; reflexivity).
  cbv zeta. split; [exact Hrun|]. split; [by rewrite Hrun|].
  repeat split; vm_compute; reflexivity.
Qed.

End LoadTable.

(** ** The order of drop, create and load *)

Section Order.

Import Loader OrderSpec.

Lemma for_each_emit {A : Type} (f : A -> event) l st :
  for_each (fun x => emit (f x)) l st = (Ok tt, with_events st (map f l)).
Proof.
  revert st. induction l as [|x l IH]; intros st; simpl.
  - by rewrite with_events_nil.
  - erewrite bind_ok by apply emit_run. by rewrite IH, with_events_app.
Qed.

Lemma dropped_app tr1 tr2 :
  Trace.dropped (tr1 ++ tr2) = (Trace.dropped tr1 ++ Trace.dropped tr2)%list.
Proof. apply omap_app. Qed.

Lemma created_app tr1 tr2 :
  Trace.created (tr1 ++ tr2) = (Trace.created tr1 ++ Trace.created tr2)%list.
Proof. apply omap_app. Qed.

Lemma dropped_map_drop (l : list Table) :
  Trace.dropped (map (fun table => EDrop (name table)) l) = map name l.
Proof. induction l as [|t l IH]; simpl; [done|]. by f_equal. Qed.

Lemma created_map_create (l : list Table) :
  Trace.created (map (fun table => ECreate (name table)) l) = map name l.
Proof. induction l as [|t l IH]; simpl; [done|]. by f_equal. Qed.

Lemma dropped_map_create (l : list Table) :
  Trace.dropped (map (fun table => ECreate (name table)) l) = [].
Proof. induction l as [|t l IH]; simpl; done. Qed.

Lemma created_map_drop (l : list Table) :
  Trace.created (map (fun table => EDrop (name table)) l) = [].
Proof. induction l as [|t l IH]; simpl; done. Qed.

Lemma schema_events_dropped verbose order :
  Trace.dropped (schema_events true verbose order) = rev (map name order).
Proof.
  unfold schema_events.
  rewrite !dropped_app, dropped_map_drop, dropped_map_create, map_rev.
  destruct verbose; simpl; by rewrite ?app_nil_r.
Qed.

Lemma schema_events_created drop_tables verbose order :
  Trace.created (schema_events drop_tables verbose order) = map name order.
Proof.
  unfold schema_events. rewrite created_app, created_map_create.
  destruct drop_tables; [|done].
  rewrite !created_app, created_map_drop.
  destruct verbose; simpl; done.
Qed.

Lemma load_run metadata_tables sort_tables default_directory tables directory
  drop_tables verbose table_names table_objs st :
  select_names metadata_tables tables = Ok table_names ->
  map_result (metadata_getitem metadata_tables) table_names = Ok table_objs ->
  load metadata_tables sort_tables default_directory tables directory
       drop_tables verbose st
  = for_each (load_table (_get_verbose_prints verbose).1
                         (_get_verbose_prints verbose).2
                         (directory_or_default default_directory directory))
      (sort_tables table_objs)
      (with_events st (schema_events drop_tables verbose
                         (sort_tables table_objs))).
Proof.
  intros Hnames Hobjs. unfold load.
  pose proof (print_start_run verbose) as Hps.
  pose proof (print_done_run verbose) as Hpd.
  destruct (_get_verbose_prints verbose) as [print_start print_done].
  cbn [fst snd] in *.
  rewrite Hnames, bind_lift_ok, Hobjs, bind_lift_ok.
  unfold schema_events. destruct drop_tables.
  - erewrite (bind_ok (_ ≫= _)).
    2: { erewrite bind_ok by apply Hps.
         erewrite bind_ok by apply for_each_emit. apply Hpd. }
    erewrite bind_ok by apply for_each_emit.
    by rewrite !with_events_app, <- !app_assoc.
  - rewrite bind_lift_ok || (erewrite bind_ok by reflexivity).
    by erewrite bind_ok by apply for_each_emit.
Qed.

Lemma load_select_raises metadata_tables sort_tables default_directory tables
  directory drop_tables verbose e st :
  select_names metadata_tables tables = Raise e ->
  load metadata_tables sort_tables default_directory tables directory
       drop_tables verbose st = (Raise e, st).
Proof.
  intros Hsel. unfold load.
  destruct (_get_verbose_prints verbose) as [print_start print_done].
  by rewrite Hsel.
Qed.

End Order.

(** ** Table selection *)

Section Wildcards.

Import Wildcard.

Lemma append_cons a (s t : string) : String a s +:+ t = String a (s +:+ t).
Proof. reflexivity. Qed.

Lemma append_nil_l (t : string) : "" +:+ t = t.
Proof. reflexivity. Qed.

Lemma append_assoc (s1 s2 s3 : string) :
  (s1 +:+ s2) +:+ s3 = s1 +:+ (s2 +:+ s3).
Proof.
  induction s1 as [|a s1 IH]; [done|]. rewrite !append_cons. by f_equal.
Qed.

Lemma append_nil_r (s : string) : s +:+ "" = s.
Proof.
  induction s as [|a s IH]; [done|]. rewrite append_cons. by f_equal.
Qed.

Lemma concat_empty_cons (x : string) (xs : list string) :
  String.concat "" (x :: xs) = x +:+ String.concat "" xs.
Proof. destruct xs as [|y xs]; simpl; [by rewrite append_nil_r|done]. Qed.

(** One character of a glob is read back as its item. *)
Lemma parse_wildcard_char char rest cur acc :
  parse_branches (_wildcard_char_to_regex char +:+ rest) cur acc
  = parse_branches rest (item_of_char char :: cur) acc.
Proof.
  destruct char as [[] [] [] [] [] [] [] []]; reflexivity.
Qed.

Lemma glob_regex_string glob :
  String.concat "" (map _wildcard_char_to_regex (list_ascii_of_string glob))
  = match glob with
    | EmptyString => ""
    | String char rest =>
      _wildcard_char_to_regex char
      +:+ String.concat "" (map _wildcard_char_to_regex
                                (list_ascii_of_string rest))
    end.
Proof. destruct glob as [|char rest]; [done|]. apply concat_empty_cons. Qed.

Lemma parse_glob glob rest cur acc :
  parse_branches
    (String.concat "" (map _wildcard_char_to_regex
                           (list_ascii_of_string glob)) +:+ rest) cur acc
  = parse_branches rest (rev (items_of_glob glob) ++ cur)%list acc.
Proof.
  revert cur. induction glob as [|char glob IH]; intros cur; [done|].
  rewrite glob_regex_string, append_assoc, parse_wildcard_char, IH.
  cbn [items_of_glob rev]. by rewrite <- app_assoc.
Qed.

Lemma concat_cons2 sep (x y : string) (l : list string) :
  String.concat sep (x :: y :: l) = x +:+ sep +:+ String.concat sep (y :: l).
Proof. reflexivity. Qed.

Lemma parse_close cur acc :
  parse_branches ")$" cur acc = Some (rev acc ++ [rev cur])%list.
Proof. reflexivity. Qed.

Lemma parse_bar rest cur acc :
  parse_branches (String "|"%char rest) cur acc
  = parse_branches rest [] (rev cur :: acc).
Proof. reflexivity. Qed.

Lemma parse_globs glob globs acc :
  parse_branches
    (String.concat "|"
       (map (fun g => String.concat ""
                        (map _wildcard_char_to_regex
                             (list_ascii_of_string (glob_base g))))
            (glob :: globs))
     +:+ ")$") [] acc
  = Some (rev acc ++ map (fun g => items_of_glob (glob_base g))
                         (glob :: globs))%list.
Proof.
  revert glob acc. induction globs as [|glob' globs IH]; intros glob acc.
  - cbn [map String.concat].
    rewrite parse_glob, parse_close, app_nil_r. by rewrite rev_involutive.
  - cbn [map] in *. rewrite concat_cons2.
    rewrite append_assoc, parse_glob, append_assoc.
    change ("|" +:+ ?s) with (String "|"%char s).
    rewrite parse_bar, app_nil_r, rev_involutive, IH.
    cbn [rev]. by rewrite <- app_assoc.
Qed.

(** *** The join of the regex of a glob *)

Lemma wildcard_char_ascii char :
  is_ascii_string (_wildcard_char_to_regex char) = (Z_of_byte char <? 128).
Proof. destruct char as [[] [] [] [] [] [] [] []]; reflexivity. Qed.

Lemma unicode_join_chars glob :
  unicode_join (map _wildcard_char_to_regex (list_ascii_of_string glob))
  = if is_ascii_string glob
    then Ok (String.concat "" (map _wildcard_char_to_regex
                                   (list_ascii_of_string glob)))
    else Raise UnicodeDecodeError.
Proof.
  unfold unicode_join.
  assert (forallb is_ascii_string
            (map _wildcard_char_to_regex (list_ascii_of_string glob))
          = is_ascii_string glob) as ->; [|done].
  induction glob as [|char glob IH]; [done|].
  cbn [list_ascii_of_string map forallb]. rewrite IH, wildcard_char_ascii.
  reflexivity.
Qed.

Lemma wildcard_globs_to_regex globs :
  map_result _wildcard_glob_to_regex globs
  = if ascii_globs globs
    then Ok (map (fun g => String.concat ""
                             (map _wildcard_char_to_regex
                                  (list_ascii_of_string (glob_base g))))
                 globs)
    else Raise UnicodeDecodeError.
Proof.
  induction globs as [|glob globs IH]; [done|].
  cbn [map_result map ascii_globs forallb].
  unfold _wildcard_glob_to_regex at 1. rewrite unicode_join_chars.
  destruct (is_ascii_string (glob_base glob)); [|done].
  rewrite IH. fold (ascii_globs globs). by destruct (ascii_globs globs).
Qed.

(** The regex string of a list of ASCII globs compiles, to one branch a
    glob; a glob with a byte outside ASCII makes the join raise. *)
Lemma re_compile_wildcards glob globs :
  ascii_globs (glob :: globs) = true ->
  exists regex_string,
    _wildcards_to_regex (glob :: globs) = Ok regex_string
    /\ re_compile regex_string
       = Some (map (fun g => items_of_glob (glob_base g)) (glob :: globs)).
Proof.
  intros Hascii. unfold _wildcards_to_regex.
  rewrite wildcard_globs_to_regex, Hascii. eexists. split; [reflexivity|].
  change (re_compile ("^(?:" +:+ ?s)) with (parse_branches s [] []).
  by rewrite parse_globs.
Qed.

Lemma wildcards_to_regex_raises globs :
  ascii_globs globs = false ->
  _wildcards_to_regex globs = Raise UnicodeDecodeError.
Proof.
  intros Hascii. unfold _wildcards_to_regex.
  by rewrite wildcard_globs_to_regex, Hascii.
Qed.

(** *** Matching *)

Lemma no_newline_cons a s :
  no_newline (String a s) <-> dot_matches a = true /\ no_newline s.
Proof.
  unfold no_newline, dot_matches. cbn [mem_char].
  destruct (Ascii.eqb a "010"); simpl; split; try done; by intros [? ?].
Qed.

Lemma at_dollar_no_newline s :
  no_newline s -> at_dollar s = true -> s = "".
Proof.
  destruct s as [|a s]; [done|]. intros [Ha _]%no_newline_cons.
  unfold dot_matches in Ha. destruct s; simpl; [|done].
  intros Hnl. by rewrite Hnl in Ha.
Qed.

Lemma match_star_nil rest :
  match_items (AnyStar :: rest) "" = match_items rest "".
Proof. reflexivity. Qed.

Lemma match_star_cons rest a s :
  match_items (AnyStar :: rest) (String a s)
  = (dot_matches a && match_items (AnyStar :: rest) s)
    || match_items rest (String a s).
Proof. reflexivity. Qed.

Lemma item_of_char_opt : item_of_char "?" = AnyOpt.
Proof. reflexivity. Qed.

Lemma item_of_char_star : item_of_char "*" = AnyStar.
Proof. reflexivity. Qed.

Lemma item_of_char_lit ch :
  ch <> "?"%char -> ch <> "*"%char -> item_of_char ch = Lit ch.
Proof.
  intros H1 H2. unfold item_of_char.
  by rewrite (proj2 (Ascii.eqb_neq _ _) H1), (proj2 (Ascii.eqb_neq _ _) H2).
Qed.

Lemma match_items_sound glob name :
  no_newline name ->
  match_items (items_of_glob glob) name = true -> glob_matches glob name.
Proof.
  revert name. induction glob as [|ch glob IH]; intros name Hnl.
  { intros Hend. rewrite (at_dollar_no_newline name Hnl Hend). constructor. }
  cbn [items_of_glob].
  destruct (Ascii.eqb_spec ch "?") as [->|Hopt].
  { rewrite item_of_char_opt. destruct name as [|a s]; cbn [match_items].
    - intros H. apply gm_opt_none. by apply IH.
    - apply no_newline_cons in Hnl as Hnl'. destruct Hnl' as [Ha Hs].
      intros [[_ H]%andb_true_iff|H]%orb_true_iff.
      + apply gm_opt_one. by apply IH.
      + apply gm_opt_none. by apply IH. }
  destruct (Ascii.eqb_spec ch "*") as [->|Hstar].
  { rewrite item_of_char_star.
    induction name as [|a s IHs].
    - rewrite match_star_nil. intros H. apply gm_star_none. by apply IH.
    - apply no_newline_cons in Hnl as Hnl'. destruct Hnl' as [Ha Hs].
      rewrite match_star_cons.
      intros [[_ H]%andb_true_iff|H]%orb_true_iff.
      + apply gm_star_more. by apply IHs.
      + apply gm_star_none. by apply IH. }
  rewrite item_of_char_lit by done.
  destruct name as [|a s]; cbn [match_items]; [done|].
  apply no_newline_cons in Hnl as [Ha Hs].
  intros [->%Ascii.eqb_eq H]%andb_true_iff.
  apply gm_lit; [done|done|]. by apply IH.
Qed.

Lemma match_items_complete glob name :
  no_newline name ->
  glob_matches glob name -> match_items (items_of_glob glob) name = true.
Proof.
  intros Hnl Hm. induction Hm as
    [|p s Hm IH|p a s Hm IH|p s Hm IH|p a s Hm IH|ch p s H1 H2 Hm IH].
  - done.
  - cbn [items_of_glob]. rewrite item_of_char_star.
    destruct s as [|a s]; [by rewrite match_star_nil; apply IH|].
    rewrite match_star_cons. apply orb_true_iff. right. by apply IH.
  - apply no_newline_cons in Hnl as [Ha Hs].
    cbn [items_of_glob] in *. rewrite item_of_char_star in *.
    rewrite match_star_cons, Ha, (IH Hs). done.
  - cbn [items_of_glob]. rewrite item_of_char_opt.
    destruct s as [|a s]; cbn [match_items]; [by apply IH|].
    apply orb_true_iff. right. by apply IH.
  - apply no_newline_cons in Hnl as [Ha Hs].
    cbn [items_of_glob]. rewrite item_of_char_opt. cbn [match_items].
    by rewrite Ha, (IH Hs).
  - apply no_newline_cons in Hnl as [Ha Hs].
    cbn [items_of_glob]. rewrite item_of_char_lit by done. cbn [match_items].
    by rewrite Ascii.eqb_refl, (IH Hs).
Qed.

Lemma re_match_globs globs name :
  no_newline name ->
  re_match (map (fun g => items_of_glob (glob_base g)) globs) name = true
  <-> exists glob, In glob globs /\ glob_matches (glob_base glob) name.
Proof.
  intros Hnl. unfold re_match. rewrite existsb_exists. split.
  - intros (branch & Hin & Hmatch). apply in_map_iff in Hin as (g & <- & Hg).
    exists g. split; [done|]. by apply match_items_sound.
  - intros (g & Hg & Hmatch). exists (items_of_glob (glob_base g)). split.
    + apply in_map_iff. by exists g.
    + by apply match_items_complete.
Qed.

(** *** The base name of a selector *)

Lemma mem_char_append ch s t :
  mem_char ch (s +:+ t) = mem_char ch s || mem_char ch t.
Proof.
  induction s as [|a s IH]; [done|].
  rewrite append_cons. cbn [mem_char]. by rewrite IH, orb_assoc.
Qed.

Lemma path_tail_no_slash file : mem_char "/" file = false -> path_tail file = file.
Proof.
  destruct file as [|a r]; [done|]. cbn [mem_char path_tail].
  intros [Ha Hr]%orb_false_iff. by rewrite Hr, Ha.
Qed.

Lemma path_tail_dir dir file :
  mem_char "/" file = false -> path_tail (dir +:+ String "/" file) = file.
Proof.
  intros Hfile. induction dir as [|a dir IH].
  - rewrite append_nil_l. cbn [path_tail]. by rewrite Hfile.
  - rewrite append_cons. cbn [path_tail].
    rewrite mem_char_append. cbn [mem_char]. rewrite orb_true_r. exact IH.
Qed.

Lemma before_last_dot_none s : mem_char "." s = false -> before_last_dot s = None.
Proof.
  induction s as [|a s IH]; [done|]. cbn [mem_char before_last_dot].
  intros [Ha Hs]%orb_false_iff. by rewrite (IH Hs), Ha.
Qed.

Lemma before_last_dot_ext stem ext :
  mem_char "." ext = false ->
  before_last_dot (stem +:+ String "." ext) = Some stem.
Proof.
  intros Hext. induction stem as [|a stem IH].
  - rewrite append_nil_l. cbn [before_last_dot].
    by rewrite before_last_dot_none.
  - rewrite append_cons. cbn [before_last_dot]. by rewrite IH.
Qed.

Lemma splitext_root_ext stem ext :
  mem_char "." ext = false -> all_dots stem = false ->
  splitext_root (stem +:+ String "." ext) = stem.
Proof.
  intros Hext Hstem. unfold splitext_root.
  by rewrite before_last_dot_ext, Hstem.
Qed.

Lemma glob_base_plain glob :
  mem_char "." glob = false -> mem_char "/" glob = false ->
  glob_base glob = glob.
Proof. intros H1 H2. unfold glob_base. by rewrite H1, H2. Qed.

Lemma glob_base_filename dir stem ext :
  mem_char "/" stem = false -> all_dots stem = false ->
  mem_char "/" ext = false -> mem_char "." ext = false ->
  glob_base (dir +:+ String "/" (stem +:+ String "." ext)) = stem
  /\ glob_base (stem +:+ String "." ext) = stem.
Proof.
  intros Hs1 Hs2 He1 He2.
  assert (Hfile : mem_char "/" (stem +:+ String "." ext) = false).
  { rewrite mem_char_append. cbn [mem_char]. by rewrite Hs1, He1. }
  unfold glob_base. split.
  - rewrite (mem_char_append "/"). cbn [mem_char].
    rewrite Ascii.eqb_refl. rewrite orb_true_l, !orb_true_r.
    rewrite path_tail_dir by done. by apply splitext_root_ext.
  - rewrite (mem_char_append "."). cbn [mem_char].
    rewrite Ascii.eqb_refl. rewrite orb_true_l, orb_true_r. cbn [orb].
    rewrite path_tail_no_slash by done. by apply splitext_root_ext.
Qed.

(** *** The selected names *)

Lemma select_names_globs metadata_tables glob globs :
  ascii_globs (glob :: globs) = true ->
  select_names metadata_tables (glob :: globs)
  = Ok (List.filter
          (re_match (map (fun g => items_of_glob (glob_base g))
                         (glob :: globs)))
          (metadata_keys metadata_tables)).
Proof.
  intros Hascii. unfold select_names, filter_names.
  destruct (re_compile_wildcards glob globs Hascii) as (regex & -> & Hre).
  by rewrite Hre.
Qed.

Lemma select_names_raises metadata_tables tables :
  ascii_globs tables = false ->
  select_names metadata_tables tables = Raise UnicodeDecodeError.
Proof.
  intros Hascii. destruct tables as [|glob globs]; [done|].
  unfold select_names, filter_names. by rewrite wildcards_to_regex_raises.
Qed.

Lemma select_names_ok metadata_tables tables :
  ascii_globs tables = true ->
  exists table_names,
    select_names metadata_tables tables = Ok table_names
    /\ forall table_name, In table_name table_names ->
         In table_name (metadata_keys metadata_tables).
Proof.
  intros Hascii. destruct tables as [|glob globs].
  - by exists (metadata_keys metadata_tables).
  - rewrite select_names_globs by done. eexists. split; [reflexivity|].
    by intros table_name [? _]%filter_In.
Qed.

(** The selection returns names of the schema or raises on a selector
    that is not ASCII. *)
Lemma select_names_cases metadata_tables tables :
  match select_names metadata_tables tables with
  | Ok table_names =>
    ascii_globs tables = true
    /\ forall table_name, In table_name table_names ->
         In table_name (metadata_keys metadata_tables)
  | Raise e => ascii_globs tables = false /\ e = UnicodeDecodeError
  end.
Proof.
  destruct (ascii_globs tables) eqn:Hascii.
  - destruct (select_names_ok metadata_tables tables Hascii)
      as (names & -> & Hkeys). done.
  - by rewrite select_names_raises.
Qed.

Lemma metadata_getitem_key metadata_tables table_name :
  In table_name (metadata_keys metadata_tables) ->
  exists table, metadata_getitem metadata_tables table_name = Ok table
                /\ name table = table_name.
Proof.
  unfold metadata_keys, metadata_getitem.
  induction metadata_tables as [|t tables IH]; simpl; [done|].
  destruct (String.eqb_spec (name t) table_name) as [Heq|Hne].
  - intros _. by exists t.
  - intros [?|Hin]; [done|]. by apply IH.
Qed.

Lemma metadata_getitem_keys metadata_tables table_names :
  (forall table_name, In table_name table_names ->
     In table_name (metadata_keys metadata_tables)) ->
  exists table_objs,
    map_result (metadata_getitem metadata_tables) table_names = Ok table_objs
    /\ map name table_objs = table_names.
Proof.
  induction table_names as [|n names IH]; intros Hkeys; simpl.
  - by exists [].
  - destruct (metadata_getitem_key metadata_tables n) as (t & -> & Hn);
      [apply Hkeys; by left|].
    destruct IH as (objs & -> & Hobjs); [intros ? ?; apply Hkeys; by right|].
    exists (t :: objs). simpl. by rewrite Hn, Hobjs.
Qed.

(** C6 (as amended): each character of a selector is written as the regex
    [.*] for [*], [.?] for [?] and as an escaped text that denotes the
    character itself otherwise; for the empty list of selectors every
    table of the schema is selected; for a list that is not empty and
    whose globs are ASCII, a table name (without line break) is selected
    if and only if it is a key of the schema and matches, as a whole and
    case-sensitively, the glob of at least one selector; a glob with a
    byte outside ASCII makes the selection raise [UnicodeDecodeError]; and
    the glob of a selector with a dot or a slash is the root
    [os.path.splitext] leaves of what follows its last slash, so
    [dir/stem.ext] and [stem.ext] stand for [stem], while any other
    selector is its own glob. *)
Theorem wildcard_selection metadata_tables tables :
  (forall char,
     _wildcard_char_to_regex char
     = (if Ascii.eqb char "?" then ".?"
        else if Ascii.eqb char "*" then ".*" else re_escape char)
     /\ re_compile ("^(?:" +:+ _wildcard_char_to_regex char +:+ ")$")
        = Some [[if Ascii.eqb char "?" then AnyOpt
                 else if Ascii.eqb char "*" then AnyStar else Lit char]])
  /\ select_names metadata_tables [] = Ok (metadata_keys metadata_tables)
  /\ (tables <> [] -> ascii_globs tables = true ->
      exists table_names,
        select_names metadata_tables tables = Ok table_names
        /\ forall table_name, no_newline table_name ->
             (In table_name table_names <->
              In table_name (metadata_keys metadata_tables)
              /\ exists glob, In glob tables
                              /\ glob_matches (glob_base glob) table_name))
  /\ (ascii_globs tables = false ->
      select_names metadata_tables tables = Raise UnicodeDecodeError)
  /\ (forall glob,
        mem_char "." glob || mem_char "/" glob = true ->
        glob_base glob = splitext_root (path_tail glob))
  /\ (forall glob,
        mem_char "." glob = false -> mem_char "/" glob = false ->
        glob_base glob = glob)
  /\ (forall dir stem ext,
        mem_char "/" stem = false -> all_dots stem = false ->
        mem_char "/" ext = false -> mem_char "." ext = false ->
        glob_base (dir +:+ String "/" (stem +:+ String "." ext)) = stem
        /\ glob_base (stem +:+ String "." ext) = stem).
Proof.
  split; [|split; [|split; [|split; [|split; [|split]]]]].
  - intros char. split; [reflexivity|].
    change (re_compile ("^(?:" +:+ ?s)) with (parse_branches s [] []).
    by rewrite parse_wildcard_char.
  - reflexivity.
  - intros Hne Hascii. destruct tables as [|glob globs]; [done|].
    rewrite select_names_globs by done. eexists. split; [reflexivity|].
    intros table_name Hnl. rewrite filter_In.
    by rewrite (re_match_globs (glob :: globs) table_name Hnl).
  - apply select_names_raises.
  - intros glob Hfile. unfold glob_base. by rewrite Hfile.
  - apply glob_base_plain.
  - apply glob_base_filename.
Qed.

Lemma wildcard_selection_witness :
  ["no*"; "data/item?.csv"] <> []
  /\ ascii_globs ["no*"; "data/item?.csv"] = true
  /\ exists table_names,
       select_names Scenario.schema ["no*"; "data/item?.csv"] = Ok table_names
       /\ forall table_name, no_newline table_name ->
            (In table_name table_names <->
             In table_name (metadata_keys Scenario.schema)
             /\ exists glob, In glob ["no*"; "data/item?.csv"]
                             /\ glob_matches (glob_base glob) table_name).
Proof.
  assert (H1 : ["no*"; "data/item?.csv"] <> []) by discriminate.
  split; [exact H1|]. split; [reflexivity|].
  exact (proj1 (proj2 (proj2 (wildcard_selection Scenario.schema
                                ["no*"; "data/item?.csv"]))) H1 eq_refl).
Defined.

(** A selector with a byte outside ASCII: the selection raises. *)
Example non_ascii_selection_raises :
  select_names Scenario.schema [String "233"%char "cole"]
  = Raise UnicodeDecodeError
  /\ select_names Scenario.schema ["nodes"; String "233"%char "cole"]
     = Raise UnicodeDecodeError
  /\ select_names Scenario.schema [String "233"%char "/nodes.csv"]
     = Ok ["nodes"].
Proof. repeat split; vm_compute; reflexivity. Qed.

(** C6 fails as stated for the empty list of selectors: every table is
    selected although no selector matches. *)
Lemma empty_selection_counterexample :
  select_names Scenario.schema [] = Ok ["nodes"; "items"]
  /\ ~ (exists glob, In glob [] /\ glob_matches (glob_base glob) "nodes").
Proof. split; [reflexivity|]. by intros (glob & [] & _). Qed.

End Wildcards.

(** ** Drop order and load order *)

Section DropOrder.

Import Loader OrderSpec.

(** C5: whatever the selectors, [load] run with [drop_tables] either
    raises [UnicodeDecodeError] on a selector that is not ASCII, before
    anything is dropped or created, or first drops the selected tables in
    the reverse of the order [sort_tables] gives them, then creates them
    in that order and loads them in that same order: the order of the
    drops is exactly the reverse of the order of creation and load. *)
Theorem drop_order_reverses_load_order metadata_tables sort_tables
  default_directory tables directory verbose st :
  if Wildcard.ascii_globs tables then
    exists table_names table_objs,
      select_names metadata_tables tables = Ok table_names
      /\ map_result (metadata_getitem metadata_tables) table_names
         = Ok table_objs
      /\ map name table_objs = table_names
      /\ let order := sort_tables table_objs in
         let events := schema_events true verbose order in
         load metadata_tables sort_tables default_directory tables directory
              true verbose st
         = for_each (load_table (_get_verbose_prints verbose).1
                                (_get_verbose_prints verbose).2
                                (directory_or_default default_directory
                                                      directory))
             order (with_events st events)
         /\ Trace.created events = map name order
         /\ Trace.dropped events = rev (map name order)
         /\ Trace.dropped events = rev (Trace.created events)
  else
    load metadata_tables sort_tables default_directory tables directory
         true verbose st
    = (Raise UnicodeDecodeError, st).
Proof.
  destruct (Wildcard.ascii_globs tables) eqn:Hascii.
  - destruct (select_names_ok metadata_tables tables Hascii)
      as (names & Hnames & Hkeys).
    destruct (metadata_getitem_keys metadata_tables names Hkeys)
      as (objs & Hobjs & Hmap).
    exists names, objs. split; [done|]. split; [done|]. split; [done|].
    cbv zeta. split; [by apply (load_run _ _ _ _ _ _ _ names objs)|].
    rewrite schema_events_created, schema_events_dropped. done.
  - apply load_select_raises. by apply select_names_raises.
Qed.

End DropOrder.

(** ** The record of a line *)

Section Record.

Import Loader.

Lemma fst_zip_take {A B : Type} (l : list A) (k : list B) :
  (zip l k).*1 = take (length k) l.
Proof.
  revert k. induction l as [|x l IH]; intros [|y k]; simpl; [done..|].
  by rewrite IH.
Qed.

Lemma in_zip_lookup {A B : Type} (l : list A) (k : list B) x y :
  In (x, y) (zip l k) -> exists i, l !! i = Some x /\ k !! i = Some y.
Proof.
  revert k. induction l as [|x' l IH]; intros [|y' k]; simpl; [done..|].
  intros [[= -> ->]|Hin].
  - by exists 0%nat.
  - destruct (IH k Hin) as (i & ? & ?). by exists (S i).
Qed.

Lemma fill_row_dom table_obj pairs (row0 row_data : row) :
  fill_row table_obj pairs row0 = Ok row_data ->
  dom row_data = dom row0 ∪ list_to_set pairs.*1.
Proof.
  revert row0. induction pairs as [|[column_name value] pairs IH];
    intros row0; simpl.
  - intros [= <-]. set_solver.
  - destruct (lookup_column table_obj column_name) as [column|]; [|done].
    destruct (decode_value column value) as [v|]; [|done].
    intros Hfill. rewrite (IH _ Hfill), dom_insert_L. set_solver.
Qed.

Lemma fill_row_values table_obj pairs (row0 row_data : row) key v :
  fill_row table_obj pairs row0 = Ok row_data ->
  row_data !! key = Some v ->
  row0 !! key = Some v
  \/ exists column value,
       In (key, value) pairs
       /\ lookup_column table_obj key = Some column
       /\ decode_value column value = Ok v.
Proof.
  revert row0. induction pairs as [|[column_name value] pairs IH];
    intros row0; simpl.
  - intros [= <-]. by left.
  - destruct (lookup_column table_obj column_name) as [column|] eqn:Hcol;
      [|done].
    destruct (decode_value column value) as [v'|] eqn:Hdec; [|done].
    intros Hfill Hkey. destruct (IH _ Hfill Hkey) as [Hin|Hin].
    + destruct (decide (column_name = key)) as [->|Hne].
      * rewrite lookup_insert_eq in Hin. injection Hin as ->.
        right. exists column, value. split; [by left|done].
      * rewrite lookup_insert_ne in Hin by done. by left.
    + destruct Hin as (column' & value' & Hin & ? & ?).
      right. exists column', value'. split; [by right|done].
Qed.

Lemma lookup_column_name table_obj column_name column :
  lookup_column table_obj column_name = Some column ->
  In column (c table_obj) /\ col_name column = column_name.
Proof.
  unfold lookup_column. intros Hfind. apply find_some in Hfind as [Hin Heq].
  split; [done|]. by apply String.eqb_eq.
Qed.

(** C9 (as amended): the record of a line is built from the empty
    dictionary and holds exactly one value for each header name that is
    paired with a field of the line, that is for the first
    [min(len(header), len(line))] names of the header; each key names a
    column of the table and its value is the decoded field at the position
    of that name.  When the line has at least as many fields as the header
    has names and the header names exactly the columns of the table, the
    record holds exactly one value per column of the table. *)
Theorem record_of_line table_obj column_names csvs (row_data : row) :
  build_row table_obj column_names csvs = Ok row_data ->
  dom row_data = list_to_set (take (length csvs) column_names)
  /\ (forall key v, row_data !! key = Some v ->
        exists i column value,
          column_names !! i = Some key /\ csvs !! i = Some value
          /\ In column (c table_obj) /\ col_name column = key
          /\ decode_value column value = Ok v)
  /\ ((length column_names <= length csvs)%nat ->
      (list_to_set column_names : gset string)
      = list_to_set (map col_name (c table_obj)) ->
      dom row_data = list_to_set (map col_name (c table_obj))).
Proof.
  unfold build_row. intros Hfill.
  assert (Hdom : dom row_data = list_to_set (take (length csvs) column_names)).
  { rewrite (fill_row_dom _ _ _ _ Hfill), fst_zip_take, dom_empty_L.
    set_solver. }
  split; [exact Hdom|]. split.
  - intros key v Hkey.
    destruct (fill_row_values _ _ _ _ key v Hfill Hkey)
      as [Hempty|(column & value & Hin & Hcol & Hdec)]; [done|].
    apply in_zip_lookup in Hin as (i & Hi & Hj).
    apply lookup_column_name in Hcol as [Hc Hname].
    by exists i, column, value.
  - intros Hlen Hheader. rewrite Hdom, take_ge by lia. exact Hheader.
Qed.

Lemma record_of_line_witness :
  build_row Scenario.nodes ["id"; "parent"] ["2"; "1"]
  = Ok (Scenario.node_row "2" (Scenario.text "1"))
  /\ dom (Scenario.node_row "2" (Scenario.text "1"))
     = list_to_set (take (length ["2"; "1"]) ["id"; "parent"]).
Proof.
  assert (H : build_row Scenario.nodes ["id"; "parent"] ["2"; "1"]
              = Ok (Scenario.node_row "2" (Scenario.text "1")))
    by reflexivity.
  split; [exact H|].
  exact (proj1 (record_of_line Scenario.nodes ["id"; "parent"] ["2"; "1"]
                  (Scenario.node_row "2" (Scenario.text "1")) H)).
Defined.

(** C9 fails as stated: an empty line of the file (which [csv.reader]
    yields as an empty list of fields) gives the empty record, and a line
    with one field gives a record without [parent], although the table has
    the columns [id] and [parent]. *)
Lemma record_of_line_counterexample :
  build_row Scenario.nodes ["id"; "parent"] [] = Ok ∅
  /\ build_row Scenario.nodes ["id"; "parent"] ["3"]
     = Ok {[ "id" := Scenario.text "3" ]}
  /\ map col_name (c Scenario.nodes) = ["id"; "parent"]
  /\ ~ (forall csvs (row_data : row),
          build_row Scenario.nodes ["id"; "parent"] csvs = Ok row_data ->
          forall column, In column (c Scenario.nodes) ->
            is_Some (row_data !! col_name column)).
Proof.
  split; [reflexivity|]. split; [reflexivity|]. split; [reflexivity|].
  intros H. specialize (H [] ∅ eq_refl Scenario.id_column).
  destruct H as [v Hv]; [by left|]. done.
Qed.

End Record.

(** ** The dump *)

Section DumpProofs.

Import Dumper.

(** *** Sorting *)

Lemma insert_by_perm {A : Type} (le : A -> A -> bool) x l :
  Permutation (insert_by le x l) (x :: l).
Proof.
  induction l as [|y l IH]; simpl; [done|].
  destruct (le x y); [done|]. rewrite IH. apply perm_swap.
Qed.

Lemma sort_by_perm {A : Type} (le : A -> A -> bool) l :
  Permutation (sort_by le l) l.
Proof.
  induction l as [|x l IH]; simpl; [done|].
  by rewrite insert_by_perm, IH.
Qed.

Lemma insert_by_sorted {A : Type} (le : A -> A -> bool) x l :
  (forall a b, le a b = true \/ le b a = true) ->
  Sorted (fun a b => le a b = true) l ->
  Sorted (fun a b => le a b = true) (insert_by le x l).
Proof.
  intros Htotal. induction 1 as [|y l Hsorted IH Hhd]; simpl.
  - by repeat constructor.
  - destruct (le x y) eqn:Hxy.
    + constructor; [by constructor|by constructor].
    + constructor; [exact IH|].
      destruct l as [|z l]; simpl.
      * constructor. destruct (Htotal x y) as [H|H]; [congruence|done].
      * destruct (le x z).
        -- constructor. destruct (Htotal x y) as [H|H]; [congruence|done].
        -- constructor. by inversion Hhd.
Qed.

Lemma sort_by_sorted {A : Type} (le : A -> A -> bool) l :
  (forall a b, le a b = true \/ le b a = true) ->
  Sorted (fun a b => le a b = true) (sort_by le l).
Proof.
  intros Htotal. induction l as [|x l IH]; simpl; [constructor|].
  by apply insert_by_sorted.
Qed.

(** *** Writing one table *)

Lemma encode_row_ok columns (r : row) :
  (forall col, In col columns -> is_Some (r !! col)) ->
  encode_row columns r = Ok (encoded_line columns r).
Proof.
  unfold encode_row, encoded_line, getattr.
  induction columns as [|col columns IH]; intros Hall; simpl; [done|].
  destruct (Hall col) as [v Hv]; [by left|]. rewrite Hv. simpl.
  rewrite IH; [done|]. intros col' Hin. apply Hall. by right.
Qed.

Lemma write_rows path columns rows content st :
  (forall (r : row), In r rows ->
     forall col, In col columns -> is_Some (r !! col)) ->
  files st !! path = Some content ->
  exists st',
    for_each (fun r => csvs ← lift (encode_row columns r);
                       writerow path csvs) rows st = (Ok tt, st')
    /\ files st'
       = <[path := (content ++ map (encoded_line columns) rows)%list]>
           (files st)
    /\ trace st' = trace st.
Proof.
  revert content st. induction rows as [|r rows IH]; intros content st Hwf Hpath.
  - exists st. simpl. split; [done|]. split; [|done].
    by rewrite app_nil_r, insert_id.
  - cbn [for_each].
    rewrite (encode_row_ok columns r) by (apply Hwf; by left).
    erewrite (bind_ok (lift _ ≫= _)) by reflexivity.
    match goal with |- context [for_each _ rows ?s] =>
      destruct (IH (content ++ [encoded_line columns r])%list s)
        as (st' & Hrun & Hfiles & Htrace)
    end.
    { intros r' Hr'. apply Hwf. by right. }
    { cbn [files]. rewrite Hpath. cbn [default]. apply lookup_insert_eq. }
    exists st'. split; [exact Hrun|]. split; [|exact Htrace].
    rewrite Hfiles. cbn [files]. rewrite Hpath. cbn [default map].
    by rewrite insert_insert_eq, <- app_assoc.
Qed.

Lemma metadata_getitem_in metadata_tables table_name table :
  metadata_getitem metadata_tables table_name = Ok table ->
  In table metadata_tables /\ name table = table_name.
Proof.
  unfold metadata_getitem.
  destruct (find _ metadata_tables) as [t|] eqn:Hfind; [|done].
  intros [= ->]. apply find_some in Hfind as [Hin Heq].
  split; [done|]. by apply String.eqb_eq.
Qed.

Lemma dump_table_run metadata_tables table_rows key_le verbose directory
  table_name table st :
  metadata_getitem metadata_tables table_name = Ok table ->
  rows_well_formed metadata_tables table_rows ->
  exists st',
    dump_table metadata_tables table_rows key_le
      (_get_verbose_prints verbose).1 (_get_verbose_prints verbose).2
      directory table_name st = (Ok tt, st')
    /\ files st'
       = <[csv_path directory (name table)
           := table_file table_rows key_le table]> (files st)
    /\ trace st' = (trace st ++ table_prints verbose table_name)%list.
Proof.
  intros Hget Hwf. destruct (metadata_getitem_in _ _ _ Hget) as [Hin Hname].
  unfold dump_table.
  erewrite bind_ok by apply print_start_run.
  rewrite Hget, bind_lift_ok.
  erewrite bind_ok by reflexivity.
  erewrite bind_ok by reflexivity.
  match goal with |- context [mbind _ (for_each _ ?rows) ?s] =>
    destruct (write_rows (csv_path directory table_name)
                (map col_name (c table)) rows [map col_name (c table)] s)
      as (st1 & Hrun & Hfiles & Htrace)
  end.
  { intros r Hr col Hcol. apply in_map_iff in Hcol as (column & <- & Hcolumn).
    apply (Hwf table r column Hin); [|done].
    eapply Permutation_in; [apply sort_by_perm|exact Hr]. }
  { cbn [files with_events]. by rewrite !lookup_insert_eq. }
  erewrite bind_ok by exact Hrun.
  rewrite print_done_run. eexists. split; [reflexivity|]. split.
  - cbn [files with_events]. rewrite Hfiles. cbn [files with_events].
    rewrite lookup_insert_eq. cbn [default app].
    rewrite !insert_insert_eq. by rewrite Hname.
  - cbn [trace with_events]. rewrite Htrace. cbn [trace with_events].
    unfold table_prints. destruct verbose; [|by rewrite !app_nil_r].
    by rewrite <- app_assoc.
Qed.

Lemma dump_tables_run metadata_tables table_rows key_le verbose directory
  table_names table_objs st :
  map_result (metadata_getitem metadata_tables) table_names = Ok table_objs ->
  rows_well_formed metadata_tables table_rows ->
  exists st',
    for_each (dump_table metadata_tables table_rows key_le
                (_get_verbose_prints verbose).1
                (_get_verbose_prints verbose).2 directory)
      table_names st = (Ok tt, st')
    /\ files st'
       = dumped_files table_rows key_le directory table_objs (files st)
    /\ trace st' = (trace st ++ dump_prints verbose table_names)%list.
Proof.
  intros Hobjs Hwf. revert table_objs st Hobjs.
  induction table_names as [|n names IH]; intros objs st; simpl.
  - intros [= <-]. exists st. by rewrite app_nil_r.
  - destruct (metadata_getitem metadata_tables n) as [t|] eqn:Hget; [|done].
    destruct (map_result _ names) as [objs'|] eqn:Hrest; [|done].
    intros [= <-].
    destruct (dump_table_run metadata_tables table_rows key_le verbose
                directory n t st Hget Hwf) as (st1 & Hrun & Hfiles & Htrace).
    erewrite bind_ok by exact Hrun.
    destruct (IH objs' st1 eq_refl) as (st' & Hrun' & Hfiles' & Htrace').
    exists st'. split; [exact Hrun'|]. split.
    + rewrite Hfiles', Hfiles. reflexivity.
    + rewrite Htrace', Htrace. unfold dump_prints. cbn [map concat].
      by rewrite <- app_assoc.
Qed.

(** *** Dumping twice *)

Lemma dumped_files_snoc table_rows key_le directory tables table fs :
  dumped_files table_rows key_le directory (tables ++ [table]) fs
  = <[csv_path directory (name table) := table_file table_rows key_le table]>
      (dumped_files table_rows key_le directory tables fs).
Proof. unfold dumped_files. by rewrite foldl_app. Qed.



Lemma dump_run metadata_tables default_directory table_rows key_le tables
  directory verbose selected table_objs st :
  select_names metadata_tables tables = Ok selected ->
  map_result (metadata_getitem metadata_tables)
             (sort_by String.leb selected) = Ok table_objs ->
  rows_well_formed metadata_tables table_rows ->
  exists st',
    dump metadata_tables default_directory table_rows key_le tables directory
         verbose st = (Ok tt, st')
    /\ files st'
       = dumped_files table_rows key_le
           (directory_or_default default_directory directory) table_objs
           (files st)
    /\ trace st'
       = (trace st ++ dump_prints verbose (sort_by String.leb selected))%list.
Proof.
  intros Hsel Hobjs Hwf. unfold dump.
  pose proof (dump_tables_run metadata_tables table_rows key_le verbose
                (directory_or_default default_directory directory)
                (sort_by String.leb selected) table_objs) as Hrun.
  destruct (_get_verbose_prints verbose) as [print_start print_done].
  cbn [fst snd] in Hrun. rewrite Hsel, bind_lift_ok.
  by apply Hrun.
Qed.

Lemma dump_select_raises metadata_tables default_directory table_rows key_le
  tables directory verbose e st :
  select_names metadata_tables tables = Raise e ->
  dump metadata_tables default_directory table_rows key_le tables directory
       verbose st = (Raise e, st).
Proof.
  intros Hsel. unfold dump.
  destruct (_get_verbose_prints verbose) as [print_start print_done].
  by rewrite Hsel.
Qed.


Lemma scenario_rows_well_formed :
  rows_well_formed Scenario.schema scenario_rows.
Proof.
  intros table r column [<-|[<-|[]]]; cbn.
  - intros [<-|[<-|[<-|[]]]] [<-|[<-|[]]]; by eexists.
  - intros [].
Qed.



(** The schema lists [nodes] before [items]; the dump goes through
    [items] first. *)
Example dump_scenario_prints :
  metadata_keys Scenario.schema = ["nodes"; "items"]
  /\ trace (dump Scenario.schema "data" scenario_rows int_key_le [] None true
                 (initial_state ∅)).2
     = [EPrintStart (print_start_text "items"); EPrintDone "ok";
        EPrintStart (print_start_text "nodes"); EPrintDone "ok"].
Proof. split; vm_compute; reflexivity. Qed.

(** The files the dump of the scenario writes. *)
Example dump_scenario_files :
  files (dump Scenario.schema "data" scenario_rows int_key_le [] None false
              (initial_state ∅)).2
  = {[ "data/items.csv" := [["id"; "label"; "flag"]];
       "data/nodes.csv" := [["id"; "parent"]; ["1"; ""]; ["2"; "1"];
                            ["3"; "1"]] ]}.
Proof. vm_compute. reflexivity. Qed.

End DumpProofs.

(** * Further properties *)

(** ** The start marker *)

Section StartMarker.

Lemma length_substring_0 n s :
  String.length (substring 0 n s) = Nat.min n (String.length s).
Proof.
  revert s. induction n as [|n IH]; intros [|a s]; simpl; [done..|].
  by rewrite IH.
Qed.

Lemma length_append_string (s t : string) :
  String.length (s +:+ t) = (String.length s + String.length t)%nat.
Proof.
  induction s as [|a s IH]; [done|]. rewrite append_cons. simpl. by rewrite IH.
Qed.

Lemma length_spaces n : String.length (spaces n) = n.
Proof. induction n as [|n IH]; simpl; [done|]. by rewrite IH. Qed.

(** The start marker is always 69 characters wide, whatever the length of
    the name: the first 66 characters of the name at most, three dots,
    and spaces up to the column where the status is printed.  A name of
    66 characters or less is shown in full. *)
Theorem print_start_text_width thing :
  String.length (print_start_text thing) = 69%nat
  /\ print_start_text thing
     = substring 0 66 thing +:+ "..."
       +:+ spaces (66 - Nat.min 66 (String.length thing))
  /\ ((String.length thing <= 66)%nat ->
      print_start_text thing
      = thing +:+ "..." +:+ spaces (66 - String.length thing)).
Proof.
  assert (Htext : print_start_text thing
                  = substring 0 66 thing +:+ "..."
                    +:+ spaces (66 - Nat.min 66 (String.length thing))).
  { unfold print_start_text. cbv zeta. by rewrite length_substring_0. }
  split; [|split; [exact Htext|]].
  - rewrite Htext, !length_append_string, length_substring_0, length_spaces.
    change (String.length "...") with 3%nat. lia.
  - intros Hshort. rewrite Htext, Nat.min_r by done.
    assert (substring 0 66 thing = thing) as ->; [|done].
    assert (Hgen : forall n s, (String.length s <= n)%nat ->
                               substring 0 n s = s).
    { clear. induction n as [|n IH]; intros [|a s]; simpl; try done;
        [lia|]. intros Hlen. rewrite IH; [done|lia]. }
    by apply Hgen.
Qed.

Lemma print_start_text_width_witness :
  (String.length "pokemon" <= 66)%nat
  /\ print_start_text "pokemon"
     = "pokemon" +:+ "..." +:+ spaces (66 - String.length "pokemon").
Proof.
  split; [simpl; lia|].
  apply (print_start_text_width "pokemon"). simpl. lia.
Defined.

End StartMarker.

(** ** What [load] and [dump] do to the outside *)

Section EffectsOfRuns.

Import Loader Dumper Effects.

Section Allowed.

Variable allowed : event -> Prop.
Variable tr0 : list event.

Lemma grows_by_with_events st evs :
  grows_by allowed tr0 st -> Forall allowed evs ->
  grows_by allowed tr0 (with_events st evs).
Proof.
  intros (evs0 & Htrace & Hall) Hevs. exists (evs0 ++ evs)%list.
  split; [|by apply Forall_app]. cbn [trace with_events].
  by rewrite Htrace, <- app_assoc.
Qed.

Lemma grows_by_same_trace st st' :
  trace st' = trace st -> grows_by allowed tr0 st -> grows_by allowed tr0 st'.
Proof. intros Heq (evs & Htrace & Hall). exists evs. by rewrite Heq. Qed.

Lemma grows_by_emit e :
  allowed e -> hoare (grows_by allowed tr0) (emit e) (grows_by allowed tr0).
Proof.
  intros He st Hst. rewrite emit_run. apply grows_by_with_events; [done|].
  by repeat constructor.
Qed.

Lemma grows_by_prints verbose thing :
  (verbose = true ->
   forall s, allowed (EPrintStart s) /\ allowed (EPrintDone s)) ->
  hoare (grows_by allowed tr0) ((_get_verbose_prints verbose).1 thing)
        (grows_by allowed tr0)
  /\ hoare (grows_by allowed tr0) ((_get_verbose_prints verbose).2 thing)
           (grows_by allowed tr0).
Proof.
  intros Hpr. split; intros st Hst.
  - rewrite print_start_run. apply grows_by_with_events; [done|].
    destruct verbose; [|constructor]. repeat constructor. by apply Hpr.
  - rewrite print_done_run. apply grows_by_with_events; [done|].
    destruct verbose; [|constructor]. repeat constructor. by apply Hpr.
Qed.

(** The events of the load of one table. *)
Variable table_name : string.
Hypothesis allowed_many : forall rows, allowed (EExecuteMany table_name rows).
Hypothesis allowed_one : forall r, allowed (EExecuteOne table_name r).
Hypothesis allowed_commit : allowed ECommit.

Lemma grows_by_insert_and_commit :
  hoare (grows_by allowed tr0) (insert_and_commit table_name)
        (grows_by allowed tr0).
Proof.
  intros st Hst.
  apply (grows_by_with_events st
           [EExecuteMany table_name (new_rows st); ECommit] Hst).
  by repeat constructor.
Qed.

Lemma grows_by_mark_seen (row_data : row) :
  hoare (grows_by allowed tr0) (mark_seen row_data) (grows_by allowed tr0).
Proof.
  intros st Hst. unfold mark_seen. by destruct (getitem row_data "id").
Qed.

Lemma grows_by_enqueue (row_data : row) :
  hoare (grows_by allowed tr0) (enqueue table_name row_data)
        (grows_by allowed tr0).
Proof.
  unfold enqueue. apply hoare_bind_same; [by intros st Hst|intros _].
  apply hoare_bind_same; [apply hoare_get|intros st0].
  destruct (batch_size <=? length (new_rows st0))%nat;
    [apply grows_by_insert_and_commit|apply hoare_ret].
Qed.

Lemma grows_by_handle_row self_ref_columns (row_data : row) :
  hoare (grows_by allowed tr0)
        (handle_row table_name self_ref_columns row_data)
        (grows_by allowed tr0).
Proof.
  unfold handle_row. apply hoare_bind_same.
  - destruct self_ref_columns as [|col0 cols]; [apply hoare_ret|].
    unfold resolve. apply hoare_bind_same; [apply hoare_lift|intros ids].
    apply hoare_bind_same; [apply hoare_get|intros st0].
    destruct ids as [|v ids].
    + apply hoare_bind_same; [apply grows_by_mark_seen|intros _].
      apply hoare_ret.
    + destruct (all_seen (seen_ids st0) (v :: ids)).
      * apply hoare_bind_same; [apply grows_by_insert_and_commit|intros _].
        apply hoare_bind_same; [apply grows_by_mark_seen|intros _].
        apply hoare_ret.
      * apply hoare_bind_same; [by intros st Hst|intros _]. apply hoare_ret.
  - intros [|]; [apply grows_by_enqueue|apply hoare_ret].
Qed.

Lemma grows_by_replay deferred :
  hoare (grows_by allowed tr0) (replay table_name deferred)
        (grows_by allowed tr0).
Proof.
  destruct deferred as [row_data ids]. unfold replay.
  apply hoare_bind_same; [apply hoare_get|intros st0].
  apply hoare_bind_same.
  - destruct (negb (all_seen (seen_ids st0) ids)); [|apply hoare_ret].
    apply hoare_bind_same; [apply hoare_raise|intros ?]. apply hoare_raise.
  - intros _. apply hoare_bind_same; [by apply grows_by_emit|intros _].
    apply grows_by_mark_seen.
Qed.

End Allowed.

Lemma grows_by_load_table allowed tr0 verbose directory table_obj :
  (verbose = true ->
   forall s, allowed (EPrintStart s) /\ allowed (EPrintDone s)) ->
  (forall rows, allowed (EExecuteMany (name table_obj) rows)) ->
  (forall r, allowed (EExecuteOne (name table_obj) r)) ->
  allowed ECommit ->
  hoare (grows_by allowed tr0)
    (load_table (_get_verbose_prints verbose).1 (_get_verbose_prints verbose).2
                directory table_obj)
    (grows_by allowed tr0).
Proof.
  intros Hpr Hmany Hone Hcommit. unfold load_table.
  apply hoare_bind_same; [by apply grows_by_prints|intros _].
  apply hoare_bind_same; [apply hoare_get|intros st0].
  destruct (files st0 !! csv_path directory (name table_obj)) as [csvfile|];
    [|by apply grows_by_prints].
  destruct csvfile as [|header lines]; [apply hoare_raise|].
  apply hoare_bind_same; [apply hoare_lift|intros column_names].
  apply hoare_bind_same; [by intros st Hst|intros _].
  apply hoare_bind_same.
  { apply hoare_for_each. intros csvs. unfold process_row.
    apply hoare_bind_same; [apply hoare_lift|intros row_data].
    by apply grows_by_handle_row. }
  intros _. apply hoare_bind_same;
    [by apply grows_by_insert_and_commit|intros _].
  apply hoare_bind_same; [apply hoare_get|intros st1].
  apply hoare_bind_same.
  { apply hoare_for_each. intros d. by apply grows_by_replay. }
  intros _. apply hoare_bind_same; [by apply grows_by_emit|intros _].
  by apply grows_by_prints.
Qed.

Lemma map_result_getitem_names metadata_tables table_names table_objs :
  map_result (metadata_getitem metadata_tables) table_names = Ok table_objs ->
  map name table_objs = table_names.
Proof.
  revert table_objs. induction table_names as [|n names IH]; intros objs; simpl.
  - by intros [= <-].
  - destruct (metadata_getitem metadata_tables n) as [t|] eqn:Hget; [|done].
    destruct (map_result _ names) as [objs'|]; [|done].
    intros [= <-]. simpl. rewrite (IH objs' eq_refl).
    by destruct (metadata_getitem_in _ _ _ Hget) as [_ ->].
Qed.

Lemma hoare_for_each_in {A : Type} P (body : A -> M unit) l :
  (forall x, In x l -> hoare P (body x) P) -> hoare P (for_each body l) P.
Proof.
  induction l as [|x l IH]; intros Hbody; simpl.
  - apply hoare_ret.
  - apply hoare_bind_same; [apply Hbody; by left|intros _].
    apply IH. intros y Hy. apply Hbody. by right.
Qed.

Lemma schema_events_allowed table_names drop_tables verbose order :
  (forall t, In t order -> In (name t) table_names) ->
  Forall (load_event table_names drop_tables verbose)
         (OrderSpec.schema_events drop_tables verbose order).
Proof.
  intros Hnames. unfold OrderSpec.schema_events. apply Forall_app. split.
  - destruct drop_tables; [|constructor].
    apply Forall_app. split; [destruct verbose; by repeat constructor|].
    apply Forall_app. split; [|destruct verbose; by repeat constructor].
    apply List.Forall_forall. intros e (t & <- & Ht)%in_map_iff.
    split; [done|]. apply Hnames. by apply in_rev.
  - apply List.Forall_forall. intros e (t & <- & Ht)%in_map_iff. by apply Hnames.
Qed.

(** A [load] reaches no table outside the selection: when the selection
    raises, so does the load, and nothing is printed, dropped or created;
    otherwise, whether it returns or raises, it prints in verbose mode
    only, drops only when asked to, and every drop, create and insert it
    issues names a selected table (given that [sort_tables] returns tables
    of the list it was given). *)
Theorem load_touches_selected_tables_only metadata_tables sort_tables
  default_directory tables directory drop_tables verbose st :
  (forall l t, In t (sort_tables l) -> In t l) ->
  match select_names metadata_tables tables with
  | Ok table_names =>
    grows_by (load_event table_names drop_tables verbose) (trace st)
      (load metadata_tables sort_tables default_directory tables directory
            drop_tables verbose st).2
  | Raise e =>
    load metadata_tables sort_tables default_directory tables directory
         drop_tables verbose st = (Raise e, st)
  end.
Proof.
  intros Hsort.
  pose proof (select_names_cases metadata_tables tables) as Hcases.
  destruct (select_names metadata_tables tables) as [names|e] eqn:Hnames;
    [|by apply load_select_raises].
  destruct Hcases as [_ Hkeys].
  destruct (metadata_getitem_keys metadata_tables names Hkeys)
    as (objs & Hobjs & Hmap).
  rewrite (load_run _ _ _ _ _ _ _ names objs) by done.
  assert (Hin : forall t, In t (sort_tables objs) -> In (name t) names).
  { intros t Ht. rewrite <- Hmap. apply in_map. by apply Hsort. }
  apply hoare_for_each_in.
  - intros t Ht. apply grows_by_load_table; try done.
    + intros rows. by apply Hin.
    + intros r. by apply Hin.
  - apply grows_by_with_events; [|by apply schema_events_allowed].
    exists []. by rewrite app_nil_r.
Qed.

Lemma load_touches_selected_tables_only_witness :
  (forall l t, In t ((fun table_objs : list Table => table_objs) l) -> In t l)
  /\ select_names Scenario.schema ["nodes"] = Ok ["nodes"]
  /\ grows_by (load_event ["nodes"] false false) []
       (load Scenario.schema (fun table_objs => table_objs) "data"
             ["nodes"] None false false
             (initial_state Scenario.nodes_files)).2.
Proof.
  assert (H : forall l t,
            In t ((fun table_objs : list Table => table_objs) l) -> In t l)
    by (by intros l t Ht).
  split; [exact H|]. split; [reflexivity|].
  exact (load_touches_selected_tables_only Scenario.schema
           (fun table_objs => table_objs) "data" ["nodes"] None false false
           (initial_state Scenario.nodes_files) H).
Defined.

(** *** The files under [load] *)

Lemma files_mark_seen fs0 (row_data : row) :
  hoare (fun st => files st = fs0) (mark_seen row_data)
        (fun st => files st = fs0).
Proof.
  intros st Hst. unfold mark_seen. by destruct (getitem row_data "id").
Qed.

Lemma files_handle_row fs0 table_name self_ref_columns (row_data : row) :
  hoare (fun st => files st = fs0)
        (handle_row table_name self_ref_columns row_data)
        (fun st => files st = fs0).
Proof.
  unfold handle_row. apply hoare_bind_same.
  - destruct self_ref_columns as [|col0 cols]; [apply hoare_ret|].
    unfold resolve. apply hoare_bind_same; [apply hoare_lift|intros ids].
    apply hoare_bind_same; [apply hoare_get|intros st0].
    destruct ids as [|v ids].
    + apply hoare_bind_same; [apply files_mark_seen|intros _].
      apply hoare_ret.
    + destruct (all_seen (seen_ids st0) (v :: ids)).
      * apply hoare_bind_same; [by intros st Hst|intros _].
        apply hoare_bind_same; [apply files_mark_seen|intros _].
        apply hoare_ret.
      * apply hoare_bind_same; [by intros st Hst|intros _]. apply hoare_ret.
  - intros [|]; [|apply hoare_ret]. unfold enqueue.
    apply hoare_bind_same; [by intros st Hst|intros _].
    apply hoare_bind_same; [apply hoare_get|intros st0].
    destruct (batch_size <=? length (new_rows st0))%nat;
      [by intros st Hst|apply hoare_ret].
Qed.

Lemma files_prints fs0 verbose thing :
  hoare (fun st => files st = fs0) ((_get_verbose_prints verbose).1 thing)
        (fun st => files st = fs0)
  /\ hoare (fun st => files st = fs0) ((_get_verbose_prints verbose).2 thing)
           (fun st => files st = fs0).
Proof.
  split; intros st Hst; [rewrite print_start_run|rewrite print_done_run];
    done.
Qed.

Lemma files_load_table fs0 verbose directory table_obj :
  hoare (fun st => files st = fs0)
    (load_table (_get_verbose_prints verbose).1 (_get_verbose_prints verbose).2
                directory table_obj)
    (fun st => files st = fs0).
Proof.
  unfold load_table.
  apply hoare_bind_same; [apply files_prints|intros _].
  apply hoare_bind_same; [apply hoare_get|intros st0].
  destruct (files st0 !! csv_path directory (name table_obj)) as [csvfile|];
    [|apply files_prints].
  destruct csvfile as [|header lines]; [apply hoare_raise|].
  apply hoare_bind_same; [apply hoare_lift|intros column_names].
  apply hoare_bind_same; [by intros st Hst|intros _].
  apply hoare_bind_same.
  { apply hoare_for_each. intros csvs. unfold process_row.
    apply hoare_bind_same; [apply hoare_lift|intros row_data].
    apply files_handle_row. }
  intros _. apply hoare_bind_same; [by intros st Hst|intros _].
  apply hoare_bind_same; [apply hoare_get|intros st1].
  apply hoare_bind_same.
  { apply hoare_for_each. intros [row_data ids]. unfold replay.
    apply hoare_bind_same; [apply hoare_get|intros st2].
    apply hoare_bind_same.
    - destruct (negb (all_seen (seen_ids st2) ids)); [|apply hoare_ret].
      apply hoare_bind_same; [apply hoare_raise|intros ?]. apply hoare_raise.
    - intros _. apply hoare_bind_same; [by intros st Hst|intros _].
      apply files_mark_seen. }
  intros _. apply hoare_bind_same; [by intros st Hst|intros _].
  apply files_prints.
Qed.

(** A [load] only reads the files: whether it returns or raises, every
    file is afterwards what it was before. *)
Theorem load_leaves_files_unchanged metadata_tables sort_tables
  default_directory tables directory drop_tables verbose st :
  files (load metadata_tables sort_tables default_directory tables directory
              drop_tables verbose st).2 = files st.
Proof.
  pose proof (select_names_cases metadata_tables tables) as Hcases.
  destruct (select_names metadata_tables tables) as [names|e] eqn:Hnames;
    [|by erewrite load_select_raises].
  destruct Hcases as [_ Hkeys].
  destruct (metadata_getitem_keys metadata_tables names Hkeys)
    as (objs & Hobjs & Hmap).
  rewrite (load_run _ _ _ _ _ _ _ names objs) by done.
  apply (hoare_for_each (fun s => files s = files st)); [|done].
  intros t. apply files_load_table.
Qed.

(** *** The session and the files under [dump] *)

Lemma grows_by_dump_table verbose tr0 metadata_tables table_rows key_le
  directory table_name :
  hoare (grows_by (dump_event verbose) tr0)
    (dump_table metadata_tables table_rows key_le
       (_get_verbose_prints verbose).1 (_get_verbose_prints verbose).2
       directory table_name)
    (grows_by (dump_event verbose) tr0).
Proof.
  assert (Hpr : verbose = true ->
                forall s, dump_event verbose (EPrintStart s)
                          /\ dump_event verbose (EPrintDone s)) by done.
  unfold dump_table.
  apply hoare_bind_same; [by apply grows_by_prints|intros _].
  apply hoare_bind_same; [apply hoare_lift|intros table].
  apply hoare_bind_same; [by intros st Hst|intros _].
  apply hoare_bind_same; [by intros st Hst|intros _].
  apply hoare_bind_same; [|intros _; by apply grows_by_prints].
  apply hoare_for_each. intros r.
  apply hoare_bind_same; [apply hoare_lift|intros csvs]. by intros st Hst.
Qed.

(** A [dump] never writes to the database: whether it returns or raises,
    all it adds to the trace is prints, and none unless verbose. *)
Theorem dump_only_prints metadata_tables default_directory table_rows key_le
  tables directory verbose st :
  grows_by (dump_event verbose) (trace st)
    (dump metadata_tables default_directory table_rows key_le tables
          directory verbose st).2.
Proof.
  unfold dump.
  pose proof (grows_by_dump_table verbose (trace st) metadata_tables
                table_rows key_le
                (directory_or_default default_directory directory)) as Htable.
  destruct (_get_verbose_prints verbose) as [print_start print_done].
  cbn [fst snd] in Htable.
  apply (hoare_bind_same (grows_by (dump_event verbose) (trace st))).
  - apply hoare_lift.
  - intros names. by apply hoare_for_each.
  - exists []. by rewrite app_nil_r.
Qed.

Lemma lookup_dump_table path v0 verbose metadata_tables table_rows key_le
  directory table_name :
  path <> csv_path directory table_name ->
  hoare (fun st => files st !! path = v0)
    (dump_table metadata_tables table_rows key_le
       (_get_verbose_prints verbose).1 (_get_verbose_prints verbose).2
       directory table_name)
    (fun st => files st !! path = v0).
Proof.
  intros Hne. unfold dump_table.
  apply hoare_bind_same.
  { intros st Hst. by rewrite print_start_run. }
  intros _. apply hoare_bind_same; [apply hoare_lift|intros table].
  assert (Hwrite : forall fields,
            hoare (fun st => files st !! path = v0)
                  (writerow (csv_path directory table_name) fields)
                  (fun st => files st !! path = v0)).
  { intros fields st Hst. cbn. by rewrite lookup_insert_ne. }
  apply hoare_bind_same.
  { intros st Hst. cbn. by rewrite lookup_insert_ne. }
  intros _. apply hoare_bind_same; [apply Hwrite|intros _].
  apply hoare_bind_same.
  - apply hoare_for_each. intros r.
    apply hoare_bind_same; [apply hoare_lift|intros csvs]. apply Hwrite.
  - intros _ st Hst. by rewrite print_done_run.
Qed.

(** A [dump] writes no file but those of the selected tables: when the
    selection raises, so does the dump, and no file is written; otherwise,
    whether it returns or raises, any path that is not the file of a
    selected table holds afterwards what it held before. *)
Theorem dump_writes_selected_files_only metadata_tables default_directory
  table_rows key_le tables directory verbose st :
  match select_names metadata_tables tables with
  | Ok selected =>
    forall path,
      (forall table_name, In table_name selected ->
         path <> csv_path (directory_or_default default_directory
                                                directory) table_name) ->
      files (dump metadata_tables default_directory table_rows key_le
                  tables directory verbose st).2 !! path
      = files st !! path
  | Raise e =>
    dump metadata_tables default_directory table_rows key_le tables
         directory verbose st = (Raise e, st)
  end.
Proof.
  destruct (select_names metadata_tables tables) as [selected|e] eqn:Hsel;
    [|by apply dump_select_raises].
  intros path Hpath.
  unfold dump.
  pose proof (fun table_name =>
                lookup_dump_table path (files st !! path) verbose
                  metadata_tables table_rows key_le
                  (directory_or_default default_directory directory)
                  table_name) as Htable.
  destruct (_get_verbose_prints verbose) as [print_start print_done].
  cbn [fst snd] in Htable. rewrite Hsel, bind_lift_ok.
  apply (hoare_for_each_in (fun s => files s !! path = files st !! path));
    [|done].
  intros table_name Hin. apply Htable, Hpath.
  eapply Permutation_in; [apply sort_by_perm|exact Hin].
Qed.

Lemma dump_writes_selected_files_only_witness :
  select_names Scenario.schema ["nodes"] = Ok ["nodes"]
  /\ (forall table_name, In table_name ["nodes"] ->
        "data/items.csv" <> csv_path (directory_or_default "data" None)
                                     table_name)
  /\ files (dump Scenario.schema "data" scenario_rows int_key_le ["nodes"]
                 None false (initial_state Scenario.items_files)).2
       !! "data/items.csv"
     = files (initial_state Scenario.items_files) !! "data/items.csv".
Proof.
  assert (H : forall table_name, In table_name ["nodes"] ->
                "data/items.csv" <> csv_path (directory_or_default "data" None)
                                             table_name).
  { intros table_name [<-|[]]. discriminate. }
  split; [reflexivity|]. split; [exact H|].
  exact (dump_writes_selected_files_only Scenario.schema "data"
           scenario_rows int_key_le ["nodes"] None false
           (initial_state Scenario.items_files) "data/items.csv" H).
Defined.

End EffectsOfRuns.

(** ** Pending and committed rows *)

Section DurableRows.

Import Loader Durable ReplaySpec.

Lemma pending_from_app tr1 tr2 pending :
  pending_from (tr1 ++ tr2) pending
  = pending_from tr2 (pending_from tr1 pending).
Proof.
  revert pending. induction tr1 as [|e tr1 IH]; intros pending; [done|].
  destruct e; simpl; apply IH.
Qed.

Lemma committed_from_app tr1 tr2 pending committed :
  Trace.committed_from (tr1 ++ tr2) pending committed
  = Trace.committed_from tr2 (pending_from tr1 pending)
      (Trace.committed_from tr1 pending committed).
Proof.
  revert pending committed.
  induction tr1 as [|e tr1 IH]; intros pending committed; [done|].
  destruct e; simpl; apply IH.
Qed.

Lemma inserted_rows_cons e tr :
  Trace.inserted_rows (e :: tr)
  = (Trace.inserted_rows [e] ++ Trace.inserted_rows tr)%list.
Proof.
  unfold Trace.inserted_rows. destruct e; simpl; by rewrite ?app_nil_r.
Qed.

Lemma inserted_rows_app tr1 tr2 :
  Trace.inserted_rows (tr1 ++ tr2)
  = (Trace.inserted_rows tr1 ++ Trace.inserted_rows tr2)%list.
Proof. unfold Trace.inserted_rows. by rewrite omap_app, join_app. Qed.

(** Every executed row is either committed or pending. *)
Lemma committed_pending_split tr pending committed :
  (Trace.committed_from tr pending committed ++ pending_from tr pending)%list
  = (committed ++ pending ++ Trace.inserted_rows tr)%list.
Proof.
  revert pending committed.
  induction tr as [|e tr IH]; intros pending committed.
  - simpl. by rewrite app_nil_r.
  - rewrite inserted_rows_cons.
    destruct e; simpl; rewrite IH; cbn; rewrite <- ?app_assoc, ?app_nil_r;
      done.
Qed.

Lemma nothing_pending_committed tr :
  pending_rows tr = [] -> Trace.committed_rows tr = Trace.inserted_rows tr.
Proof.
  intros Hp. pose proof (committed_pending_split tr [] []) as Hs.
  unfold pending_rows in Hp. rewrite Hp, app_nil_r in Hs. exact Hs.
Qed.

Lemma pending_rows_prints tr verbose e :
  match e with EPrintStart _ | EPrintDone _ => True | _ => False end ->
  pending_rows (tr ++ (if verbose : bool then [e] else [])) = pending_rows tr.
Proof.
  intros He. unfold pending_rows. rewrite pending_from_app.
  destruct verbose; [|done]. by destruct e.
Qed.

Lemma hoare_ok_true {A : Type} (P : state -> Prop) (m : M A) :
  hoare_ok P m (fun _ => True).
Proof. by intros st a st' _ _. Qed.

Lemma nothing_pending_load_table verbose directory table_obj :
  hoare_ok (fun st => pending_rows (trace st) = [])
    (load_table (_get_verbose_prints verbose).1 (_get_verbose_prints verbose).2
                directory table_obj)
    (fun st => pending_rows (trace st) = []).
Proof.
  assert (Hps : forall thing,
            hoare_ok (fun st => pending_rows (trace st) = [])
              ((_get_verbose_prints verbose).1 thing)
              (fun st => pending_rows (trace st) = [])).
  { intros thing st a st' Hst. rewrite print_start_run. intros [= _ <-].
    cbn [trace with_events]. by rewrite pending_rows_prints. }
  assert (Hpd : forall msg,
            hoare_ok (fun st => pending_rows (trace st) = [])
              ((_get_verbose_prints verbose).2 msg)
              (fun st => pending_rows (trace st) = [])).
  { intros msg st a st' Hst. rewrite print_done_run. intros [= _ <-].
    cbn [trace with_events]. by rewrite pending_rows_prints. }
  unfold load_table.
  eapply hoare_ok_bind; [apply Hps|intros _].
  eapply hoare_ok_bind; [apply hoare_ok_get|intros st0].
  destruct (files st0 !! csv_path directory (name table_obj)) as [csvfile|];
    [|apply Hpd].
  destruct csvfile as [|header lines]; [by intros st a st' _|].
  eapply hoare_ok_bind; [apply hoare_ok_true|intros column_names].
  eapply hoare_ok_bind; [apply hoare_ok_true|intros _].
  eapply hoare_ok_bind; [apply hoare_ok_true|intros _].
  eapply hoare_ok_bind; [apply hoare_ok_true|intros _].
  eapply hoare_ok_bind; [apply hoare_ok_true|intros st1].
  eapply hoare_ok_bind; [apply hoare_ok_true|intros _].
  eapply hoare_ok_bind; [|intros _; apply Hpd].
  intros st a st' _. rewrite emit_run. intros [= _ <-].
  cbn [trace with_events]. unfold pending_rows. by rewrite pending_from_app.
Qed.

(** When a [load] returns, nothing it executed is left uncommitted: if no
    row was pending before, none is pending after, and the committed rows
    are all the rows ever executed. *)
Theorem load_commits_all_it_inserts metadata_tables sort_tables
  default_directory tables directory drop_tables verbose st st' :
  pending_rows (trace st) = [] ->
  load metadata_tables sort_tables default_directory tables directory
       drop_tables verbose st = (Ok tt, st') ->
  pending_rows (trace st') = []
  /\ Trace.committed_rows (trace st') = Trace.inserted_rows (trace st').
Proof.
  intros Hpending Hrun.
  assert (Hp : pending_rows (trace st') = []);
    [|split; [exact Hp|by apply nothing_pending_committed]].
  pose proof (select_names_cases metadata_tables tables) as Hcases.
  destruct (select_names metadata_tables tables) as [names|e] eqn:Hnames.
  2: { by erewrite load_select_raises in Hrun. }
  destruct Hcases as [_ Hkeys].
  destruct (metadata_getitem_keys metadata_tables names Hkeys)
    as (objs & Hobjs & Hmap).
  rewrite (load_run _ _ _ _ _ _ _ names objs) in Hrun by done.
  eapply (hoare_ok_for_each (fun s => pending_rows (trace s) = []));
    [|..|exact Hrun].
  - intros t. apply nothing_pending_load_table.
  - cbn [trace with_events]. unfold pending_rows. rewrite pending_from_app.
    fold (pending_rows (trace st)). rewrite Hpending.
    unfold OrderSpec.schema_events. rewrite pending_from_app.
    assert (Hc : forall l p, pending_from
                   (map (fun table => ECreate (name table)) l) p = p).
    { intros l p. induction l as [|t l IH]; simpl; done. }
    assert (Hd : forall l p, pending_from
                   (map (fun table => EDrop (name table)) l) p = p).
    { intros l p. induction l as [|t l IH]; simpl; done. }
    rewrite Hc. destruct drop_tables; [|done].
    rewrite !pending_from_app, Hd. by destruct verbose.
Qed.

Lemma load_commits_all_it_inserts_witness :
  pending_rows (trace (initial_state Scenario.forward_files)) = []
  /\ (load [Scenario.nodes] (fun table_objs => table_objs) "data" ["nodes"]
           (Some "data") false false (initial_state Scenario.forward_files)).1
     = Ok tt
  /\ Trace.committed_rows
       (trace (load [Scenario.nodes] (fun table_objs => table_objs) "data"
                    ["nodes"] (Some "data") false false
                    (initial_state Scenario.forward_files)).2)
     = Trace.inserted_rows
         (trace (load [Scenario.nodes] (fun table_objs => table_objs) "data"
                      ["nodes"] (Some "data") false false
                      (initial_state Scenario.forward_files)).2).
Proof.
  assert (H1 : pending_rows (trace (initial_state Scenario.forward_files)) = [])
    by reflexivity.
  assert (H2 : (load [Scenario.nodes] (fun table_objs => table_objs) "data"
                     ["nodes"] (Some "data") false false
                     (initial_state Scenario.forward_files)).1 = Ok tt)
    by (vm_compute; reflexivity).
  split; [exact H1|]. split; [exact H2|].
  destruct (load [Scenario.nodes] (fun table_objs => table_objs) "data"
                 ["nodes"] (Some "data") false false
                 (initial_state Scenario.forward_files)) as [r st'] eqn:Hrun.
  cbn [fst snd] in *. subst r.
  exact (proj2 (load_commits_all_it_inserts [Scenario.nodes]
                  (fun table_objs => table_objs) "data" ["nodes"]
                  (Some "data") false false
                  (initial_state Scenario.forward_files) st' H1 Hrun)).
Defined.

End DurableRows.

(** ** The replay pass *)

Section ReplayPass.

Import Loader Durable ReplaySpec.

Lemma replay_events_app table_name l1 l2 :
  replay_events table_name (l1 ++ l2)
  = (replay_events table_name l1 ++ replay_events table_name l2)%list.
Proof. apply map_app. Qed.

Lemma replay_pass_run table_name deferred st :
  match replay_seen (seen_ids st) deferred with
  | Some seen =>
    exists st',
      for_each (replay table_name) deferred st = (Ok tt, st')
      /\ trace st' = (trace st ++ replay_events table_name deferred)%list
      /\ seen_ids st' = seen
      /\ new_rows st' = new_rows st
  | None =>
    exists e st' n,
      for_each (replay table_name) deferred st = (Raise e, st')
      /\ (e = NameError "row" \/ e = KeyError "id")
      /\ (n <= length deferred)%nat
      /\ trace st' = (trace st ++ replay_events table_name
                                    (take n deferred))%list
  end.
Proof.
  revert st. induction deferred as [|[row_data ids] rest IH]; intros st.
  - simpl. exists st. by rewrite app_nil_r.
  - cbn [replay_seen for_each].
    destruct (all_seen (seen_ids st) ids) eqn:Hseen.
    + destruct (row_data !! "id") as [key|] eqn:Hkey.
      * destruct (replay_resolved table_name row_data ids key st Hseen Hkey)
          as (st1 & Hrun & Htrace & Hseen1).
        assert (Hnew : new_rows st1 = new_rows st).
        { pose proof (replay_new_rows table_name (row_data, ids) st) as H.
          by rewrite Hrun in H. }
        erewrite bind_ok by exact Hrun.
        specialize (IH st1). rewrite Hseen1 in IH.
        destruct (replay_seen (add_seen key (seen_ids st)) rest) as [seen|].
        -- destruct IH as (st' & Hrun' & Htrace' & Hseen' & Hnew').
           exists st'. split; [done|]. split; [|split; [done|congruence]].
           rewrite Htrace', Htrace. by rewrite <- app_assoc.
        -- destruct IH as (e & st' & n & Hrun' & He & Hn & Htrace').
           exists e, st', (S n). split; [done|]. split; [done|].
           split; [simpl; lia|]. rewrite Htrace', Htrace.
           by rewrite <- app_assoc.
      * exists (KeyError "id"), (with_events st [EExecuteOne table_name row_data]),
          1%nat.
        split; [|split; [by right|split; [simpl; lia|by destruct rest]]].
        erewrite bind_raise; [done|].
        unfold replay, mark_seen, getitem. unfold_m. by rewrite Hseen, Hkey.
    + exists (NameError "row"), st, 0%nat.
      split; [|split; [by left|split; [lia|by rewrite app_nil_r]]].
      erewrite bind_raise; [done|]. by apply replay_unresolved.
Qed.

(** The replay pass inserts the deferred records one by one in the order
    they were deferred, each checked against the keys seen so far, those
    of the records replayed before it included: a record deferred after
    the record it refers to is replayed all the same.  The pass returns
    exactly when every record passes that check and has an [id];
    otherwise it raises [NameError] on [row] or [KeyError] on [id]. *)
Theorem replay_pass_follows_deferral_order table_name deferred st :
  (forall seen, replay_seen (seen_ids st) deferred = Some seen ->
     exists st',
       for_each (replay table_name) deferred st = (Ok tt, st')
       /\ trace st' = (trace st ++ replay_events table_name deferred)%list
       /\ seen_ids st' = seen)
  /\ (replay_seen (seen_ids st) deferred = None ->
      exists e st',
        for_each (replay table_name) deferred st = (Raise e, st')
        /\ (e = NameError "row" \/ e = KeyError "id")).
Proof.
  pose proof (replay_pass_run table_name deferred st) as Hrun. split.
  - intros seen Hseen. rewrite Hseen in Hrun.
    destruct Hrun as (st' & ? & ? & ? & _). by exists st'.
  - intros Hnone. rewrite Hnone in Hrun.
    destruct Hrun as (e & st' & n & ? & ? & _). by exists e, st'.
Qed.

Lemma replay_pass_follows_deferral_order_witness :
  replay_seen [Scenario.text "1"]
    [(Scenario.node_row "2" (Scenario.text "1"), [Scenario.text "1"]);
     (Scenario.node_row "3" (Scenario.text "2"), [Scenario.text "2"])]
  = Some [Scenario.text "1"; Scenario.text "2"; Scenario.text "3"]
  /\ exists st',
       for_each (replay "nodes")
         [(Scenario.node_row "2" (Scenario.text "1"), [Scenario.text "1"]);
          (Scenario.node_row "3" (Scenario.text "2"), [Scenario.text "2"])]
         {| new_rows := []; seen_ids := [Scenario.text "1"];
            deferred_rows := []; trace := []; files := ∅ |}
       = (Ok tt, st')
       /\ trace st'
          = ([] ++ replay_events "nodes"
               [(Scenario.node_row "2" (Scenario.text "1"),
                 [Scenario.text "1"]);
                (Scenario.node_row "3" (Scenario.text "2"),
                 [Scenario.text "2"])])%list
       /\ seen_ids st'
          = [Scenario.text "1"; Scenario.text "2"; Scenario.text "3"].
Proof.
  assert (H : replay_seen [Scenario.text "1"]
                [(Scenario.node_row "2" (Scenario.text "1"),
                  [Scenario.text "1"]);
                 (Scenario.node_row "3" (Scenario.text "2"),
                  [Scenario.text "2"])]
              = Some [Scenario.text "1"; Scenario.text "2";
                      Scenario.text "3"]) by reflexivity.
  split; [exact H|].
  exact (proj1 (replay_pass_follows_deferral_order "nodes"
                  [(Scenario.node_row "2" (Scenario.text "1"),
                    [Scenario.text "1"]);
                   (Scenario.node_row "3" (Scenario.text "2"),
                    [Scenario.text "2"])]
                  {| new_rows := []; seen_ids := [Scenario.text "1"];
                     deferred_rows := []; trace := []; files := ∅ |})
               _ H).
Defined.

Lemma committed_from_replay_events table_name deferred pending committed :
  Trace.committed_from (replay_events table_name deferred) pending committed
  = committed
  /\ pending_from (replay_events table_name deferred) pending
     = (pending ++ map fst deferred)%list.
Proof.
  revert pending. induction deferred as [|d rest IH]; intros pending; simpl.
  - by rewrite app_nil_r.
  - destruct (IH (pending ++ [d.1])%list) as [-> ->].
    by rewrite <- app_assoc.
Qed.

(** The replay pass never commits: whether it returns or raises, it adds
    to the trace nothing but the single inserts of a leading part of the
    deferred list, so the committed rows stay what they were and these
    inserts are pending. *)
Theorem replay_pass_never_commits table_name deferred st :
  exists n,
    (n <= length deferred)%nat
    /\ trace (for_each (replay table_name) deferred st).2
       = (trace st ++ replay_events table_name (take n deferred))%list
    /\ Trace.committed_rows (trace (for_each (replay table_name) deferred st).2)
       = Trace.committed_rows (trace st)
    /\ pending_rows (trace (for_each (replay table_name) deferred st).2)
       = (pending_rows (trace st) ++ map fst (take n deferred))%list.
Proof.
  assert (Hn : exists n,
            (n <= length deferred)%nat
            /\ trace (for_each (replay table_name) deferred st).2
               = (trace st ++ replay_events table_name (take n deferred))%list).
  { pose proof (replay_pass_run table_name deferred st) as Hrun.
    destruct (replay_seen (seen_ids st) deferred) as [seen|].
    - destruct Hrun as (st' & -> & Htrace & _). exists (length deferred).
      split; [done|]. by rewrite firstn_all.
    - destruct Hrun as (e & st' & n & -> & _ & Hle & Htrace). by exists n. }
  destruct Hn as (n & Hle & Htrace). exists n.
  split; [done|]. split; [done|]. rewrite Htrace.
  unfold Trace.committed_rows, pending_rows.
  rewrite committed_from_app, pending_from_app.
  by destruct (committed_from_replay_events table_name (take n deferred)
                 (pending_from (trace st) [])
                 (Trace.committed_from (trace st) [] [])) as [-> ->].
Qed.

End ReplayPass.

(** ** The sizes of the bulk inserts *)

Section FlushSizes.

Import Loader BatchSpec.

Local Arguments Nat.leb : simpl never.
Local Arguments Nat.div : simpl never.
Local Arguments Nat.modulo : simpl never.

Lemma batches_closed_form buffered n :
  (buffered < batch_size)%nat ->
  batches buffered n
  = (repeat batch_size ((buffered + n) / batch_size),
     ((buffered + n) mod batch_size)%nat).
Proof.
  revert buffered. induction n as [|n IH]; intros buffered Hlt.
  - simpl. rewrite Nat.add_0_r, Nat.div_small, Nat.mod_small by done. done.
  - cbn [batches].
    destruct (Nat.leb_spec batch_size (S buffered)) as [Hfull|Hroom].
    + rewrite (IH 0%nat) by (unfold batch_size; lia).
      assert (Hsum : (buffered + S n = n + 1 * batch_size)%nat) by lia.
      rewrite Hsum, Nat.div_add, Nat.Div0.mod_add by (unfold batch_size; lia).
      rewrite Nat.add_0_l, Nat.add_1_r. cbn [repeat].
      by assert (S buffered = batch_size) as -> by lia.
    + rewrite (IH (S buffered)) by lia.
      by assert (S buffered + n = buffered + S n)%nat as -> by lia.
Qed.

(** The load of a table without self-reference whose [n] lines all decode
    issues [n / 1000] bulk inserts of 1000 rows followed by one of
    [n mod 1000] rows: the last bulk insert is there even when it is
    empty, as for an empty table or a multiple of 1000 lines. *)
Theorem plain_load_flush_sizes verbose directory table_obj header
  column_names lines rows st :
  self_ref_columns_of table_obj = [] ->
  files st !! csv_path directory (name table_obj) = Some (header :: lines) ->
  map_result unicode_of_str header = Ok column_names ->
  map_result (build_row table_obj column_names) lines = Ok rows ->
  exists st',
    load_table (_get_verbose_prints verbose).1 (_get_verbose_prints verbose).2
               directory table_obj st = (Ok tt, st')
    /\ Trace.flush_sizes (trace st')
       = (Trace.flush_sizes (trace st)
          ++ repeat batch_size (length lines / batch_size)
          ++ [(length lines mod batch_size)%nat])%list.
Proof.
  intros Hself Hfile Hheader Hrows.
  destruct (load_table_plain verbose directory table_obj header column_names
              lines rows st Hself Hfile Hheader Hrows)
    as (st' & Hrun & Hsizes & _).
  exists st'. split; [done|]. rewrite Hsizes. unfold flushes_of_load.
  rewrite batches_closed_form by (unfold batch_size; lia).
  by rewrite Nat.add_0_l.
Qed.

Lemma plain_load_flush_sizes_witness :
  self_ref_columns_of Scenario.items = []
  /\ files (initial_state Scenario.items_files)
       !! csv_path "data" (name Scenario.items)
     = Some (Scenario.items_header :: Scenario.items_lines)
  /\ map_result unicode_of_str Scenario.items_header
     = Ok Scenario.items_header
  /\ map_result (build_row Scenario.items Scenario.items_header)
       Scenario.items_lines = Ok (repeat Scenario.items_row 2500)
  /\ exists st',
       load_table (_get_verbose_prints false).1 (_get_verbose_prints false).2
         "data" Scenario.items (initial_state Scenario.items_files)
       = (Ok tt, st')
       /\ Trace.flush_sizes (trace st')
          = (Trace.flush_sizes (trace (initial_state Scenario.items_files))
             ++ repeat batch_size (length Scenario.items_lines / batch_size)
             ++ [(length Scenario.items_lines mod batch_size)%nat])%list.
Proof.
  assert (H1 : self_ref_columns_of Scenario.items = []) by reflexivity.
  assert (H2 : files (initial_state Scenario.items_files)
                 !! csv_path "data" (name Scenario.items)
               = Some (Scenario.items_header :: Scenario.items_lines))
    by reflexivity.
  assert (H3 : map_result unicode_of_str Scenario.items_header
               = Ok Scenario.items_header) by reflexivity.
  assert (H4 : map_result (build_row Scenario.items Scenario.items_header)
                 Scenario.items_lines = Ok (repeat Scenario.items_row 2500))
    by (apply map_result_repeat; vm_compute; reflexivity).
  split; [exact H1|]. split; [exact H2|]. split; [exact H3|].
  split; [exact H4|].
  exact (plain_load_flush_sizes false "data" Scenario.items
           Scenario.items_header Scenario.items_header Scenario.items_lines
           (repeat Scenario.items_row 2500)
           (initial_state Scenario.items_files) H1 H2 H3 H4).
Defined.

End FlushSizes.

(** ** Selectors without wildcard, the selector [*], and the order of the
    selection *)

Section Selectors.

Import Wildcard.

Lemma mem_char_cons_false ch a s :
  mem_char ch (String a s) = false -> a <> ch /\ mem_char ch s = false.
Proof.
  cbn [mem_char]. intros [Ha Hs]%orb_false_iff. split; [|done].
  by apply Ascii.eqb_neq.
Qed.

Lemma glob_matches_literal glob table_name :
  mem_char "*" glob = false -> mem_char "?" glob = false ->
  glob_matches glob table_name <-> table_name = glob.
Proof.
  intros Hstar Hopt. split.
  - intros Hm. induction Hm as
      [|p s Hm IH|p a s Hm IH|p s Hm IH|p a s Hm IH|ch p s H1 H2 Hm IH].
    + done.
    + by apply mem_char_cons_false in Hstar as [? _].
    + by apply mem_char_cons_false in Hstar as [? _].
    + by apply mem_char_cons_false in Hopt as [? _].
    + by apply mem_char_cons_false in Hopt as [? _].
    + apply mem_char_cons_false in Hstar as [_ Hstar].
      apply mem_char_cons_false in Hopt as [_ Hopt].
      by rewrite IH.
  - intros ->. induction glob as [|ch glob IH]; [constructor|].
    apply mem_char_cons_false in Hstar as [? Hstar].
    apply mem_char_cons_false in Hopt as [? Hopt].
    apply gm_lit; [done|done|by apply IH].
Qed.

Lemma glob_matches_star table_name : glob_matches "*" table_name.
Proof.
  induction table_name as [|a s IH].
  - apply gm_star_none. constructor.
  - by apply gm_star_more.
Qed.

(** An ASCII selector without wildcard, dot or slash selects the table of
    that very name and no other; the selector [*] selects every table. *)
Theorem plain_selector_selects_its_table metadata_tables glob :
  is_ascii_string glob = true ->
  mem_char "*" glob = false -> mem_char "?" glob = false ->
  mem_char "." glob = false -> mem_char "/" glob = false ->
  (exists table_names,
     select_names metadata_tables [glob] = Ok table_names
     /\ forall table_name, no_newline table_name ->
          (In table_name table_names <->
           In table_name (metadata_keys metadata_tables)
           /\ table_name = glob))
  /\ (exists table_names,
        select_names metadata_tables ["*"] = Ok table_names
        /\ forall table_name, no_newline table_name ->
             (In table_name table_names <->
              In table_name (metadata_keys metadata_tables))).
Proof.
  intros Hascii Hstar Hopt Hdot Hslash. split.
  - rewrite select_names_globs.
    2: { cbn [ascii_globs forallb]. rewrite glob_base_plain by done.
         by rewrite Hascii. }
    eexists. split; [reflexivity|].
    intros table_name Hnl. rewrite filter_In.
    rewrite (re_match_globs [glob] table_name Hnl). split.
    + intros [Hkey (g & [<-|[]] & Hm)]. split; [done|].
      rewrite glob_base_plain in Hm by done.
      by apply glob_matches_literal in Hm.
    + intros [Hkey ->]. split; [done|]. exists glob. split; [by left|].
      rewrite glob_base_plain by done. by apply glob_matches_literal.
  - rewrite select_names_globs by reflexivity.
    eexists. split; [reflexivity|].
    intros table_name Hnl. rewrite filter_In.
    rewrite (re_match_globs ["*"] table_name Hnl). split; [by intros [? _]|].
    intros Hkey. split; [done|]. exists "*". split; [by left|].
    apply glob_matches_star.
Qed.

Lemma plain_selector_selects_its_table_witness :
  is_ascii_string "nodes" = true
  /\ mem_char "*" "nodes" = false /\ mem_char "?" "nodes" = false
  /\ mem_char "." "nodes" = false /\ mem_char "/" "nodes" = false
  /\ exists table_names,
       select_names Scenario.schema ["nodes"] = Ok table_names
       /\ forall table_name, no_newline table_name ->
            (In table_name table_names <->
             In table_name (metadata_keys Scenario.schema)
             /\ table_name = "nodes").
Proof.
  split; [reflexivity|].
  split; [reflexivity|]. split; [reflexivity|]. split; [reflexivity|].
  split; [reflexivity|].
  exact (proj1 (plain_selector_selects_its_table Scenario.schema "nodes"
                  eq_refl eq_refl eq_refl eq_refl eq_refl)).
Defined.

Lemma sublist_filter_bool {A : Type} (f : A -> bool) (l : list A) :
  sublist (List.filter f l) l.
Proof.
  induction l as [|x l IH]; simpl; [constructor|].
  destruct (f x); by constructor.
Qed.

(** Selecting tables fails on a selector whose glob has a byte outside
    ASCII, with [UnicodeDecodeError], and on nothing else: [load] and
    [dump] then raise it before they print, drop, create or write
    anything.  Otherwise every selector compiles, and the selected names
    are names of the schema, in the order of the schema, none more often
    than the schema has it, each the key of a table. *)
Theorem selection_fails_on_non_ascii_only metadata_tables tables :
  if ascii_globs tables then
    exists table_names,
      select_names metadata_tables tables = Ok table_names
      /\ sublist table_names (metadata_keys metadata_tables)
      /\ exists table_objs,
           map_result (metadata_getitem metadata_tables) table_names
           = Ok table_objs
           /\ map name table_objs = table_names
  else
    select_names metadata_tables tables = Raise UnicodeDecodeError
    /\ (forall sort_tables default_directory directory drop_tables verbose st,
          Loader.load metadata_tables sort_tables default_directory tables
                      directory drop_tables verbose st
          = (Raise UnicodeDecodeError, st))
    /\ (forall default_directory table_rows key_le directory verbose st,
          Dumper.dump metadata_tables default_directory table_rows key_le
                      tables directory verbose st
          = (Raise UnicodeDecodeError, st)).
Proof.
  destruct (ascii_globs tables) eqn:Hascii.
  - assert (Hsub : exists table_names,
              select_names metadata_tables tables = Ok table_names
              /\ sublist table_names (metadata_keys metadata_tables)).
    { destruct tables as [|glob globs].
      - by exists (metadata_keys metadata_tables).
      - rewrite select_names_globs by done. eexists. split; [reflexivity|].
        apply sublist_filter_bool. }
    destruct Hsub as (names & Hsel & Hsub). exists names.
    split; [done|]. split; [done|].
    apply metadata_getitem_keys.
    destruct (select_names_ok metadata_tables tables Hascii)
      as (names' & Hsel' & Hkeys).
    rewrite Hsel in Hsel'. by injection Hsel' as <-.
  - pose proof (select_names_raises metadata_tables tables Hascii) as Hsel.
    split; [done|]. split.
    + intros. by apply load_select_raises.
    + intros. by apply dump_select_raises.
Qed.

(** The directory and the extension of a selector are dropped before the
    join: a byte outside ASCII there does no harm. *)
Example non_ascii_directory_is_dropped :
  ascii_globs [String "233"%char "t" +:+ "/nodes.cs" +:+ String "233"%char ""]
  = true
  /\ ascii_globs ["data/" +:+ String "233"%char "cole.csv"] = false.
Proof. split; vm_compute; reflexivity. Qed.

End Selectors.

(** ** A field read and written back *)

Section FieldRoundTrip.

Lemma string_of_bytes_of_string s : string_of_bytes (bytes_of_string s) = s.
Proof.
  induction s as [|a s IH]; simpl; [done|]. rewrite IH. f_equal.
  unfold byte_of_Z, Z_of_byte. by rewrite N2Z.id, ascii_N_embedding.
Qed.

Lemma bytes_of_string_bytes s :
  Forall (fun b => 0 <= b < 256) (bytes_of_string s).
Proof.
  induction s as [|a s IH]; simpl; constructor; [|done].
  unfold Z_of_byte. pose proof (N_ascii_bounded a). lia.
Qed.

Ltac encode_tests :=
  repeat match goal with
  | |- context [?a <? ?b] =>
      let Hc := fresh in
      destruct (Z.ltb_spec a b) as [Hc|Hc]; [try (exfalso; lia)|try (exfalso; lia)]
  end.

(** What the decoder accepts is what the encoder writes. *)
Lemma utf8_encode_decode_bytes n bs u :
  (length bs <= n)%nat ->
  utf8_decode_bytes bs = Some u ->
  concat (map utf8_encode_char u) = bs.
Proof.
  revert bs u. induction n as [|n IH]; intros bs u Hlen.
  { destruct bs; [|simpl in Hlen; lia]. by intros [= <-]. }
  destruct bs as [|b0 r0]; [by intros [= <-]|].
  cbn [utf8_decode_bytes]. simpl in Hlen.
  destruct (Z.ltb_spec b0 0x80) as [H0|H0].
  { destruct (utf8_decode_bytes r0) as [u'|] eqn:Hrest; [|done].
    intros [= <-]. cbn [map concat]. rewrite (IH r0 u') by (done || lia).
    unfold utf8_encode_char. by encode_tests. }
  destruct (Z.ltb_spec b0 0xC2) as [H1|H1]; [done|].
  destruct (Z.ltb_spec b0 0xE0) as [H2|H2].
  { destruct r0 as [|b1 r1]; [done|]. simpl in Hlen.
    unfold is_cont.
    destruct (Z.leb_spec 0x80 b1) as [Hc1|Hc1]; [|done].
    destruct (Z.ltb_spec b1 0xC0) as [Hc2|Hc2]; [|done]. cbn [andb].
    destruct (utf8_decode_bytes r1) as [u'|] eqn:Hrest; [|done].
    intros [= <-]. cbn [map concat]. rewrite (IH r1 u') by (done || lia).
    unfold utf8_encode_char. encode_tests. cbn [app].
    f_equal; [|f_equal]; Z.div_mod_to_equations; lia. }
  destruct (Z.ltb_spec b0 0xF0) as [H3|H3].
  { destruct r0 as [|b1 [|b2 r2]]; [done..|]. simpl in Hlen.
    unfold is_cont. cbv zeta.
    destruct (Z.leb_spec 0x80 b1) as [Hc1|Hc1]; [|done].
    destruct (Z.ltb_spec b1 0xC0) as [Hc2|Hc2]; [|done].
    destruct (Z.leb_spec 0x80 b2) as [Hc3|Hc3]; [|done].
    destruct (Z.ltb_spec b2 0xC0) as [Hc4|Hc4]; [|done]. cbn [andb].
    destruct (Z.leb_spec 0x800
                ((b0 - 0xE0) * 4096 + (b1 - 0x80) * 64 + (b2 - 0x80)))
      as [Hc5|Hc5]; [|done].
    destruct (utf8_decode_bytes r2) as [u'|] eqn:Hrest; [|done].
    intros [= <-]. cbn [map concat]. rewrite (IH r2 u') by (done || lia).
    unfold utf8_encode_char. encode_tests. cbn [app].
    f_equal; [|f_equal; [|f_equal]]; Z.div_mod_to_equations; lia. }
  destruct (Z.ltb_spec b0 0xF5) as [H4|H4]; [|done].
  destruct r0 as [|b1 [|b2 [|b3 r3]]]; [done..|]. simpl in Hlen.
  unfold is_cont. cbv zeta.
  destruct (Z.leb_spec 0x80 b1) as [Hc1|Hc1]; [|done].
  destruct (Z.ltb_spec b1 0xC0) as [Hc2|Hc2]; [|done].
  destruct (Z.leb_spec 0x80 b2) as [Hc3|Hc3]; [|done].
  destruct (Z.ltb_spec b2 0xC0) as [Hc4|Hc4]; [|done].
  destruct (Z.leb_spec 0x80 b3) as [Hc5|Hc5]; [|done].
  destruct (Z.ltb_spec b3 0xC0) as [Hc6|Hc6]; [|done]. cbn [andb].
  destruct (Z.leb_spec 0x10000
              ((b0 - 0xF0) * 262144 + (b1 - 0x80) * 4096
               + (b2 - 0x80) * 64 + (b3 - 0x80))) as [Hc7|Hc7]; [|done].
  destruct (Z.ltb_spec ((b0 - 0xF0) * 262144 + (b1 - 0x80) * 4096
                        + (b2 - 0x80) * 64 + (b3 - 0x80)) 0x110000)
    as [Hc8|Hc8]; [|done]. cbn [andb].
  destruct (utf8_decode_bytes r3) as [u'|] eqn:Hrest; [|done].
  intros [= <-]. cbn [map concat]. rewrite (IH r3 u') by (done || lia).
  unfold utf8_encode_char. encode_tests. cbn [app].
  f_equal; [|f_equal; [|f_equal; [|f_equal]]]; Z.div_mod_to_equations; lia.
Qed.

Lemma utf8_encode_decode s u :
  utf8_decode s = Some u -> no_surrogate_pair u = true -> utf8_encode u = s.
Proof.
  unfold utf8_decode, utf8_encode. intros Hdec Hfree.
  rewrite utf8_encode_points_join, (join_surrogates_id u Hfree).
  rewrite (utf8_encode_decode_bytes (length (bytes_of_string s)) _ u) by done.
  apply string_of_bytes_of_string.
Qed.

(** A field that is read by [load] and written back by [dump] comes out
    byte for byte as it went in when the column is not Boolean and the
    text of the field has no surrogate pair (three bytes for a high
    surrogate directly followed by three bytes for a low one); the field
    of a Boolean column comes out as ["0"] when it was ["0"], as the empty
    text when it was the empty text of a nullable column, and as ["1"]
    whatever else it was. *)
Theorem field_read_and_written_back column value v :
  decode_value column value = Ok v ->
  (col_type column = OtherType -> pair_free v = true ->
   encode_value v = value)
  /\ (col_type column = Boolean ->
      encode_value v
      = if nullable column && String.eqb value "" then ""
        else if String.eqb value "0" then "0" else "1").
Proof.
  unfold decode_value. intros Hdec. split; [intros Ht Hfree|intros Ht];
    rewrite Ht in Hdec; cbn [is_Boolean] in Hdec.
  - destruct (nullable column && String.eqb value "") eqn:Hnull.
    + injection Hdec as <-. apply andb_true_iff in Hnull as [_ Hv].
      by apply String.eqb_eq in Hv as ->.
    + destruct (utf8_decode value) as [u|] eqn:Hu; [|done].
      injection Hdec as <-. unfold encode_value. cbn [py_eq unicode].
      by apply utf8_encode_decode.
  - destruct (nullable column && String.eqb value ""); [by injection Hdec as <-|].
    destruct (String.eqb value "0"); by injection Hdec as <-.
Qed.

Lemma field_read_and_written_back_witness :
  decode_value Scenario.label_column (utf8_encode [233; 8364; 128512])
  = Ok (VUnicode [233; 8364; 128512])
  /\ (col_type Scenario.label_column = OtherType ->
      pair_free (VUnicode [233; 8364; 128512]) = true ->
      encode_value (VUnicode [233; 8364; 128512])
      = utf8_encode [233; 8364; 128512]).
Proof.
  assert (H : decode_value Scenario.label_column
                (utf8_encode [233; 8364; 128512])
              = Ok (VUnicode [233; 8364; 128512])) by reflexivity.
  split; [exact H|].
  exact (proj1 (field_read_and_written_back Scenario.label_column
                  (utf8_encode [233; 8364; 128512])
                  (VUnicode [233; 8364; 128512]) H)).
Defined.

(** The six bytes of a surrogate pair are read as the pair and written
    back as the four bytes of its code point. *)
Example surrogate_pair_field_is_rewritten :
  decode_value Scenario.label_column
    (string_of_bytes [0xED; 0xA0; 0x80; 0xED; 0xB0; 0x80])
  = Ok (VUnicode [0xD800; 0xDC00])
  /\ encode_value (VUnicode [0xD800; 0xDC00])
     = string_of_bytes [0xF0; 0x90; 0x80; 0x80].
Proof. split; reflexivity. Qed.

End FieldRoundTrip.

(** ** The dump and the order of the schema *)

Section DumpOrder.

Import Dumper.

Lemma sorted_leb_le l :
  Sorted (fun a b => String.leb a b = true) l -> Sorted String.le l.
Proof.
  induction 1 as [|x l Hs IH Hhd]; constructor; [done|].
  destruct Hhd as [|y l' Hxy]; constructor.
  unfold String.le. by rewrite Hxy.
Qed.

(** Sorting names gives the same list whatever order they come in. *)
Lemma sort_names_perm l1 l2 :
  Permutation l1 l2 -> sort_by String.leb l1 = sort_by String.leb l2.
Proof.
  intros Hperm. apply (Sorted_unique String.le).
  - apply sorted_leb_le, sort_by_sorted, String.leb_total.
  - apply sorted_leb_le, sort_by_sorted, String.leb_total.
  - by rewrite !sort_by_perm.
Qed.

Lemma filter_bool_perm {A : Type} (f : A -> bool) l1 l2 :
  Permutation l1 l2 -> Permutation (List.filter f l1) (List.filter f l2).
Proof.
  induction 1 as [|x l1 l2 _ IH|x y l|l1 l2 l3 _ IH1 _ IH2]; simpl.
  - done.
  - destruct (f x); [by constructor|done].
  - destruct (f x), (f y); try done. apply perm_swap.
  - by etrans.
Qed.

Lemma select_names_perm metadata_tables metadata_tables' tables :
  Permutation metadata_tables metadata_tables' ->
  (exists selected selected',
     select_names metadata_tables tables = Ok selected
     /\ select_names metadata_tables' tables = Ok selected'
     /\ Permutation selected selected')
  \/ (exists e, select_names metadata_tables tables = Raise e
                /\ select_names metadata_tables' tables = Raise e).
Proof.
  intros Hperm.
  assert (Hkeys : Permutation (metadata_keys metadata_tables)
                              (metadata_keys metadata_tables')).
  { unfold metadata_keys. by apply Permutation_map. }
  destruct (Wildcard.ascii_globs tables) eqn:Hascii.
  - left. destruct tables as [|glob globs].
    + by exists (metadata_keys metadata_tables),
                (metadata_keys metadata_tables').
    + rewrite !select_names_globs by done. do 2 eexists.
      split; [reflexivity|]. split; [reflexivity|]. by apply filter_bool_perm.
  - right. exists UnicodeDecodeError. by rewrite !select_names_raises.
Qed.

Lemma metadata_getitem_unique metadata_tables table :
  NoDup (map name metadata_tables) -> In table metadata_tables ->
  metadata_getitem metadata_tables (name table) = Ok table.
Proof.
  unfold metadata_getitem.
  induction metadata_tables as [|t tables IH]; intros Hnodup Hin; [done|].
  simpl in *. apply NoDup_cons in Hnodup as [Hnotin Hnodup].
  destruct (String.eqb_spec (name t) (name table)) as [Heq|Hne].
  - destruct Hin as [->|Hin]; [done|]. exfalso. apply Hnotin.
    rewrite Heq. apply list_elem_of_In. by apply in_map.
  - destruct Hin as [->|Hin]; [done|]. by apply IH.
Qed.

Lemma metadata_getitem_perm metadata_tables metadata_tables' table_name :
  NoDup (map name metadata_tables) ->
  Permutation metadata_tables metadata_tables' ->
  metadata_getitem metadata_tables table_name
  = metadata_getitem metadata_tables' table_name.
Proof.
  intros Hnodup Hperm.
  assert (Hnodup' : NoDup (map name metadata_tables')).
  { assert (Hp : map name metadata_tables ≡ₚ map name metadata_tables')
      by (by apply Permutation_map).
    by rewrite <- Hp. }
  destruct (find (fun t => String.eqb (name t) table_name) metadata_tables)
    as [t|] eqn:Hfind.
  - apply find_some in Hfind as [Hin Heq]. apply String.eqb_eq in Heq as <-.
    rewrite (metadata_getitem_unique metadata_tables t) by done.
    rewrite (metadata_getitem_unique metadata_tables' t); [done|done|].
    eapply Permutation_in; [exact Hperm|exact Hin].
  - unfold metadata_getitem. rewrite Hfind.
    destruct (find _ metadata_tables') as [t'|] eqn:Hfind'; [|done].
    apply find_some in Hfind' as [Hin' Heq']. exfalso.
    assert (Hin : In t' metadata_tables)
      by (eapply Permutation_in; [symmetry; exact Hperm|exact Hin']).
    pose proof (find_none _ _ Hfind t' Hin) as Hno. simpl in Hno.
    by rewrite Heq' in Hno.
Qed.

Lemma for_each_ext {A : Type} (f g : A -> M unit) l st :
  (forall x st, f x st = g x st) -> for_each f l st = for_each g l st.
Proof.
  intros Hext. revert st. induction l as [|x l IH]; intros st; [done|].
  simpl. unfold_m. rewrite Hext. destruct (g x st) as [[[]|e] st1]; [|done].
  apply IH.
Qed.

(** The dump does not depend on the order in which the schema lists its
    tables: two schemas with the same tables, each under a name of its
    own, give the same run, state for state. *)
Theorem dump_ignores_schema_order metadata_tables metadata_tables'
  default_directory table_rows key_le tables directory verbose st :
  NoDup (map name metadata_tables) ->
  Permutation metadata_tables metadata_tables' ->
  dump metadata_tables default_directory table_rows key_le tables directory
       verbose st
  = dump metadata_tables' default_directory table_rows key_le tables
         directory verbose st.
Proof.
  intros Hnodup Hperm.
  destruct (select_names_perm metadata_tables metadata_tables' tables Hperm)
    as [(selected & selected' & Hsel & Hsel' & Hnames)|(e & Hsel & Hsel')].
  2: { by rewrite !(dump_select_raises _ _ _ _ _ _ _ e). }
  unfold dump. destruct (_get_verbose_prints verbose) as [ps pd].
  rewrite Hsel, Hsel', !bind_lift_ok, (sort_names_perm _ _ Hnames).
  apply for_each_ext. intros table_name st0. unfold dump_table.
  by rewrite (metadata_getitem_perm metadata_tables metadata_tables'
                table_name Hnodup Hperm).
Qed.

Lemma dump_ignores_schema_order_witness :
  NoDup (map name [Scenario.nodes; Scenario.items])
  /\ Permutation [Scenario.nodes; Scenario.items]
                 [Scenario.items; Scenario.nodes]
  /\ dump [Scenario.nodes; Scenario.items] "data" scenario_rows int_key_le []
          None true (initial_state ∅)
     = dump [Scenario.items; Scenario.nodes] "data" scenario_rows int_key_le
            [] None true (initial_state ∅).
Proof.
  assert (H1 : NoDup (map name [Scenario.nodes; Scenario.items])).
  { apply NoDup_cons. split; [|apply NoDup_singleton].
    intros Hin%list_elem_of_In. by destruct Hin as [|[]]. }
  assert (H2 : Permutation [Scenario.nodes; Scenario.items]
                           [Scenario.items; Scenario.nodes])
    by apply perm_swap.
  split; [exact H1|]. split; [exact H2|].
  exact (dump_ignores_schema_order [Scenario.nodes; Scenario.items]
           [Scenario.items; Scenario.nodes] "data" scenario_rows int_key_le
           [] None true (initial_state ∅) H1 H2).
Defined.

End DumpOrder.

(** ** The file of each dumped table *)

Section DumpFiles.

Import Dumper.

Lemma append_inj_l (s t1 t2 : string) : s +:+ t1 = s +:+ t2 -> t1 = t2.
Proof.
  induction s as [|a s IH]; [done|]. rewrite !append_cons.
  intros [= H]. by apply IH.
Qed.

Lemma append_inj_r (s1 s2 t : string) : s1 +:+ t = s2 +:+ t -> s1 = s2.
Proof.
  revert s2. induction s1 as [|a s1 IH]; intros [|b s2] Heq.
  - done.
  - exfalso. apply (f_equal String.length) in Heq.
    rewrite append_nil_l, append_cons in Heq. simpl in Heq.
    rewrite length_append_string in Heq. lia.
  - exfalso. apply (f_equal String.length) in Heq.
    rewrite append_nil_l, append_cons in Heq. simpl in Heq.
    rewrite length_append_string in Heq. lia.
  - rewrite !append_cons in Heq. injection Heq as -> Heq.
    by rewrite (IH s2 Heq).
Qed.

(** Two tables are written to the same file only if they have the same
    name. *)
Lemma csv_path_inj directory name1 name2 :
  csv_path directory name1 = csv_path directory name2 -> name1 = name2.
Proof.
  unfold csv_path. intros Heq. apply append_inj_l in Heq.
  apply append_inj_l in Heq. by apply append_inj_r in Heq.
Qed.

Lemma map_result_getitem_consistent metadata_tables table_names table_objs :
  map_result (metadata_getitem metadata_tables) table_names = Ok table_objs ->
  forall table, In table table_objs ->
    In (name table) table_names
    /\ metadata_getitem metadata_tables (name table) = Ok table.
Proof.
  revert table_objs. induction table_names as [|n names IH]; intros objs; simpl.
  - by intros [= <-] table [].
  - destruct (metadata_getitem metadata_tables n) as [t|] eqn:Hget; [|done].
    destruct (map_result _ names) as [objs'|]; [|done].
    intros [= <-] table [<-|Hin].
    + destruct (metadata_getitem_in _ _ _ Hget) as [_ Hname].
      rewrite Hname. by split; [left|].
    + destruct (IH objs' eq_refl table Hin) as [? ?]. by split; [right|].
Qed.

Lemma dumped_files_lookup_table metadata_tables table_rows key_le directory
  table_objs fs table :
  (forall t, In t table_objs ->
     metadata_getitem metadata_tables (name t) = Ok t) ->
  In table table_objs ->
  dumped_files table_rows key_le directory table_objs fs
    !! csv_path directory (name table)
  = Some (table_file table_rows key_le table).
Proof.
  induction table_objs as [|t' objs IH] using rev_ind; intros Hcons Hin;
    [done|].
  rewrite dumped_files_snoc.
  destruct (decide (csv_path directory (name t')
                    = csv_path directory (name table))) as [Heq|Hne].
  - rewrite Heq, lookup_insert_eq. apply csv_path_inj in Heq.
    assert (t' = table) as ->; [|done].
    assert (Ok t' = Ok table) as [= ->]; [|done].
    rewrite <- (Hcons t') by (apply in_or_app; right; by left).
    rewrite <- (Hcons table) by done. by rewrite Heq.
  - rewrite lookup_insert_ne by done. apply IH.
    + intros t Ht. apply Hcons. apply in_or_app. by left.
    + apply in_app_or in Hin as [Hin|[->|[]]]; [done|by destruct Hne].
Qed.

(** A [dump] of rows that hold every column of their table raises when
    the selection does, and writes nothing; otherwise it returns, and the
    file of every selected table then holds the header line of its column
    names followed by its rows, encoded, in the order of its primary key:
    no table's file is overwritten by another's. *)
Theorem dump_writes_the_file_of_each_table metadata_tables default_directory
  table_rows key_le tables directory verbose st :
  rows_well_formed metadata_tables table_rows ->
  match select_names metadata_tables tables with
  | Ok selected =>
    exists st',
      dump metadata_tables default_directory table_rows key_le tables
           directory verbose st = (Ok tt, st')
      /\ forall table_name, In table_name selected ->
           exists table,
             metadata_getitem metadata_tables table_name = Ok table
             /\ files st' !! csv_path (directory_or_default default_directory
                                                            directory)
                                      table_name
                = Some (map col_name (c table)
                        :: map (encoded_line (map col_name (c table)))
                               (query_ordered table_rows key_le table))
  | Raise e =>
    dump metadata_tables default_directory table_rows key_le tables
         directory verbose st = (Raise e, st)
  end.
Proof.
  intros Hwf.
  pose proof (select_names_cases metadata_tables tables) as Hcases.
  destruct (select_names metadata_tables tables) as [selected|e] eqn:Hsel;
    [|by apply dump_select_raises].
  destruct Hcases as [_ Hkeys].
  destruct (metadata_getitem_keys metadata_tables
              (sort_by String.leb selected)) as (objs & Hobjs & Hnames).
  { intros n Hn. apply Hkeys.
    eapply Permutation_in; [apply sort_by_perm|exact Hn]. }
  destruct (dump_run metadata_tables default_directory table_rows key_le
              tables directory verbose selected objs st Hsel Hobjs Hwf)
    as (st' & Hrun & Hfiles & _).
  exists st'. split; [done|].
  intros table_name Hin.
  assert (Hin' : In table_name (map name objs)).
  { rewrite Hnames. eapply Permutation_in; [|exact Hin].
    symmetry. apply sort_by_perm. }
  apply in_map_iff in Hin' as (table & <- & Htable).
  destruct (map_result_getitem_consistent _ _ _ Hobjs table Htable)
    as [_ Hget].
  exists table. split; [done|]. rewrite Hfiles.
  apply (dumped_files_lookup_table metadata_tables); [|done].
  intros t Ht. by apply (map_result_getitem_consistent _ _ _ Hobjs).
Qed.

Lemma dump_writes_the_file_of_each_table_witness :
  rows_well_formed Scenario.schema scenario_rows
  /\ select_names Scenario.schema [] = Ok ["nodes"; "items"]
  /\ exists st',
       dump Scenario.schema "data" scenario_rows int_key_le [] None false
            (initial_state ∅) = (Ok tt, st')
       /\ forall table_name, In table_name ["nodes"; "items"] ->
            exists table,
              metadata_getitem Scenario.schema table_name = Ok table
              /\ files st' !! csv_path (directory_or_default "data" None)
                                       table_name
                 = Some (map col_name (c table)
                         :: map (encoded_line (map col_name (c table)))
                                (query_ordered scenario_rows int_key_le
                                               table)).
Proof.
  split; [exact scenario_rows_well_formed|]. split; [reflexivity|].
  exact (dump_writes_the_file_of_each_table Scenario.schema "data"
           scenario_rows int_key_le [] None false (initial_state ∅)
           scenario_rows_well_formed).
Defined.

End DumpFiles.

(** ** Referenced rows are inserted first *)

Section ReferenceOrder.

Import Loader RefSpec.

Local Arguments Nat.leb : simpl never.

Variable self_ref_columns : list Column.
Variable tr0 : list event.

Lemma statements_ordered_app before evs1 evs2 :
  statements_ordered self_ref_columns before (evs1 ++ evs2)
  <-> statements_ordered self_ref_columns before evs1
      /\ statements_ordered self_ref_columns
           (before ++ Trace.inserted_rows evs1)%list evs2.
Proof.
  revert before. induction evs1 as [|e evs1 IH]; intros before.
  - simpl. rewrite app_nil_r. tauto.
  - rewrite inserted_rows_cons.
    destruct e; cbn [app statements_ordered]; rewrite IH;
      cbn; rewrite ?app_nil_r, <- ?app_assoc; tauto.
Qed.

Lemma refs_among_mono before before' r :
  (forall r', In r' before -> In r' before') ->
  refs_among self_ref_columns before r ->
  refs_among self_ref_columns before' r.
Proof.
  intros Hsub Hrefs ids v Hids Hv.
  destruct (Hrefs ids v Hids Hv) as (r' & Hin & Hkey).
  exists r'. split; [by apply Hsub|done].
Qed.

Lemma py_in_exists v seen :
  py_in v seen = true -> exists k, In k seen /\ py_eq v k = true.
Proof. unfold py_in. by rewrite existsb_exists. Qed.

Lemma in_add_seen k key seen :
  In k (add_seen key seen) -> In k seen \/ k = key.
Proof.
  unfold add_seen. destruct (py_in key seen); [by left|].
  intros [?|[->|[]]]%in_app_or; [by left|by right].
Qed.

(** References that have all been seen point at inserted or buffered
    records. *)
Lemma all_seen_refs_among (row_data : row) ids seen rows :
  foreign_ids_of self_ref_columns row_data = Ok ids ->
  all_seen seen ids = true ->
  (forall k, In k seen -> exists r, In r rows /\ r !! "id" = Some k) ->
  refs_among self_ref_columns rows row_data.
Proof.
  intros Hids Hseen Hcover ids' v Hids' Hv.
  rewrite Hids in Hids'. injection Hids' as <-.
  unfold all_seen in Hseen. rewrite forallb_forall in Hseen.
  destruct (py_in_exists v seen (Hseen v Hv)) as (k & Hk & Heq).
  destruct (Hcover k Hk) as (r & Hr & Hid).
  exists r. split; [done|]. by exists k.
Qed.

Lemma invariant_insert_and_commit table_name st :
  resolver_invariant self_ref_columns tr0 st ->
  resolver_invariant self_ref_columns tr0 (insert_and_commit table_name st).2
  /\ new_rows (insert_and_commit table_name st).2 = [].
Proof.
  intros (evs & Htrace & Hord & Hnew & Hseen & Hdef). split; [|done].
  exists (evs ++ [EExecuteMany table_name (new_rows st); ECommit])%list.
  cbn [insert_and_commit snd trace new_rows seen_ids deferred_rows].
  split; [by rewrite Htrace, <- app_assoc|].
  split; [apply statements_ordered_app; by split|].
  split; [constructor|]. split; [|done].
  intros k Hk. destruct (Hseen k Hk) as (r & Hr & Hid). exists r.
  split; [|done]. rewrite inserted_rows_app. cbn. by rewrite !app_nil_r.
Qed.

(** A record that refers to inserted records only may join the buffer. *)
Lemma invariant_enqueue table_name (row_data : row) st evs :
  trace st = (tr0 ++ evs)%list ->
  statements_ordered self_ref_columns [] evs ->
  Forall (refs_among self_ref_columns (Trace.inserted_rows evs))
         (new_rows st) ->
  (forall k, In k (seen_ids st) ->
     exists r, In r (Trace.inserted_rows evs ++ new_rows st ++ [row_data])%list
               /\ r !! "id" = Some k) ->
  Forall (fun d => foreign_ids_of self_ref_columns d.1 = Ok d.2)
         (deferred_rows st) ->
  refs_among self_ref_columns (Trace.inserted_rows evs) row_data ->
  resolver_invariant self_ref_columns tr0 (enqueue table_name row_data st).2.
Proof.
  intros Htrace Hord Hnew Hseen Hdef Hrow.
  assert (Hbatch : Forall (refs_among self_ref_columns
                             (Trace.inserted_rows evs))
                          (new_rows st ++ [row_data])).
  { apply Forall_app. split; [done|]. by repeat constructor. }
  unfold enqueue, append_row, insert_and_commit. unfold_m.
  cbn [fst snd new_rows].
  destruct (batch_size <=? length (new_rows st ++ [row_data]))%nat.
  - exists (evs ++ [EExecuteMany table_name (new_rows st ++ [row_data]);
                    ECommit])%list.
    cbn [snd trace new_rows seen_ids deferred_rows].
    split; [by rewrite Htrace, <- app_assoc|].
    split; [apply statements_ordered_app; by split|].
    split; [constructor|]. split; [|done].
    intros k Hk. destruct (Hseen k Hk) as (r & Hr & Hid). exists r.
    split; [|done]. rewrite inserted_rows_app. cbn.
    by rewrite !app_nil_r.
  - exists evs. cbn [snd trace new_rows seen_ids deferred_rows].
    by repeat split.
Qed.

Lemma invariant_handle_row table_name (row_data : row) :
  hoare (resolver_invariant self_ref_columns tr0)
        (handle_row table_name self_ref_columns row_data)
        (resolver_invariant self_ref_columns tr0).
Proof.
  intros st Hinv. pose proof Hinv as (evs & Htrace & Hord & Hnew & Hseen & Hdef).
  unfold handle_row. destruct self_ref_columns as [|col0 cols] eqn:Hcols.
  { rewrite <- Hcols in *. unfold_m.
    apply (invariant_enqueue table_name row_data st evs); try done.
    - intros k Hk. destruct (Hseen k Hk) as (r & Hr & Hid). exists r.
      split; [|done]. rewrite app_assoc. apply in_or_app. by left.
    - intros ids v Hids Hv. rewrite Hcols in Hids. by injection Hids as <-. }
  rewrite <- Hcols in *. unfold resolve. unfold_m.
  destruct (foreign_ids_of self_ref_columns row_data) as [ids|e] eqn:Hids;
    [|done].
  destruct ids as [|v ids].
  - unfold mark_seen, getitem.
    destruct (row_data !! "id") as [key|] eqn:Hkey; [|done].
    apply (invariant_enqueue table_name row_data _ evs); try done.
    + cbn [seen_ids new_rows]. intros k [Hk| ->]%in_add_seen.
      * destruct (Hseen k Hk) as (r & Hr & Hid). exists r.
        split; [|done]. rewrite app_assoc. apply in_or_app. by left.
      * exists row_data. split; [|done]. rewrite app_assoc.
        apply in_or_app. right. by left.
    + intros ids' v' Hids' Hv'. rewrite Hids in Hids'.
      by injection Hids' as <-.
  - destruct (all_seen (seen_ids st) (v :: ids)) eqn:Hall.
    + destruct (invariant_insert_and_commit table_name st Hinv)
        as [Hinv1 Hempty].
      destruct (insert_and_commit table_name st) as [[[]|e] st1] eqn:Hflush;
        [|done].
      assert (Hst1 : st1 = (insert_and_commit table_name st).2)
        by (by rewrite Hflush).
      cbn [snd] in Hinv1, Hempty.
      unfold mark_seen, getitem.
      destruct (row_data !! "id") as [key|] eqn:Hkey; [|done].
      destruct Hinv1 as (evs1 & Htrace1 & Hord1 & Hnew1 & Hseen1 & Hdef1).
      assert (Hrefs : refs_among self_ref_columns (Trace.inserted_rows evs1)
                                 row_data).
      { apply (all_seen_refs_among row_data (v :: ids) (seen_ids st1));
          [done| |].
        - by rewrite Hst1.
        - intros k Hk. destruct (Hseen1 k Hk) as (r & Hr & Hid).
          exists r. split; [|done]. by rewrite Hempty, app_nil_r in Hr. }
      apply (invariant_enqueue table_name row_data _ evs1); try done.
      cbn [seen_ids new_rows]. intros k [Hk| ->]%in_add_seen.
      * destruct (Hseen1 k Hk) as (r & Hr & Hid). exists r.
        split; [|done]. rewrite app_assoc. apply in_or_app. by left.
      * exists row_data. split; [|done]. rewrite app_assoc.
        apply in_or_app. right. by left.
    + cbn. exists evs. cbn [trace new_rows seen_ids deferred_rows].
      split; [done|]. split; [done|]. split; [done|]. split; [done|].
      apply Forall_app. split; [done|]. by repeat constructor.
Qed.

Lemma invariant_replay table_name (row_data : row) ids :
  foreign_ids_of self_ref_columns row_data = Ok ids ->
  hoare (fun st => resolver_invariant self_ref_columns tr0 st
                   /\ new_rows st = [])
        (replay table_name (row_data, ids))
        (fun st => resolver_invariant self_ref_columns tr0 st
                   /\ new_rows st = []).
Proof.
  intros Hids st [Hinv Hempty].
  destruct (all_seen (seen_ids st) ids) eqn:Hall.
  2: { by rewrite replay_unresolved. }
  destruct Hinv as (evs & Htrace & Hord & Hnew & Hseen & Hdef).
  assert (Hrefs : refs_among self_ref_columns (Trace.inserted_rows evs)
                             row_data).
  { apply (all_seen_refs_among row_data ids (seen_ids st)); [done..|].
    intros k Hk. destruct (Hseen k Hk) as (r & Hr & Hid).
    exists r. split; [|done]. by rewrite Hempty, app_nil_r in Hr. }
  assert (Hord' : statements_ordered self_ref_columns []
                    (evs ++ [EExecuteOne table_name row_data])).
  { apply statements_ordered_app. by split. }
  unfold replay, mark_seen, getitem. unfold_m. rewrite Hall. cbn.
  destruct (row_data !! "id") as [key|] eqn:Hkey; cbn; (split; [|done]);
    exists (evs ++ [EExecuteOne table_name row_data])%list;
    cbn [trace new_rows seen_ids deferred_rows];
    (split; [by rewrite Htrace, <- app_assoc|]);
    (split; [done|]); rewrite Hempty; (split; [constructor|]);
    (split; [|done]); rewrite inserted_rows_app; cbn; rewrite !app_nil_r.
  - intros k [Hk| ->]%in_add_seen.
    + destruct (Hseen k Hk) as (r & Hr & Hid). exists r. split; [|done].
      rewrite Hempty, app_nil_r in Hr. apply in_or_app. by left.
    + exists row_data. split; [|done]. apply in_or_app. right. by left.
  - intros k Hk. destruct (Hseen k Hk) as (r & Hr & Hid). exists r.
    split; [|done]. rewrite Hempty, app_nil_r in Hr. apply in_or_app. by left.
Qed.

Lemma ordered_since_of_invariant st :
  resolver_invariant self_ref_columns tr0 st ->
  ordered_since self_ref_columns tr0 st.
Proof. intros (evs & ? & ? & _). by exists evs. Qed.

Lemma ordered_since_with_events st evs :
  Forall (fun e => match e with
                   | EExecuteMany _ _ | EExecuteOne _ _ => False
                   | _ => True
                   end) evs ->
  ordered_since self_ref_columns tr0 st ->
  ordered_since self_ref_columns tr0 (with_events st evs).
Proof.
  intros Hevs (evs0 & Htrace & Hord). exists (evs0 ++ evs)%list.
  cbn [trace with_events]. split; [by rewrite Htrace, <- app_assoc|].
  apply statements_ordered_app. split; [done|].
  generalize ([] ++ Trace.inserted_rows evs0)%list. intros before.
  induction Hevs as [|e evs' He _ IH]; [done|]. by destruct e.
Qed.

End ReferenceOrder.

Section ReferenceOrderOfLoad.

Import Loader RefSpec.

Lemma hoare_get_bind {B : Type} (P R : state -> Prop) (f : state -> M B) :
  (forall st, P st -> R (f st st).2) -> hoare P (get ≫= f) R.
Proof. intros Hf st HP. rewrite bind_get. by apply Hf. Qed.

Lemma ordered_since_prints self_ref_columns tr0 verbose thing :
  hoare (ordered_since self_ref_columns tr0)
        ((_get_verbose_prints verbose).1 thing)
        (ordered_since self_ref_columns tr0)
  /\ hoare (ordered_since self_ref_columns tr0)
           ((_get_verbose_prints verbose).2 thing)
           (ordered_since self_ref_columns tr0).
Proof.
  split; intros st Hst; [rewrite print_start_run|rewrite print_done_run];
    (apply ordered_since_with_events; [|done]);
    destruct verbose; by repeat constructor.
Qed.

Lemma ordered_since_load_table tr0 verbose directory table_obj :
  hoare (ordered_since (self_ref_columns_of table_obj) tr0)
    (load_table (_get_verbose_prints verbose).1 (_get_verbose_prints verbose).2
                directory table_obj)
    (ordered_since (self_ref_columns_of table_obj) tr0).
Proof.
  set (cols := self_ref_columns_of table_obj).
  unfold load_table.
  apply hoare_bind_same; [apply ordered_since_prints|intros _].
  apply hoare_bind_same; [apply hoare_get|intros st0].
  destruct (files st0 !! csv_path directory (name table_obj)) as [csvfile|];
    [|apply ordered_since_prints].
  destruct csvfile as [|header lines]; [apply hoare_raise|].
  apply hoare_bind_same; [apply hoare_lift|intros column_names].
  apply (hoare_bind _ (resolver_invariant cols tr0)).
  { intros st (evs & Htrace & Hord). exists evs.
    cbn [reset_table_state snd trace new_rows seen_ids deferred_rows].
    split; [done|]. split; [done|]. split; [constructor|].
    split; [by intros k []|constructor]. }
  2: { apply ordered_since_of_invariant. }
  intros _. apply (hoare_bind _ (resolver_invariant cols tr0)).
  { apply hoare_for_each. intros csvs. unfold process_row.
    apply hoare_bind_same; [apply hoare_lift|intros row_data].
    apply invariant_handle_row. }
  2: { apply ordered_since_of_invariant. }
  intros _.
  apply (hoare_bind _ (fun st => resolver_invariant cols tr0 st
                                 /\ new_rows st = [])).
  { intros st Hinv. by apply invariant_insert_and_commit. }
  2: { intros st [Hinv _]. by apply ordered_since_of_invariant. }
  intros _. apply hoare_get_bind. intros st1 [Hinv Hempty].
  assert (Hdef : forall d, In d (deferred_rows st1) ->
                   foreign_ids_of cols d.1 = Ok d.2).
  { destruct Hinv as (_ & _ & _ & _ & _ & Hdef).
    by apply List.Forall_forall. }
  apply (hoare_bind (fun st => resolver_invariant cols tr0 st
                               /\ new_rows st = [])
                    (fun st => resolver_invariant cols tr0 st
                               /\ new_rows st = [])); [| | |done].
  - apply hoare_for_each_in. intros [row_data ids] Hd.
    apply invariant_replay. exact (Hdef _ Hd).
  - intros _. apply (hoare_bind _ (ordered_since cols tr0)).
    + intros st [Hinv' _]. rewrite emit_run.
      apply ordered_since_with_events; [by repeat constructor|].
      by apply ordered_since_of_invariant.
    + intros _. apply ordered_since_prints.
    + done.
  - intros st [Hinv' _]. by apply ordered_since_of_invariant.
Qed.

(** In the load of a table, whether it returns or raises, every insert
    statement, bulk or single, holds only records whose self-references
    (the truthy values of the self-referential columns) are keys of
    records inserted by an earlier statement of that load: no record is
    sent to the database before the records it refers to. *)
Theorem load_table_inserts_referenced_rows_first verbose directory
  table_obj st :
  exists evs,
    trace (load_table (_get_verbose_prints verbose).1
                      (_get_verbose_prints verbose).2 directory table_obj
                      st).2
    = (trace st ++ evs)%list
    /\ statements_ordered (self_ref_columns_of table_obj) [] evs.
Proof.
  apply (ordered_since_load_table (trace st) verbose directory table_obj st).
  exists []. by rewrite app_nil_r.
Qed.

(** The order is a real constraint: a trace that inserts a child before
    its parent is not ordered. *)
Example child_first_is_not_ordered :
  ~ statements_ordered [Scenario.parent_column] []
      [EExecuteMany "nodes" [Scenario.node_row "2" (Scenario.text "1")];
       ECommit;
       EExecuteMany "nodes" [Scenario.node_row "1" VNone]; ECommit].
Proof.
  intros [Hchild _]. apply Forall_cons in Hchild as [Hrefs _].
  destruct (Hrefs [Scenario.text "1"] (Scenario.text "1") eq_refl)
    as (r & [] & _). by left.
Qed.

End ReferenceOrderOfLoad.

(** ** Every row of the file is inserted once *)

Section Conservation.

Import Loader Pool ReplaySpec Effects.

Local Arguments Nat.leb : simpl never.

Lemma perm_snoc_middle {A : Type} (a b c : list A) (r : A) :
  Permutation (a ++ (b ++ [r]) ++ c) ((a ++ b ++ c) ++ [r]).
Proof.
  rewrite <- !app_assoc. apply Permutation_app_head, Permutation_app_head.
  apply Permutation_app_comm.
Qed.

Lemma enqueue_pool table_name (row_data : row) st :
  (enqueue table_name row_data st).1 = Ok tt
  /\ Permutation (pool (enqueue table_name row_data st).2)
                 (pool st ++ [row_data]).
Proof.
  unfold enqueue, append_row, insert_and_commit. unfold_m.
  cbn [fst snd new_rows].
  destruct (batch_size <=? length (new_rows st ++ [row_data]))%nat;
    (split; [done|]); unfold pool;
    cbn [snd trace new_rows deferred_rows].
  - rewrite inserted_rows_app. cbn. rewrite !app_nil_r, <- app_assoc.
    apply perm_snoc_middle.
  - apply perm_snoc_middle.
Qed.

Lemma handle_row_pool table_name self_ref_columns (row_data : row) st st' :
  handle_row table_name self_ref_columns row_data st = (Ok tt, st') ->
  Permutation (pool st') (pool st ++ [row_data]).
Proof.
  unfold handle_row.
  assert (Henq : forall s s', enqueue table_name row_data s = (Ok tt, s') ->
                   Permutation (pool s') (pool s ++ [row_data])).
  { intros s s' Hrun. pose proof (enqueue_pool table_name row_data s) as [_ H].
    by rewrite Hrun in H. }
  destruct self_ref_columns as [|col0 cols].
  { unfold_m. apply Henq. }
  unfold resolve. unfold_m.
  destruct (foreign_ids_of (col0 :: cols) row_data) as [ids|e]; [|done].
  destruct ids as [|v ids].
  - unfold mark_seen. destruct (getitem row_data "id") as [key|]; [|done].
    intros Hrun. apply Henq in Hrun. exact Hrun.
  - destruct (all_seen (seen_ids st) (v :: ids)).
    + cbn [insert_and_commit]. unfold mark_seen.
      destruct (getitem row_data "id") as [key|]; [|done].
      intros Hrun. apply Henq in Hrun. rewrite Hrun. unfold pool.
      cbn [trace new_rows deferred_rows]. rewrite inserted_rows_app. cbn.
      by rewrite !app_nil_r, <- !app_assoc.
    + cbn. intros [= <-]. unfold pool. cbn [trace new_rows deferred_rows].
      by rewrite map_app, !app_assoc.
Qed.

Lemma process_rows_pool table_obj column_names self_ref_columns lines st st' :
  for_each (process_row table_obj column_names self_ref_columns) lines st
  = (Ok tt, st') ->
  exists rows,
    map_result (build_row table_obj column_names) lines = Ok rows
    /\ Permutation (pool st') (pool st ++ rows).
Proof.
  revert st. induction lines as [|csvs lines IH]; intros st.
  - intros [= <-]. exists []. by rewrite app_nil_r.
  - cbn [for_each map_result].
    destruct (process_row table_obj column_names self_ref_columns csvs st)
      as [[[]|e] st1] eqn:Hstep.
    2: { erewrite bind_raise by exact Hstep. done. }
    erewrite bind_ok by exact Hstep.
    unfold process_row in Hstep. unfold_m.
    destruct (build_row table_obj column_names csvs) as [row_data|]; [|done].
    pose proof Hstep as Hrow.
    intros Hrest. destruct (IH st1 Hrest) as (rows & -> & Hperm).
    exists (row_data :: rows). split; [done|].
    rewrite Hperm, (handle_row_pool _ _ _ _ _ Hrow).
    by rewrite <- app_assoc.
Qed.

Lemma inserted_rows_replay_events table_name deferred :
  Trace.inserted_rows (replay_events table_name deferred) = map fst deferred.
Proof.
  induction deferred as [|d rest IH]; [done|].
  cbn [replay_events map]. rewrite inserted_rows_cons. cbn.
  by rewrite <- IH.
Qed.

Lemma inserted_rows_flush table_name rows :
  Trace.inserted_rows [EExecuteMany table_name rows; ECommit] = rows.
Proof. unfold Trace.inserted_rows. cbn. by rewrite app_nil_r. Qed.

Lemma inserted_rows_prints verbose e :
  match e with EPrintStart _ | EPrintDone _ => True | _ => False end ->
  Trace.inserted_rows (if verbose : bool then [e] else []) = [].
Proof. intros He. destruct verbose; [|done]. by destruct e. Qed.

(** When the load of a table returns, the rows it has sent to the
    database are the records of the lines of the file, every one of them
    exactly once. *)
Theorem load_table_inserts_every_row_once verbose directory table_obj
  header column_names lines st st' :
  files st !! csv_path directory (name table_obj) = Some (header :: lines) ->
  map_result unicode_of_str header = Ok column_names ->
  load_table (_get_verbose_prints verbose).1 (_get_verbose_prints verbose).2
             directory table_obj st = (Ok tt, st') ->
  exists rows,
    map_result (build_row table_obj column_names) lines = Ok rows
    /\ Permutation (Trace.inserted_rows (trace st'))
                   (Trace.inserted_rows (trace st) ++ rows).
Proof.
  intros Hfile Hheader Hrun. unfold load_table in Hrun.
  erewrite bind_ok in Hrun by apply print_start_run.
  rewrite bind_get in Hrun. cbn [files with_events] in Hrun.
  rewrite Hfile, Hheader, bind_lift_ok in Hrun.
  erewrite bind_ok in Hrun by reflexivity.
  match type of Hrun with mbind _ (for_each ?body lines) ?s = _ =>
    destruct (for_each body lines s) as [[[]|e] st1] eqn:Hloop
  end.
  2: { erewrite bind_raise in Hrun by exact Hloop. done. }
  erewrite bind_ok in Hrun by exact Hloop.
  erewrite bind_ok in Hrun by reflexivity.
  rewrite bind_get in Hrun.
  apply process_rows_pool in Hloop as (rows & Hrows & Hpool).
  exists rows. split; [done|].
  match type of Hrun with mbind _ (for_each _ ?l) ?s = _ =>
    pose proof (replay_pass_run (name table_obj) l s) as Hreplay
  end.
  cbn [seen_ids deferred_rows] in Hreplay, Hrun.
  destruct (replay_seen (seen_ids st1) (deferred_rows st1)) as [seen|].
  2: { destruct Hreplay as (e & st2 & n & Hr & _).
       erewrite bind_raise in Hrun by exact Hr. done. }
  destruct Hreplay as (st2 & Hr & Htrace2 & _).
  erewrite bind_ok in Hrun by exact Hr.
  erewrite bind_ok in Hrun by apply emit_run.
  rewrite print_done_run in Hrun. injection Hrun as <-.
  cbn [trace with_events]. rewrite !inserted_rows_app, Htrace2.
  cbn [trace]. rewrite !inserted_rows_app, inserted_rows_replay_events.
  rewrite inserted_rows_prints, inserted_rows_flush by done.
  change (Trace.inserted_rows [ECommit]) with (@nil row).
  unfold pool in Hpool.
  cbn [trace with_events new_rows deferred_rows map] in Hpool.
  rewrite inserted_rows_app, inserted_rows_prints in Hpool by done.
  rewrite !app_nil_r in *. by rewrite <- Hpool, <- !app_assoc.
Qed.

Lemma load_table_inserts_every_row_once_witness :
  files (initial_state Scenario.forward_files)
    !! csv_path "data" (name Scenario.nodes)
  = Some (["id"; "parent"] :: [["2"; "1"]; ["1"; ""]])
  /\ map_result unicode_of_str ["id"; "parent"] = Ok ["id"; "parent"]
  /\ (load_table (_get_verbose_prints false).1 (_get_verbose_prints false).2
                 "data" Scenario.nodes
                 (initial_state Scenario.forward_files)).1 = Ok tt
  /\ exists rows,
       map_result (build_row Scenario.nodes ["id"; "parent"])
                  [["2"; "1"]; ["1"; ""]] = Ok rows
       /\ Permutation
            (Trace.inserted_rows
               (trace (load_table (_get_verbose_prints false).1
                                  (_get_verbose_prints false).2
                                  "data" Scenario.nodes
                                  (initial_state Scenario.forward_files)).2))
            (Trace.inserted_rows
               (trace (initial_state Scenario.forward_files)) ++ rows).
Proof.
  assert (H1 : files (initial_state Scenario.forward_files)
                 !! csv_path "data" (name Scenario.nodes)
               = Some (["id"; "parent"] :: [["2"; "1"]; ["1"; ""]]))
    by reflexivity.
  assert (H2 : map_result unicode_of_str ["id"; "parent"]
               = Ok ["id"; "parent"]) by reflexivity.
  assert (H3 : (load_table (_get_verbose_prints false).1
                           (_get_verbose_prints false).2
                           "data" Scenario.nodes
                           (initial_state Scenario.forward_files)).1 = Ok tt)
    by (vm_compute; reflexivity).
  split; [exact H1|]. split; [exact H2|]. split; [exact H3|].
  destruct (load_table (_get_verbose_prints false).1
                       (_get_verbose_prints false).2 "data" Scenario.nodes
                       (initial_state Scenario.forward_files))
    as [r st'] eqn:Hrun.
  cbn [fst snd] in *. subst r.
  exact (load_table_inserts_every_row_once false "data" Scenario.nodes
           ["id"; "parent"] ["id"; "parent"] [["2"; "1"]; ["1"; ""]]
           (initial_state Scenario.forward_files) st' H1 H2 Hrun).
Defined.

End Conservation.

(** ** Files that are empty, headers that are wrong, lines that are blank *)

Section EdgeCases.

Import Loader.

Local Arguments Nat.leb : simpl never.




(** A blank line of the file, which [csv.reader] yields as an empty list
    of fields, is not skipped: in a table without self-reference it puts
    the empty record in the buffer, and in a self-referential table it
    raises [KeyError] on the name of the first self-referential column,
    leaving the state as it was. *)
Theorem blank_line_is_a_record table_obj column_names self_ref_columns st :
  (self_ref_columns = [] ->
   exists st',
     process_row table_obj column_names self_ref_columns [] st = (Ok tt, st')
     /\ Permutation (Pool.pool st') (Pool.pool st ++ [∅]))
  /\ (forall column columns,
        self_ref_columns = column :: columns ->
        process_row table_obj column_names self_ref_columns [] st
        = (Raise (KeyError (col_name column)), st)).
Proof.
  assert (Hrow : build_row table_obj column_names [] = Ok ∅).
  { unfold build_row. by destruct column_names. }
  split.
  - intros ->. unfold process_row. rewrite Hrow, bind_lift_ok.
    destruct (handle_row (name table_obj) [] ∅ st) as [r st'] eqn:Hrun.
    assert (r = Ok tt) as ->.
    { unfold handle_row in Hrun. unfold_m.
      pose proof (enqueue_pool (name table_obj) ∅ st) as [Hok _].
      by rewrite Hrun in Hok. }
    exists st'. split; [done|]. by apply (handle_row_pool _ _ _ _ _ Hrun).
  - intros column columns ->. unfold process_row. rewrite Hrow, bind_lift_ok.
    unfold handle_row, resolve, foreign_ids_of. unfold_m. cbn [map_result].
    unfold getitem at 1. by rewrite lookup_empty.
Qed.

Lemma blank_line_is_a_record_witness :
  [Scenario.parent_column] = [Scenario.parent_column]
  /\ process_row Scenario.nodes ["id"; "parent"] [Scenario.parent_column] []
       (initial_state ∅)
     = (Raise (KeyError (col_name Scenario.parent_column)), initial_state ∅).
Proof.
  split; [reflexivity|].
  exact (proj2 (blank_line_is_a_record Scenario.nodes ["id"; "parent"]
                  [Scenario.parent_column] (initial_state ∅))
           Scenario.parent_column [] eq_refl).
Defined.

End EdgeCases.
